(** * Blast Sweeper: grid engine, projectile physics and level set-up

    A shallow embedding of [utils/minesweeperLogic.ts] and of the numeric
    parts of [App.tsx] and [components/GameCanvas.tsx].

    - Cell objects live in a store; a grid ([Cell[][]]) is an array of
      arrays of references into it.  Every grid function starts with
      [grid.map(row => row.map(cell => ({...cell})))], modelled by
      [cloneGrid], which allocates one fresh object per cell; the
      assignments of the source ([cell.status = ...]) are writes to the
      store.
    - A read of a property of [undefined] ends the call with [TypeError].
    - [while] loops whose trip count is not bounded syntactically take a
      step budget; [OutOfFuel] says the loop was still running when the
      budget was spent.
    - The numeric code is written once over an interface of JavaScript
      numbers, with two instances: IEEE 754 binary64 (what the program
      runs on) and exact rationals (what its formulas mean). *)

From Stdlib Require Import ZArith QArith Qround Qminmax Qabs Lia Lqa Floats Uint63.
From stdpp Require Import base option list.

Local Open Scope Z_scope.

(** ** Outcomes of a call *)

Inductive Res (A : Type) : Type :=
  | Ok (a : A)
  | TypeError
  | OutOfFuel.
Arguments Ok {A} a.
Arguments TypeError {A}.
Arguments OutOfFuel {A}.

#[global] Instance Res_ret : MRet Res := fun A a => Ok a.
#[global] Instance Res_bind : MBind Res := fun A B f m =>
  match m with
  | Ok a => f a
  | TypeError => TypeError
  | OutOfFuel => OutOfFuel
  end.

(** A property read on a possibly [undefined] value. *)
Definition defined {A} (o : option A) : Res A :=
  match o with
  | Some a => Ok a
  | None => TypeError
  end.

(** ** types.ts *)

Inductive CellStatus := HIDDEN | REVEALED | FLAGGED | EXPLODED.

#[global] Instance CellStatus_eq_dec : EqDecision CellStatus.
Proof. solve_decision. Defined.

Record Cell := mkCell {
  row : Z;
  col : Z;
  isMine : bool;
  status : CellStatus;
  neighborMines : Z
}.

Definition with_isMine (b : bool) (c : Cell) : Cell :=
  mkCell (row c) (col c) b (status c) (neighborMines c).
Definition with_status (s : CellStatus) (c : Cell) : Cell :=
  mkCell (row c) (col c) (isMine c) s (neighborMines c).
Definition with_neighborMines (n : Z) (c : Cell) : Cell :=
  mkCell (row c) (col c) (isMine c) (status c) n.

(** ** The store of cell objects *)

Abbreviation loc := nat (only parsing).
Abbreviation Store := (list Cell) (only parsing).
Abbreviation GridRef := (list (list nat)) (only parsing).

(** [grid[r][c]] as a reference; [None] is [undefined] (also for the row). *)
Definition refAt (grid : GridRef) (r c : Z) : option loc :=
  if bool_decide (0 <= r /\ 0 <= c)
  then grid !! Z.to_nat r ≫= fun cells => cells !! Z.to_nat c
  else None.

(** The object [grid[r][c]]. *)
Definition cellAt (grid : GridRef) (h : Store) (r c : Z) : option Cell :=
  refAt grid r c ≫= fun l => h !! l.

(** An assignment to a field of [grid[r][c]]. *)
Definition setCell (grid : GridRef) (h : Store) (r c : Z) (f : Cell -> Cell)
  : Res Store :=
  l ← defined (refAt grid r c);
  cell ← defined (h !! l);
  Ok (<[l := f cell]> h).

(** [row.map(cell => ({...cell}))]: one fresh object per cell, in order. *)
Fixpoint cloneRow (cells : list loc) (h : Store) : Res (list loc * Store) :=
  match cells with
  | [] => Ok ([], h)
  | l :: cells' =>
      cell ← defined (h !! l);
      '(cells2, h2) ← cloneRow cells' (h ++ [cell]);
      Ok (length h :: cells2, h2)
  end.

(** [grid.map(row => row.map(cell => ({...cell})))]. *)
Fixpoint cloneGrid (grid : GridRef) (h : Store) : Res (GridRef * Store) :=
  match grid with
  | [] => Ok ([], h)
  | cells :: grid' =>
      '(cells2, h1) ← cloneRow cells h;
      '(grid2, h2) ← cloneGrid grid' h1;
      Ok (cells2 :: grid2, h2)
  end.

(** The indices of [for (let i = 0; i < n; i++)]. *)
Definition upto (n : nat) : list Z := Z.of_nat <$> seq 0 n.

(** The indices of [for (let d = -1; d <= 1; d++)]. *)
Definition deltas : list Z := [-1; 0; 1].

(** A loop body run for each index in turn, threading the store. *)
Fixpoint forEach {A S} (l : list A) (body : A -> S -> Res S) (s : S) : Res S :=
  match l with
  | [] => Ok s
  | x :: l' => s' ← body x s; forEach l' body s'
  end.

(** ** utils/minesweeperLogic.ts *)

(** [createEmptyGrid(size)]: the cells are allocated row by row. *)
Definition emptyCell (r c : Z) : Cell := mkCell r c false HIDDEN 0.

Definition createEmptyGrid (size : nat) (h : Store) : GridRef * Store :=
  foldl (fun '(grid, h) r =>
           let '(cells, h') :=
             foldl (fun '(cells, h) c =>
                      (cells ++ [length h], h ++ [emptyCell r c]))
                   ([], h) (upto size) in
           (grid ++ [cells], h'))
        ([], h) (upto size).

(** The placement loop of [placeMines].  [draws i] is the value of the
    [i]-th evaluation of [Math.floor(Math.random() * size)]. *)
Fixpoint placeLoop (fuel : nat) (draws : nat -> Z) (i : nat)
    (newGrid : GridRef) (mineCount safeRow safeCol : Z)
    (minesPlaced : Z) (h : Store) : Res Store :=
  if minesPlaced <? mineCount then
    match fuel with
    | O => OutOfFuel
    | S fuel' =>
        let r := draws i in
        let c := draws (S i) in
        let isSafeZone :=
          (Z.abs (r - safeRow) <=? 1) && (Z.abs (c - safeCol) <=? 1) in
        cell ← defined (cellAt newGrid h r c);
        if negb (isMine cell) && negb isSafeZone then
          h' ← setCell newGrid h r c (with_isMine true);
          placeLoop fuel' draws (S (S i)) newGrid mineCount safeRow safeCol
                    (minesPlaced + 1) h'
        else
          placeLoop fuel' draws (S (S i)) newGrid mineCount safeRow safeCol
                    minesPlaced h
    end
  else Ok h.

(** The test of the innermost loop of "Calculate numbers". *)
Definition isMineAt (newGrid : GridRef) (h : Store) (size : Z) (nr nc : Z)
  : Res bool :=
  if (0 <=? nr) && (nr <? size) && (0 <=? nc) && (nc <? size) then
    cell ← defined (cellAt newGrid h nr nc);
    Ok (isMine cell)
  else Ok false.

Definition countAround (newGrid : GridRef) (h : Store) (size : Z) (r c : Z)
  : Res Z :=
  forEach deltas (fun dr count =>
    forEach deltas (fun dc count =>
      b ← isMineAt newGrid h size (r + dr) (c + dc);
      Ok (if b : bool then count + 1 else count)) count) 0.

Definition calcNumbers (newGrid : GridRef) (size : nat) (h : Store)
  : Res Store :=
  forEach (upto size) (fun r h =>
    forEach (upto size) (fun c h =>
      cell ← defined (cellAt newGrid h r c);
      if negb (isMine cell) then
        count ← countAround newGrid h (Z.of_nat size) r c;
        setCell newGrid h r c (with_neighborMines count)
      else Ok h) h) h.

Definition placeMines (fuel : nat) (draws : nat -> Z)
    (grid : GridRef) (mineCount safeRow safeCol : Z) (h : Store)
  : Res (GridRef * Store) :=
  let size := length grid in
  '(newGrid, h0) ← cloneGrid grid h;
  h1 ← placeLoop fuel draws 0 newGrid mineCount safeRow safeCol 0 h0;
  h2 ← calcNumbers newGrid size h1;
  Ok (newGrid, h2).

(** The work list of the flood fill: the array [stack], last element first. *)
Definition pushAround (r c : Z) (stack : list (Z * Z)) : list (Z * Z) :=
  foldl (fun stack dr =>
           foldl (fun stack dc => (r + dr, c + dc) :: stack) stack deltas)
        stack deltas.

Fixpoint floodFill (fuel : nat) (newGrid : GridRef) (stack : list (Z * Z))
    (h : Store) : Res Store :=
  match stack with
  | [] => Ok h
  | (r, c) :: stack' =>
      match fuel with
      | O => OutOfFuel
      | S fuel' =>
          let len := Z.of_nat (length newGrid) in
          if (r <? 0) || (len <=? r) || (c <? 0) || (len <=? c) then
            floodFill fuel' newGrid stack' h
          else
            cell ← defined (cellAt newGrid h r c);
            if bool_decide (status cell <> HIDDEN) then
              floodFill fuel' newGrid stack' h
            else
              h' ← setCell newGrid h r c (with_status REVEALED);
              if neighborMines cell =? 0 then
                floodFill fuel' newGrid (pushAround r c stack') h'
              else
                floodFill fuel' newGrid stack' h'
      end
  end.

(** Steps that the flood fill of an n x n grid cannot exceed: every step
    pops one entry, and only the n*n steps that reveal a cell push nine. *)
Definition floodBudget (newGrid : GridRef) : nat :=
  S (9 * (length newGrid * length newGrid)).

Definition revealCell (grid : GridRef) (row col : Z) (h : Store)
  : Res (GridRef * bool * Store) :=
  '(newGrid, h0) ← cloneGrid grid h;
  cell ← defined (cellAt newGrid h0 row col);
  if bool_decide (status cell <> HIDDEN) then
    Ok (newGrid, false, h0)
  else if isMine cell then
    h1 ← setCell newGrid h0 row col (with_status EXPLODED);
    Ok (newGrid, true, h1)
  else
    h1 ← floodFill (floodBudget newGrid) newGrid [(row, col)] h0;
    Ok (newGrid, false, h1).

Definition toggleFlag (grid : GridRef) (row col : Z) (h : Store)
  : Res (GridRef * Store) :=
  '(newGrid, h0) ← cloneGrid grid h;
  cell ← defined (cellAt newGrid h0 row col);
  match status cell with
  | HIDDEN =>
      h1 ← setCell newGrid h0 row col (with_status FLAGGED);
      Ok (newGrid, h1)
  | FLAGGED =>
      h1 ← setCell newGrid h0 row col (with_status HIDDEN);
      Ok (newGrid, h1)
  | _ => Ok (newGrid, h0)
  end.

(** A loop that returns [false] from the function at the first index whose
    body does, and runs on otherwise. *)
Fixpoint allOf {A} (l : list A) (body : A -> Res bool) : Res bool :=
  match l with
  | [] => Ok true
  | x :: l' => b ← body x; if b : bool then allOf l' body else Ok false
  end.

Definition checkWinCondition (grid : GridRef) (h : Store) : Res bool :=
  allOf (upto (length grid)) (fun r =>
    allOf (upto (length grid)) (fun c =>
      cell ← defined (cellAt grid h r c);
      if negb (isMine cell) && bool_decide (status cell <> REVEALED)
      then Ok false else Ok true)).


(** ** Vocabulary of the statements *)

(** Every reference of the grid points to an object of the store. *)
Definition validRefs (grid : GridRef) (h : Store) : Prop :=
  Forall (Forall (fun l => (l < length h)%nat)) grid.

(** A square [n] x [n] grid. *)
Definition wfGrid (n : nat) (grid : GridRef) (h : Store) : Prop :=
  length grid = n /\ Forall (fun cells => length cells = n) grid /\
  validRefs grid h.

(** No two positions of the grid share a cell object, and all of them were
    allocated at or after [base]. *)
Definition freshGrid (base : nat) (grid : GridRef) (h : Store) : Prop :=
  NoDup (mjoin grid) /\
  Forall (fun l => (base <= l < length h)%nat) (mjoin grid).

(** Same dimensions, row by row. *)
Definition sameShape (g1 g2 : GridRef) : Prop :=
  Forall2 (fun a b => length a = length b) g1 g2.

Definition mineAt (grid : GridRef) (h : Store) (p : Z * Z) : bool :=
  match cellAt grid h p.1 p.2 with
  | Some cell => isMine cell
  | None => false
  end.

(** The positions of an [n] x [n] grid, row by row. *)
Definition coords (n : nat) : list (Z * Z) :=
  r ← upto n; c ← upto n; [(r, c)].

(** How many of the positions [ps] satisfy [f]. *)
Definition countIf (f : Z * Z -> bool) (ps : list (Z * Z)) : nat :=
  length (filter (fun p => Is_true (f p)) ps).

(** How many of the positions [ps] hold a mine. *)
Definition minesAmong (grid : GridRef) (h : Store) (ps : list (Z * Z)) : nat :=
  countIf (mineAt grid h) ps.

(** The eight positions around [(r, c)], whether inside the grid or not. *)
Definition around (r c : Z) : list (Z * Z) :=
  [(r - 1, c - 1); (r - 1, c); (r - 1, c + 1);
   (r, c - 1); (r, c + 1);
   (r + 1, c - 1); (r + 1, c); (r + 1, c + 1)].

(** Chebyshev distance at most 1. *)
Definition near (p q : Z * Z) : Prop :=
  Z.abs (q.1 - p.1) <= 1 /\ Z.abs (q.2 - p.2) <= 1.

(** [l'] holds in [h'] a copy of the object that [l] holds in [h]. *)
Definition copyOf (h h' : Store) (l l' : loc) : Prop :=
  exists cell, h !! l = Some cell /\ h' !! l' = Some cell.

(** The value of a grid: the objects behind its references, position by
    position ([None] for a reference to nothing). *)
Definition snapshot (grid : GridRef) (h : Store) : list (list (option Cell)) :=
  fmap (M := list) (fmap (M := list) (fun l : loc => h !! l)) grid.

(** A non-mine cell that is not revealed, the test of [checkWinCondition]. *)
Definition unrevealedSafe (cell : Cell) : bool :=
  negb (isMine cell) && bool_decide (status cell <> REVEALED).

(** The verdict of [checkWinCondition] on a square grid, as a formula. *)
Definition allSafeRevealed (n : nat) (grid : GridRef) (h : Store) : bool :=
  forallb (fun r => forallb (fun c =>
    match cellAt grid h r c with
    | Some cell => negb (unrevealedSafe cell)
    | None => true
    end) (upto n)) (upto n).

(** Every object that existed in [h] is the same in [h']. *)
Definition unchanged (h h' : Store) : Prop :=
  forall l cell, h !! l = Some cell -> h' !! l = Some cell.

(** Every cell of [grid] is an object of [h'] allocated after [h]. *)
Definition allocatedSince (h : Store) (grid : GridRef) (h' : Store) : Prop :=
  Forall (Forall (fun l => (length h <= l < length h')%nat)) grid.

(** The store keeps its size and its objects below [base]. *)
Definition stable (base : nat) (h h' : Store) : Prop :=
  length h' = length h /\ forall l, (l < base)%nat -> h' !! l = h !! l.

(** What the placement loop of [placeMines] maintains: [placed] mines on
    the board, none of them next to the safe cell. *)
Definition placeInv (base n : nat) (newGrid : GridRef) (safe : Z * Z)
    (h : Store) (placed : Z) : Prop :=
  freshGrid base newGrid h /\ wfGrid n newGrid h /\
  Z.of_nat (minesAmong newGrid h (coords n)) = placed /\
  forall p, near safe p -> mineAt newGrid h p = false.

(** What "Calculate numbers" maintains, with [h0] the store it started
    from: it writes [neighborMines] only, and the non-mine cells at the
    positions [D] already hold their number. *)
Definition calcInv (base n : nat) (newGrid : GridRef) (h0 : Store)
    (D : Z * Z -> Prop) (h : Store) : Prop :=
  freshGrid base newGrid h /\ wfGrid n newGrid h /\
  (forall r c, with_neighborMines 0 <$> cellAt newGrid h r c =
               with_neighborMines 0 <$> cellAt newGrid h0 r c) /\
  forall r c cell,
    D (r, c) -> cellAt newGrid h r c = Some cell -> isMine cell = false ->
    neighborMines cell = Z.of_nat (minesAmong newGrid h0 (around r c)).

#[global] Arguments minesAmong : simpl never.
#[global] Arguments countAround : simpl never.
#[global] Arguments around : simpl never.
#[global] Arguments coords : simpl never.

(** ** Vocabulary of the flood fill *)

(** The non-mine cells carry the number of mines around them. *)
Definition numbersValid (grid : GridRef) (h : Store) : Prop :=
  forall r c cell,
    cellAt grid h r c = Some cell -> isMine cell = false ->
    neighborMines cell = Z.of_nat (minesAmong grid h (around r c)).

Definition hiddenAt (grid : GridRef) (h : Store) (p : Z * Z) : Prop :=
  exists cell, cellAt grid h p.1 p.2 = Some cell /\ status cell = HIDDEN.

Definition zeroAt (grid : GridRef) (h : Store) (p : Z * Z) : Prop :=
  exists cell, cellAt grid h p.1 p.2 = Some cell /\ neighborMines cell = 0.

Definition numberedAt (grid : GridRef) (h : Store) (p : Z * Z) : Prop :=
  exists cell, cellAt grid h p.1 p.2 = Some cell /\ 0 < neighborMines cell.

Definition revealedAt (grid : GridRef) (h : Store) (p : Z * Z) : Prop :=
  exists cell, cellAt grid h p.1 p.2 = Some cell /\ status cell = REVEALED.

(** The region of the spec: the cells joined to [s] by a chain of adjacent
    cells that all have [neighborMines = 0], whatever their status. *)
Inductive zeroRegion (grid : GridRef) (h : Store) (s : Z * Z)
  : Z * Z -> Prop :=
  | zeroRegion_start : zeroAt grid h s -> zeroRegion grid h s s
  | zeroRegion_step p q :
      zeroRegion grid h s p -> near p q -> zeroAt grid h q ->
      zeroRegion grid h s q.

(** The set of the spec: that region and the numbered cells bordering it. *)
Definition regionWithBorder (grid : GridRef) (h : Store) (s q : Z * Z)
  : Prop :=
  zeroRegion grid h s q \/
  (numberedAt grid h q /\ exists p, zeroRegion grid h s p /\ near p q).

(** What the flood fill reaches from [s]: the Hidden cells joined to [s] by
    a chain of adjacent Hidden cells, all of which, except possibly the
    last, have [neighborMines = 0]. *)
Inductive floods (grid : GridRef) (h : Store) (s : Z * Z) : Z * Z -> Prop :=
  | floods_start : hiddenAt grid h s -> floods grid h s s
  | floods_step p q :
      floods grid h s p -> zeroAt grid h p -> near p q ->
      hiddenAt grid h q -> floods grid h s q.

Definition isHiddenAt (grid : GridRef) (h : Store) (p : Z * Z) : bool :=
  match cellAt grid h p.1 p.2 with
  | Some cell => bool_decide (status cell = HIDDEN)
  | None => false
  end.

(** Hidden in the store [h0] the fill started from, Revealed in [h]. *)
Definition visited (grid : GridRef) (h0 h : Store) (p : Z * Z) : Prop :=
  hiddenAt grid h0 p /\ revealedAt grid h p.

(** What the flood fill maintains, with [h0] the store it started from and
    [s] the cell it started at. *)
Definition floodInv (base n : nat) (newGrid : GridRef) (h0 : Store)
    (s : Z * Z) (h : Store) (stack : list (Z * Z)) : Prop :=
  freshGrid base newGrid h /\ wfGrid n newGrid h /\
  (forall r c x,
     cellAt newGrid h0 r c = Some x ->
     cellAt newGrid h r c = Some x \/
     (status x = HIDDEN /\ floods newGrid h0 s (r, c) /\
      cellAt newGrid h r c = Some (with_status REVEALED x))) /\
  (forall p, p ∈ stack -> hiddenAt newGrid h0 p -> floods newGrid h0 s p) /\
  (forall p q,
     visited newGrid h0 h p -> zeroAt newGrid h0 p -> near p q ->
     hiddenAt newGrid h0 q -> visited newGrid h0 h q \/ q ∈ stack) /\
  (visited newGrid h0 h s \/ s ∈ stack).

#[global] Arguments pushAround : simpl never.

(** ** Checks that run *)

#[global] Instance validRefs_dec grid h : Decision (validRefs grid h).
Proof. unfold validRefs. apply _. Defined.

#[global] Instance wfGrid_dec n grid h : Decision (wfGrid n grid h).
Proof. unfold wfGrid. apply _. Defined.

(** [P] holds of every cell of an [n] x [n] grid. *)
Definition allCells (P : Z -> Z -> Cell -> bool) (n : nat)
    (grid : GridRef) (h : Store) : bool :=
  forallb (fun p => match cellAt grid h p.1 p.2 with
                    | Some cell => P p.1 p.2 cell
                    | None => true
                    end) (coords n).

Definition mineFree : nat -> GridRef -> Store -> bool :=
  allCells (fun _ _ cell => negb (isMine cell)).

Definition numbersValidb (n : nat) (grid : GridRef) (h : Store) : bool :=
  allCells (fun r c cell =>
              isMine cell ||
              (neighborMines cell =? Z.of_nat (minesAmong grid h (around r c))))
           n grid h.

(** ** Boards *)

Definition unwrap {A} (default : A) (m : Res A) : A :=
  match m with
  | Ok a => a
  | _ => default
  end.

(** The random draws that put the mines of the demo board:
    (1,1), (3,3), (0,4). *)
Definition demoDraws (i : nat) : Z := nth i [1; 1; 3; 3; 0; 4] 0.

(** A fresh 5 x 5 board, and the board of the demo and of the end-to-end
    scenario of the spec: mines at (1,1), (3,3), (0,4), numbers computed. *)
Definition fresh5 : GridRef * Store := createEmptyGrid 5 [].

Definition demo5 : GridRef * Store :=
  Eval vm_compute in
    unwrap ([], []) (placeMines 3 demoDraws fresh5.1 3 4 0 fresh5.2).

(** A 3 x 3 board without mines whose centre cell is flagged. *)
Definition fresh3 : GridRef * Store := createEmptyGrid 3 [].

Definition flagged3 : GridRef * Store :=
  Eval vm_compute in unwrap ([], []) (toggleFlag fresh3.1 1 1 fresh3.2).

(** Nothing is flagged, revealed or exploded yet. *)
Definition allHidden (grid : GridRef) (h : Store) : Prop :=
  forall r c cell, cellAt grid h r c = Some cell -> status cell = HIDDEN.

(** ** JavaScript numbers *)

(** The operations the numeric code uses.  [lit q] is the number that the
    decimal literal [q] denotes; [num_floor] is [Math.floor] on a finite
    number. *)
Class JSNumber (N : Type) := {
  lit : Q -> N;
  num_add : N -> N -> N;
  num_sub : N -> N -> N;
  num_mul : N -> N -> N;
  num_div : N -> N -> N;
  num_leb : N -> N -> bool;
  num_ltb : N -> N -> bool;
  num_floor : N -> Z
}.

Declare Scope num_scope.
Delimit Scope num_scope with num.
Infix "+" := num_add : num_scope.
Infix "-" := num_sub : num_scope.
Infix "*" := num_mul : num_scope.
Infix "/" := num_div : num_scope.
Infix "<=?" := num_leb : num_scope.
Infix "<?" := num_ltb : num_scope.

(** Exact rationals. *)
#[global] Instance exact : JSNumber Q := {
  lit q := q;
  num_add := Qplus;
  num_sub := Qminus;
  num_mul := Qmult;
  num_div := Qdiv;
  num_leb := Qle_bool;
  num_ltb a b := negb (Qle_bool b a);
  num_floor := Qfloor
}.

(** IEEE 754 binary64.  An integer below 2^53 converts exactly, and the
    quotient of two such integers is the double nearest to the fraction,
    which is what a decimal literal denotes. *)
Definition float_of_Z (z : Z) : float :=
  match z with
  | Z0 => PrimFloat.of_uint63 0
  | Zpos _ => PrimFloat.of_uint63 (Uint63.of_Z z)
  | Zneg p => PrimFloat.opp (PrimFloat.of_uint63 (Uint63.of_Z (Zpos p)))
  end.

Definition float_lit (q : Q) : float :=
  PrimFloat.div (float_of_Z (Qnum q)) (float_of_Z (Zpos (Qden q))).

(** [Math.floor] of a finite double, as an integer (0 for NaN and the
    infinities, where [Math.floor] has no integer value). *)
Definition float_floor (f : float) : Z :=
  match Prim2SF f with
  | S754_finite s m e =>
      match e with
      | Z0 => if s then Zneg m else Zpos m
      | Zpos k => Z.shiftl (if s then Zneg m else Zpos m) (Zpos k)
      | Zneg k => Z.shiftr (if s then Zneg m else Zpos m) (Zpos k)
      end
  | _ => 0
  end.

#[global] Instance binary64 : JSNumber float := {
  lit := float_lit;
  num_add := PrimFloat.add;
  num_sub := PrimFloat.sub;
  num_mul := PrimFloat.mul;
  num_div := PrimFloat.div;
  num_leb := PrimFloat.leb;
  num_ltb := PrimFloat.ltb;
  num_floor := float_floor
}.

Section Numeric.
Context {N : Type} `{JSNumber N}.
Local Open Scope num_scope.


(** *** App.tsx: constants *)

Definition MAX_PULL : N := lit 250.
Definition PHYS_POWER : N := lit 0.15.
Definition PHYS_Z_POWER : N := lit 0.15.
Definition PHYS_GRAVITY : N := lit 0.5.
Definition PHYS_DRAG : N := lit 0.995.

(** *** App.tsx: solveForPull *)

(** The loop of [simulateRange], [fuel] iterations left. *)
Fixpoint rangeLoop (fuel : nat) (vH vZ h d : N) : N :=
  match fuel with
  | O => d
  | S fuel' =>
      let d := d + vH in
      let h := h + vZ in
      let vZ := vZ - PHYS_GRAVITY in
      let vH := vH * PHYS_DRAG in
      if h <=? lit 0 then d else rangeLoop fuel' vH vZ h d
  end.




(** *** App.tsx: initLevel, the grid size and the mine count it sets *)


(** *** App.tsx: calculateLandingPos *)

Record Vector := mkVector { vec_x : N; vec_y : N }.

Fixpoint landingLoop (fuel : nat) (x y z vx vy currVz : N) : Vector :=
  match fuel with
  | O => mkVector x y
  | S fuel' =>
      let x := x + vx in
      let y := y + vy in
      let z := z + currVz in
      let currVz := currVz - PHYS_GRAVITY in
      let vx := vx * PHYS_DRAG in
      let vy := vy * PHYS_DRAG in
      if z <=? lit 0 then mkVector x y
      else landingLoop fuel' x y z vx vy currVz
  end.

Definition calculateLandingPos (startPos velocity : Vector) (vz : N)
  : Vector :=
  landingLoop 800 (vec_x startPos) (vec_y startPos) (lit 0)
              (vec_x velocity) (vec_y velocity) vz.

(** *** components/GameCanvas.tsx: the projectile step of [animate] *)

Definition GRAVITY_Z : N := lit 0.5.
Definition AIR_DRAG : N := lit 0.995.

Inductive Ammo := PROBE | FLAG.

Record Projectile := mkProjectile {
  position : Vector;
  z : N;
  velocity : Vector;
  vz : N;
  active : bool;
  type : Ammo
}.

(** A call [onHit(p.position, p.type)]. *)
Definition Hit : Type := Vector * Ammo.

(** One frame: the projectile after it, and the calls of [onHit] made
    during it, in order.  [None] is [activeProjectile === null]. *)
Definition animate (canvasWidth : N) (activeProjectile : option Projectile)
  : option Projectile * list Hit :=
  match activeProjectile with
  | Some p =>
      if active p then
        let pos := mkVector (vec_x (position p) + vec_x (velocity p))
                            (vec_y (position p) + vec_y (velocity p)) in
        let z1 := z p + vz p in
        let vz1 := vz p - GRAVITY_Z in
        let vel := mkVector (vec_x (velocity p) * AIR_DRAG)
                            (vec_y (velocity p) * AIR_DRAG) in
        let landed := z1 <=? lit 0 in
        let z2 := if landed then lit 0 else z1 in
        let active1 := if landed then false else active p in
        let hits1 := if landed then [(pos, type p)] else [] in
        let outside :=
          (vec_y pos <? lit (-100)) || (vec_x pos <? lit (-100)) ||
          (canvasWidth + lit 100 <? vec_x pos) in
        let active2 := if outside then false else active1 in
        let hits2 := if outside then hits1 ++ [(pos, type p)] else hits1 in
        (Some (mkProjectile pos z2 vel vz1 active2 (type p)), hits2)
      else (Some p, [])
  | None => (None, [])
  end.

(** The calls of [onHit] over [frames] frames, from the launch on. *)
Fixpoint hitsOver (frames : nat) (canvasWidth : N)
    (activeProjectile : option Projectile) : list Hit :=
  match frames with
  | O => []
  | S frames' =>
      let '(p', hits) := animate canvasWidth activeProjectile in
      hits ++ hitsOver frames' canvasWidth p'
  end.
End Numeric.

Arguments Vector N : clear implicits.
Arguments Projectile N : clear implicits.
Arguments Hit N : clear implicits.

(** ** Vocabulary of the numeric statements *)

Section NumericSpec.
Context {N : Type} `{JSNumber N}.
Local Open Scope num_scope.

(** A projectile in flight: ground position, altitude, ground velocity,
    vertical speed. *)
Record Flight := mkFlight {
  at_x : N; at_y : N; at_z : N;
  vel_x : N; vel_y : N; vel_z : N
}.

(** The tick update in the words of the spec: position += velocity;
    z += vz; vz -= 0.5; velocity *= 0.995 on both axes. *)
Definition tickUpdate (s : Flight) : Flight :=
  mkFlight (at_x s + vel_x s) (at_y s + vel_y s) (at_z s + vel_z s)
           (vel_x s * lit 0.995) (vel_y s * lit 0.995)
           (vel_z s - lit 0.5).

Definition flightAfter (k : nat) (s : Flight) : Flight :=
  Nat.iter k tickUpdate s.

(** The launch state of [calculateLandingPos]: altitude 0. *)
Definition launch (startPos velocity : Vector N) (vz : N) : Flight :=
  mkFlight (vec_x startPos) (vec_y startPos) (lit 0)
           (vec_x velocity) (vec_y velocity) vz.

Definition groundPos (s : Flight) : Vector N := mkVector (at_x s) (at_y s).

(** The altitude is at or below 0. *)
Definition landed (s : Flight) : bool := at_z s <=? lit 0.
End NumericSpec.

Arguments Flight N : clear implicits.




(** A shot as [handleMouseUp] launches it, without snap, from the drag
    position [(dragX, dragY)] with the slingshot at [(originX, originY)]
    and a pull between 20 and [MAX_PULL]; [pull] is [Math.hypot(dx, dy)]. *)
Definition launchShot {N : Type} `{JSNumber N}
    (originX originY dragX dragY pull : N) (ammo : Ammo) : Projectile N :=
  let dx := (originX - dragX)%num in
  let dy := (originY - dragY)%num in
  mkProjectile (mkVector originX (originY - lit 30)%num) (lit 0)
               (mkVector (dx * PHYS_POWER)%num (dy * PHYS_POWER)%num)
               (pull * PHYS_Z_POWER)%num true ammo.

(** A window 800 wide and 600 high puts the slingshot at (400, 420); the
    drag ends 77 below it, a pull of 77 straight up. *)
Definition straightUpShot {N : Type} `{JSNumber N} : Projectile N :=
  launchShot (lit 400) (lit 420) (lit 400) (lit 497) (lit 77) PROBE.


(** The rational that a fixed-point integer stands for. *)
Definition micro (z : Z) : Q := (inject_Z z * (1 # 1000000))%Q.




(** ** Vocabulary of the further statements on the grid *)

(** The status after [toggleFlag]: Hidden and Flagged change places. *)
Definition toggled (s : CellStatus) : CellStatus :=
  match s with
  | HIDDEN => FLAGGED
  | FLAGGED => HIDDEN
  | _ => s
  end.

(** The cell is a mine that a probe sets off: it is still Hidden. *)
Definition explodes (cell : Cell) : bool :=
  bool_decide (status cell = HIDDEN) && isMine cell.

(** Chebyshev distance at most 1, as the test [isSafeZone] of [placeMines]
    computes it. *)
Definition nearb (p q : Z * Z) : bool :=
  (Z.abs (q.1 - p.1) <=? 1) && (Z.abs (q.2 - p.2) <=? 1).

(** The number of positions of an [n] x [n] grid outside the safe zone
    around [safe]. *)
Definition roomOutside (n : nat) (safe : Z * Z) : nat :=
  countIf (fun p => negb (nearb safe p)) (coords n).

(** ** App.tsx: what a hit does to the game *)

(** [row.map(cell => ({ ...cell, status: ... }))]: one fresh object per
    cell, holding [f] of the cell. *)
Fixpoint mapRow (f : Cell -> Cell) (cells : list loc) (h : Store)
  : Res (list loc * Store) :=
  match cells with
  | [] => Ok ([], h)
  | l :: cells' =>
      cell ← defined (h !! l);
      '(cells2, h2) ← mapRow f cells' (h ++ [f cell]);
      Ok (length h :: cells2, h2)
  end.

Fixpoint mapGrid (f : Cell -> Cell) (grid : GridRef) (h : Store)
  : Res (GridRef * Store) :=
  match grid with
  | [] => Ok ([], h)
  | cells :: grid' =>
      '(cells2, h1) ← mapRow f cells h;
      '(grid2, h2) ← mapGrid f grid' h1;
      Ok (cells2 :: grid2, h2)
  end.

Inductive GameState := MENU | PLAYING | WON | LOST | RECORDING | LEADERBOARD.

#[global] Instance GameState_eq_dec : EqDecision GameState.
Proof. solve_decision. Defined.

Inductive OscillatorType := sine | square | sawtooth.

(** What a handler asks of the browser: a sound, or a timer whose
    callback is [setGameState(next)]. *)
Inductive Effect :=
  | playSound (freq : Z) (wave : OscillatorType) (duration : Q)
  | setTimeout (next : GameState) (ms : Z).

(** The state of [App] that the handling of a hit reads or writes; [P] is
    the type of projectiles. *)
Record App (P : Type) := mkApp {
  grid : GridRef;
  gameState : GameState;
  mineCount : Z;
  flagsUsed : Z;
  shake : Z;
  activeProjectile : option P;
  hasFirstMoved : bool
}.
Arguments mkApp {P}.
Arguments grid {P}.
Arguments gameState {P}.
Arguments mineCount {P}.
Arguments flagsUsed {P}.
Arguments shake {P}.
Arguments activeProjectile {P}.
Arguments hasFirstMoved {P}.

Section Handlers.
Context {P : Type}.

(** The state setters: the state after the update is applied. *)
Definition setGrid (g : GridRef) (s : App P) : App P :=
  mkApp g (gameState s) (mineCount s) (flagsUsed s) (shake s)
        (activeProjectile s) (hasFirstMoved s).
Definition setGameState (g : GameState) (s : App P) : App P :=
  mkApp (grid s) g (mineCount s) (flagsUsed s) (shake s)
        (activeProjectile s) (hasFirstMoved s).
Definition setFlagsUsed (n : Z) (s : App P) : App P :=
  mkApp (grid s) (gameState s) (mineCount s) n (shake s)
        (activeProjectile s) (hasFirstMoved s).
Definition setShake (n : Z) (s : App P) : App P :=
  mkApp (grid s) (gameState s) (mineCount s) (flagsUsed s) n
        (activeProjectile s) (hasFirstMoved s).
Definition setActiveProjectile (p : option P) (s : App P) : App P :=
  mkApp (grid s) (gameState s) (mineCount s) (flagsUsed s) (shake s)
        p (hasFirstMoved s).
Definition setHasFirstMoved (b : bool) (s : App P) : App P :=
  mkApp (grid s) (gameState s) (mineCount s) (flagsUsed s) (shake s)
        (activeProjectile s) b.

(** A handler returns the state with its updates applied, the effects it
    asked for, in order, and the store. *)
Definition Handled : Type := App P * list Effect * Store.

(** [handleGameOver], on the state with the updates made so far: its
    [setGrid(prev => ...)] maps the grid that the caller has just set. *)
Definition handleGameOver (s : App P) (h : Store) : Res Handled :=
  '(g, h') ←
    mapGrid (fun cell =>
               with_status (if isMine cell then REVEALED else status cell)
                           cell)
            (grid s) h;
  Ok (setShake 20 (setGrid g (setGameState LOST s)),
      [playSound 150 sawtooth 0.5], h').

Definition handleLevelComplete : list Effect :=
  [playSound 800 sine 0.2; setTimeout WON 500].

(** [processHit(row, col, type)].  The reads of [grid], [hasFirstMoved],
    [gameState] and [mineCount] are those of the state it was called in,
    which no update before them changes. *)
Definition processHit (fuel : nat) (draws : nat -> Z) (s : App P)
    (row col : Z) (type : Ammo) (h : Store) : Res Handled :=
  let currentGrid := grid s in
  let s := setShake 5 s in
  match type with
  | FLAG =>
      '(newGrid, h1) ← toggleFlag currentGrid row col h;
      cell ← defined (cellAt newGrid h1 row col);
      Ok (setFlagsUsed (if bool_decide (status cell = FLAGGED)
                        then flagsUsed s + 1 else flagsUsed s - 1)
                       (setGrid newGrid s),
          [], h1)
  | PROBE =>
      '(currentGrid, s, h1) ←
        (if negb (hasFirstMoved s) && bool_decide (gameState s = PLAYING)
         then
           '(g, h1) ← placeMines fuel draws currentGrid (mineCount s)
                                 row col h;
           Ok (g, setHasFirstMoved true s, h1)
         else Ok (currentGrid, s, h));
      '(nextGrid, exploded, h2) ← revealCell currentGrid row col h1;
      let s := setGrid nextGrid s in
      match gameState s with
      | PLAYING =>
          if exploded : bool then handleGameOver s h2
          else
            won ← checkWinCondition nextGrid h2;
            Ok (s,
                playSound 600 sine 0.05 ::
                (if won : bool then handleLevelComplete else []),
                h2)
      | MENU =>
          Ok (s,
              [if exploded : bool then playSound 150 sawtooth 0.5
               else playSound 600 sine 0.05],
              h2)
      | _ => Ok (s, [], h2)
      end
  end.

(** [handleProjectileUpdate(pos, type)].  [cellDiv] is what the document
    gives for [pos]: the [data-row] and [data-col] of the cell element
    under it, parsed, or [None] when there is no such element. *)
Definition handleProjectileUpdate (fuel : nat) (draws : nat -> Z)
    (s : App P) (cellDiv : option (Z * Z)) (type : Ammo) (h : Store)
  : Res Handled :=
  let s0 := setActiveProjectile None s in
  match cellDiv with
  | Some (r, c) =>
      if negb (r =? -1) && negb (c =? -1) then
        cell ← defined (cellAt (grid s) h r c);
        if bool_decide (status cell <> REVEALED) &&
           bool_decide (status cell <> EXPLODED)
        then processHit fuel draws s0 r c type h
        else Ok (s0, [], h)
      else Ok (s0, [], h)
  | None => Ok (s0, [], h)
  end.
End Handlers.

Arguments Handled P : clear implicits.

(** *** Vocabulary of the statements on the game *)

Definition isFlaggedAt (grid : GridRef) (h : Store) (p : Z * Z) : bool :=
  match cellAt grid h p.1 p.2 with
  | Some cell => bool_decide (status cell = FLAGGED)
  | None => false
  end.

(** The number of flags on an [n] x [n] grid. *)
Definition flagsOn (n : nat) (grid : GridRef) (h : Store) : nat :=
  countIf (isFlaggedAt grid h) (coords n).

(** The two grids differ in the statuses of their cells at most. *)
Definition statusOnly (g : GridRef) (h : Store) (g' : GridRef) (h' : Store)
  : Prop :=
  forall r c,
    with_status HIDDEN <$> cellAt g' h' r c
    = with_status HIDDEN <$> cellAt g h r c.

(** A level being played on an [n] x [n] grid: the counter of flags is the
    number of flags on the grid, no cell is Exploded and every mine is
    Hidden or Flagged.  Before the first probe there is no mine and no
    Revealed cell; after it there are [mineCount] mines and every other
    cell carries its number. *)
Definition playing {P} (n : nat) (s : App P) (h : Store) : Prop :=
  gameState s = PLAYING /\
  wfGrid n (grid s) h /\
  flagsUsed s = Z.of_nat (flagsOn n (grid s) h) /\
  0 <= mineCount s /\
  (forall r c cell,
     cellAt (grid s) h r c = Some cell ->
     status cell <> EXPLODED /\
     (isMine cell = true -> status cell <> REVEALED)) /\
  if hasFirstMoved s
  then numbersValid (grid s) h /\
       Z.of_nat (minesAmong (grid s) h (coords n)) = mineCount s
  else forall r c cell, cellAt (grid s) h r c = Some cell ->
                        isMine cell = false /\ status cell <> REVEALED.



(** ** Vocabulary of the statements on the flight *)

Section FlightSpec.
Context {N : Type} `{JSNumber N}.
Local Open Scope num_scope.

(** The test of [animate] for a projectile that has left the canvas by
    the top, the left or the right. *)
Definition outside (canvasWidth : N) (pos : Vector N) : bool :=
  (vec_y pos <? lit (-100)) || (vec_x pos <? lit (-100)) ||
  (canvasWidth + lit 100 <? vec_x pos).

(** The flight that a projectile is on. *)
Definition flightOf (p : Projectile N) : Flight N :=
  mkFlight (vec_x (position p)) (vec_y (position p)) (z p)
           (vec_x (velocity p)) (vec_y (velocity p)) (vz p).

(** Tick [k] is the first after which the altitude is at or below 0. *)
Definition landsAt (k : nat) (f : Flight N) : bool :=
  forallb (fun j => negb (landed (flightAfter j f))) (seq 1 (k - 1)) &&
  landed (flightAfter k f).

(** After none of the first [k] ticks the flight is off the canvas. *)
Definition staysInside (canvasWidth : N) (k : nat) (f : Flight N) : bool :=
  forallb (fun j => negb (outside canvasWidth (groundPos (flightAfter j f))))
          (seq 1 k).
End FlightSpec.

(** ** App.tsx: the two rankings of the leaderboard *)

(** types.ts: [LeaderboardEntry]; the name as its bytes. *)
Record LeaderboardEntry := mkEntry {
  name : list Byte.byte;
  level : Z;
  totalProbes : Z;
  timestamp : Z
}.

(** [Array.prototype.sort(compareFn)]: a stable sort; [compareFn(a, b)]
    negative puts [a] first, positive puts [b] first.  For a consistent
    comparator the sorted array is determined; it is computed here by
    insertion from the right, each element going before the entries of the
    sorted rest that do not come strictly before it. *)
Fixpoint insertSorted {A} (compareFn : A -> A -> Z) (x : A) (l : list A)
  : list A :=
  match l with
  | [] => [x]
  | y :: l' =>
      if 0 <? compareFn x y then y :: insertSorted compareFn x l'
      else x :: l
  end.

Definition sort {A} (compareFn : A -> A -> Z) (l : list A) : list A :=
  foldr (insertSorted compareFn) [] l.

(** [arr.slice(0, n)]. *)
Definition slice0 {A} (n : nat) (l : list A) : list A := take n l.

(** Rank 1, mastery: level descending, then probes ascending. *)
Definition masteryCompare (a b : LeaderboardEntry) : Z :=
  if negb (level b =? level a) then level b - level a
  else totalProbes a - totalProbes b.

Definition masteryRank (leaderboard : list LeaderboardEntry)
  : list LeaderboardEntry :=
  slice0 10 (sort masteryCompare leaderboard).

(** Rank 2, precision: probes ascending, then level descending. *)
Definition efficiencyCompare (a b : LeaderboardEntry) : Z :=
  if negb (totalProbes a =? totalProbes b) then totalProbes a - totalProbes b
  else level b - level a.

Definition efficiencyRank (leaderboard : list LeaderboardEntry)
  : list LeaderboardEntry :=
  slice0 10 (sort efficiencyCompare leaderboard).

(** *** Vocabulary of the statements on the rankings *)

(** [a] ranks no later than [b] under [compareFn]. *)
Definition ranksBefore {A} (compareFn : A -> A -> Z) (a b : A) : Prop :=
  compareFn a b <= 0.

(** [l] is in order: each entry ranks no later than every entry after it. *)
Definition inOrder {A} (compareFn : A -> A -> Z) (l : list A) : Prop :=
  forall i j a b, (i < j)%nat -> l !! i = Some a -> l !! j = Some b ->
                  ranksBefore compareFn a b.

(** ** Checks that run, and states of the game *)

(** [playing], as a check that runs. *)
Definition playingb {P} (n : nat) (s : App P) (h : Store) : bool :=
  bool_decide (gameState s = PLAYING) &&
  bool_decide (wfGrid n (grid s) h) &&
  (flagsUsed s =? Z.of_nat (flagsOn n (grid s) h)) &&
  (0 <=? mineCount s) &&
  allCells (fun _ _ cell =>
              bool_decide (status cell <> EXPLODED) &&
              (negb (isMine cell) || bool_decide (status cell <> REVEALED)))
           n (grid s) h &&
  if hasFirstMoved s
  then numbersValidb n (grid s) h &&
       (Z.of_nat (minesAmong (grid s) h (coords n)) =? mineCount s)
  else allCells (fun _ _ cell =>
                   negb (isMine cell) &&
                   bool_decide (status cell <> REVEALED))
                n (grid s) h.

(** The demo board in play: three mines placed, nothing revealed or
    flagged yet. *)
Definition demoState : App unit := mkApp demo5.1 PLAYING 3 0 0 None true.

(** The outcome of a handler, or the state it started from had it not
    returned. *)
Definition handled (s : App unit) (h : Store) (m : Res (Handled unit))
  : Handled unit :=
  unwrap (s, [], h) m.

(** A probe on the zero cell (4,0) of the demo board, a probe on its mine
    (1,1), and a flag on that mine. *)
Definition demoProbe : Handled unit :=
  Eval vm_compute in
    handled demoState demo5.2
      (handleProjectileUpdate 0 demoDraws demoState (Some (4, 0)) PROBE
                              demo5.2).

Definition demoBoom : Handled unit :=
  Eval vm_compute in
    handled demoState demo5.2
      (handleProjectileUpdate 0 demoDraws demoState (Some (1, 1)) PROBE
                              demo5.2).

Definition demoFlag : Handled unit :=
  Eval vm_compute in
    handled demoState demo5.2
      (handleProjectileUpdate 0 demoDraws demoState (Some (1, 1)) FLAG
                              demo5.2).



(** A shot pulled 40 straight up in a window 800 wide and 600 high: it is
    down after tick 25. *)
Definition shortShot {N : Type} `{JSNumber N} : Projectile N :=
  launchShot (lit 400) (lit 420) (lit 400) (lit 460) (lit 40) PROBE.

(** ** components/GameCanvas.tsx: what [draw] computes *)

Section Draw.
Context {N : Type} `{JSNumber N}.
Local Open Scope num_scope.

(** The two colours of the canvas: ['#fcd34d'] for a probe and
    ['#60a5fa'] for a flag. *)
Inductive Color := fcd34d | c60a5fa.

Definition ammoColor (type0 : Ammo) : Color :=
  match type0 with PROBE => fcd34d | FLAG => c60a5fa end.

(** *** The prediction trajectory (step 7 of [draw]) *)

(** A dot of the trajectory: the loop index [i], from which [draw] takes
    the opacity, the shade and the radius of the dot, and the centre of
    its arc. *)
Record Dot := mkDot { dot_i : nat; dot_x : N; dot_y : N }.

(** The loop [for (let i = 0; i < 800; i++)], at index [i] with [fuel]
    iterations left: the dots drawn, and the position of the reticle when
    [hasLanded] is set. *)
Fixpoint predictionLoop (fuel i : nat) (simX simY simZ simVx simVy simVz : N)
  : list Dot * option (Vector N) :=
  match fuel with
  | O => ([], None)
  | S fuel' =>
      let simX := simX + simVx in
      let simY := simY + simVy in
      let simZ := simZ + simVz in
      let simVz := simVz - GRAVITY_Z in
      let simVx := simVx * AIR_DRAG in
      let simVy := simVy * AIR_DRAG in
      if simZ <=? lit 0 then ([], Some (mkVector simX simY))
      else
        let '(dots, reticle) :=
          predictionLoop fuel' (S i) simX simY simZ simVx simVy simVz in
        ((if (i mod 3 =? 0)%nat then [mkDot i simX (simY - simZ)] else [])
           ++ dots, reticle)
  end.

(** Step 7 of [draw] when there is a target and the velocity of the
    prediction is [simVelocity], [simVz]. *)
Definition drawPrediction (slingshotOrigin simVelocity : Vector N) (simVz : N)
  : list Dot * option (Vector N) :=
  predictionLoop 800 0 (vec_x slingshotOrigin)
                 (vec_y slingshotOrigin - lit 30) (lit 0)
                 (vec_x simVelocity) (vec_y simVelocity) simVz.

(** *** Particles (step 1 of [draw]) and [createExplosion] *)

Record Particle := mkParticle {
  part_x : N; part_y : N; part_z : N;
  part_vx : N; part_vy : N; part_vz : N;
  part_life : N;
  part_color : Color;
  part_size : N
}.

(** [createExplosion]: fifteen particles pushed onto [particlesRef];
    [random k] is the value of the call of [Math.random] number [k]. *)
Definition createExplosion (x y z0 : N) (color : Color) (random : nat -> N)
    (particles : list Particle) : list Particle :=
  particles ++
  map (fun i =>
         mkParticle x y (z0 + lit 5)
                    ((random (4 * i)%nat - lit 0.5) * lit 8)
                    ((random (4 * i + 1)%nat - lit 0.5) * lit 8)
                    (random (4 * i + 2)%nat * lit 10)
                    (lit 1.0) color
                    (random (4 * i + 3)%nat * lit 4 + lit 2))
      (seq 0 15).

(** The update of one particle at the head of the loop body. *)
Definition moveParticle (p : Particle) : Particle :=
  let x := part_x p + part_vx p in
  let y := part_y p + part_vy p in
  let z1 := part_z p + part_vz p in
  let vz1 := part_vz p - GRAVITY_Z in
  let life := part_life p - lit 0.03 in
  if z1 <? lit 0
  then mkParticle x y (lit 0) (part_vx p * lit 0.8) (part_vy p * lit 0.8)
                  (vz1 * lit (-0.5)) life (part_color p) (part_size p)
  else mkParticle x y z1 (part_vx p) (part_vy p) vz1 life
                  (part_color p) (part_size p).

(** A filled circle: [globalAlpha], [fillStyle], and the centre and the
    radius of the arc. *)
Record Arc := mkArc {
  arc_alpha : N; arc_style : Color; arc_x : N; arc_y : N; arc_radius : N
}.

Definition particleArc (p : Particle) : Arc :=
  mkArc (part_life p) (part_color p) (part_x p) (part_y p - part_z p)
        (part_size p).

(** The loop [for (let i = length - 1; i >= 0; i--)], about to run index
    [i - 1]: the array is updated in place, a particle whose life is spent
    is spliced out, the others are drawn. *)
Fixpoint particleLoop (i : nat) (particles : list Particle) (arcs : list Arc)
  : Res (list Particle * list Arc) :=
  match i with
  | O => Ok (particles, arcs)
  | S i' =>
      match particles !! i' with
      | None => TypeError
      | Some p =>
          let p := moveParticle p in
          if part_life p <=? lit 0
          then particleLoop i' (delete i' particles) arcs
          else particleLoop i' (<[i' := p]> particles)
                            (arcs ++ [particleArc p])
      end
  end.

Definition drawParticles (particles : list Particle)
  : Res (list Particle * list Arc) :=
  particleLoop (length particles) particles [].

(** The particles after [k] frames. *)
Fixpoint particlesAfter (k : nat) (particles : list Particle)
  : Res (list Particle) :=
  match k with
  | O => Ok particles
  | S k' =>
      match drawParticles particles with
      | Ok (particles', _) => particlesAfter k' particles'
      | TypeError => TypeError
      | OutOfFuel => OutOfFuel
      end
  end.

(** A particle whose life is not spent. *)
Definition alive (p : Particle) : bool := negb (part_life p <=? lit 0).

(** [launchOrigin] of [handleMouseMove], where a shot starts. *)
Definition launchOrigin (slingshotOrigin : Vector N) : Vector N :=
  mkVector (vec_x slingshotOrigin) (vec_y slingshotOrigin - lit 30).
End Draw.

Arguments Dot N : clear implicits.
Arguments Particle N : clear implicits.
Arguments Arc N : clear implicits.
(** * Properties *)

(** ** Outcomes *)

Lemma bind_Ok {A B} (m : Res A) (f : A -> Res B) (b : B) :
  m ≫= f = Ok b <-> exists a, m = Ok a /\ f a = Ok b.
Proof.
  destruct m; cbn; split; try (intros (a0 & Ha & Hb)); try discriminate; eauto.
  by inversion Ha; subst.
Qed.

Lemma defined_Ok {A} (o : option A) (a : A) : defined o = Ok a <-> o = Some a.
Proof. destruct o; cbn; split; congruence. Qed.

(** Inversion of a successful call, one bind at a time. *)
Ltac res_inv :=
  repeat match goal with
    | H : Ok _ = Ok _ |- _ => inversion H; subst; clear H
    | H : TypeError = Ok _ |- _ => discriminate H
    | H : OutOfFuel = Ok _ |- _ => discriminate H
    | H : defined _ = Ok _ |- _ => apply defined_Ok in H
    | H : _ ≫= _ = Ok _ |- _ =>
        let a := fresh "a" in
        let Ha := fresh "Ha" in
        apply bind_Ok in H; destruct H as (a & Ha & H)
    | H : (let '(_, _) := ?p in _) = Ok _ |- _ => destruct p
    end.

(** ** References and cells *)

Section Access.
Implicit Types (grid : GridRef) (h : Store) (r c : Z) (l : loc).

Lemma refAt_Some grid r c l :
  refAt grid r c = Some l <->
  0 <= r /\ 0 <= c /\
  exists cells, grid !! Z.to_nat r = Some cells /\ cells !! Z.to_nat c = Some l.
Proof.
  unfold refAt. case_bool_decide as Hrc.
  - destruct (grid !! Z.to_nat r) as [cells|] eqn:E; cbn.
    + split; [intros; repeat split; try lia; eauto|].
      intros (_ & _ & cells' & [= <-] & ?); done.
    + split; [done|]. intros (_ & _ & cells' & [=] & _).
  - split; [done|]. intros (? & ? & _). lia.
Qed.

Lemma refAt_elem grid r c l :
  refAt grid r c = Some l -> l ∈ mjoin grid.
Proof.
  intros (_ & _ & cells & Hr & Hc)%refAt_Some.
  apply list_elem_of_join. exists cells.
  split; eapply list_elem_of_lookup_2; eauto.
Qed.

Lemma concat_lookup_inj (g : list (list loc)) i j i' j' cells cells' l :
  NoDup (mjoin g) ->
  g !! i = Some cells -> cells !! j = Some l ->
  g !! i' = Some cells' -> cells' !! j' = Some l ->
  i = i' /\ j = j'.
Proof.
  revert i i'. induction g as [|x g IH]; intros i i' Hnd Hi Hj Hi' Hj'; [done|].
  cbn in Hnd. apply NoDup_app in Hnd as (Hx & Hdisj & Hg).
  destruct i as [|i], i' as [|i']; cbn in *.
  - assert (x = cells) as -> by congruence.
    assert (cells' = cells) as -> by congruence.
    split; [done|]. by apply (NoDup_lookup cells j j' l).
  - inversion Hi; subst. exfalso. eapply Hdisj.
    + eapply list_elem_of_lookup_2; eauto.
    + apply list_elem_of_join. exists cells'.
      split; eapply list_elem_of_lookup_2; eauto.
  - inversion Hi'; subst. exfalso. eapply Hdisj.
    + eapply list_elem_of_lookup_2; eauto.
    + apply list_elem_of_join. exists cells.
      split; eapply list_elem_of_lookup_2; eauto.
  - destruct (IH i i' Hg Hi Hj Hi' Hj') as [-> ->]. done.
Qed.

Lemma refAt_inj grid r c r' c' l :
  NoDup (mjoin grid) ->
  refAt grid r c = Some l -> refAt grid r' c' = Some l ->
  r = r' /\ c = c'.
Proof.
  intros Hnd (Hr & Hc & cells & H1 & H2)%refAt_Some
             (Hr' & Hc' & cells' & H1' & H2')%refAt_Some.
  destruct (concat_lookup_inj _ _ _ _ _ _ _ _ Hnd H1 H2 H1' H2'). lia.
Qed.
End Access.

(** ** Cloning *)

Section Clone.
Implicit Types (grid : GridRef) (h : Store) (r c : Z) (l : loc).

Lemma cloneRow_shape cells h cells2 h2 :
  cloneRow cells h = Ok (cells2, h2) ->
  exists vals, h2 = h ++ vals /\ length vals = length cells /\
               cells2 = seq (length h) (length cells).
Proof.
  revert h cells2 h2. induction cells as [|l cells IH]; intros h cells2 h2 H.
  - cbn in H. res_inv. exists []. by rewrite app_nil_r.
  - cbn in H. res_inv.
    destruct (IH _ _ _ Ha0) as (vals & -> & Hlen & ->).
    exists (a :: vals). rewrite <- app_assoc. cbn.
    rewrite length_app, Hlen. cbn.
    repeat split; try done. f_equal. f_equal. lia.
Qed.

Lemma cloneRow_vals cells h0 pre cells2 h2 :
  Forall (fun l => (l < length h0)%nat) cells ->
  cloneRow cells (h0 ++ pre) = Ok (cells2, h2) ->
  Forall2 (copyOf h0 h2) cells cells2.
Proof.
  revert pre cells2 h2.
  induction cells as [|l cells IH]; intros pre cells2 h2 Hv H.
  - cbn in H. res_inv. constructor.
  - cbn in H. res_inv. inversion Hv as [|? ? Hl Hv']; subst.
    rewrite <- app_assoc in Ha0.
    pose proof (cloneRow_shape _ _ _ _ Ha0) as (vals & -> & _ & _).
    constructor; [|by eapply IH].
    rewrite lookup_app_l in Ha by done.
    exists a. split; [done|].
    replace ((h0 ++ pre ++ [a]) ++ vals) with ((h0 ++ pre) ++ a :: vals)
      by (by rewrite <- !app_assoc).
    by apply list_lookup_middle.
Qed.

Lemma cloneRow_total cells h0 pre :
  Forall (fun l => (l < length h0)%nat) cells ->
  exists res, cloneRow cells (h0 ++ pre) = Ok res.
Proof.
  revert pre. induction cells as [|l cells IH]; intros pre Hv; cbn; [eauto|].
  inversion Hv as [|? ? Hl Hv']; subst.
  destruct (lookup_lt_is_Some_2 h0 l Hl) as [cell Hcell].
  rewrite (lookup_app_l_Some _ _ _ _ Hcell). cbn.
  rewrite <- app_assoc.
  destruct (IH (pre ++ [cell]) Hv') as ([cells2 h2] & ->). cbn. eauto.
Qed.

Lemma cloneGrid_shape grid h g' h' :
  cloneGrid grid h = Ok (g', h') ->
  exists vals, h' = h ++ vals /\
               mjoin g' = seq (length h) (length vals) /\
               sameShape grid g'.
Proof.
  revert h g' h'. induction grid as [|cells grid IH]; intros h g' h' H.
  - cbn in H. res_inv. exists []. rewrite app_nil_r. repeat split. constructor.
  - cbn in H. res_inv.
    destruct (cloneRow_shape _ _ _ _ Ha) as (v1 & -> & Hl1 & ->).
    destruct (IH _ _ _ Ha0) as (v2 & -> & Hj & Hs).
    exists (v1 ++ v2). rewrite <- app_assoc. split; [done|]. split.
    + change (mjoin (?x :: ?y)) with (x ++ mjoin y).
      rewrite Hj, !length_app, <- Hl1, seq_app. done.
    + constructor; [by rewrite length_seq|done].
Qed.

Lemma cloneGrid_vals grid h0 pre g' h' :
  validRefs grid h0 ->
  cloneGrid grid (h0 ++ pre) = Ok (g', h') ->
  Forall2 (Forall2 (copyOf h0 h')) grid g'.
Proof.
  revert pre g' h'.
  induction grid as [|cells grid IH]; intros pre g' h' Hv H.
  - cbn in H. res_inv. constructor.
  - cbn in H. res_inv. inversion Hv as [|? ? Hc Hv']; subst.
    pose proof (cloneRow_vals _ _ _ _ _ Hc Ha) as Hrow.
    destruct (cloneRow_shape _ _ _ _ Ha) as (v1 & -> & Hl1 & ->).
    rewrite <- app_assoc in Ha0.
    destruct (cloneGrid_shape _ _ _ _ Ha0) as (v2 & -> & _ & _).
    constructor; [|by eapply IH].
    eapply Forall2_impl; [apply Hrow|]. cbn. intros l l' (cell & H1 & H2).
    exists cell. split; [done|]. rewrite <- app_assoc in H2.
    by apply lookup_app_l_Some.
Qed.

Lemma cloneGrid_total grid h0 pre :
  validRefs grid h0 -> exists res, cloneGrid grid (h0 ++ pre) = Ok res.
Proof.
  revert pre. induction grid as [|cells grid IH]; intros pre Hv; cbn; [eauto|].
  inversion Hv as [|? ? Hc Hv']; subst.
  destruct (cloneRow_total _ _ pre Hc) as ([cells2 h1] & E). rewrite E. cbn.
  destruct (cloneRow_shape _ _ _ _ E) as (v1 & -> & _ & _).
  rewrite <- app_assoc.
  destruct (IH (pre ++ v1) Hv') as ([g2 h2] & ->). cbn. eauto.
Qed.

Lemma cellAt_Some grid h r c cell :
  cellAt grid h r c = Some cell <->
  exists l, refAt grid r c = Some l /\ h !! l = Some cell.
Proof. unfold cellAt. apply bind_Some. Qed.

Lemma copy_cellAt grid h g' h' r c :
  Forall2 (Forall2 (copyOf h h')) grid g' ->
  cellAt g' h' r c = cellAt grid h r c.
Proof.
  intros HF. apply option_eq. intros cell.
  rewrite !cellAt_Some. setoid_rewrite refAt_Some.
  split.
  - intros (l' & (Hr & Hc & cells' & E1 & E2) & Hl').
    destruct (Forall2_lookup_r _ _ _ _ _ HF E1) as (cells & E1' & Hrow).
    destruct (Forall2_lookup_r _ _ _ _ _ Hrow E2) as (l & E2' & x & Hx & Hx').
    exists l. split; [eauto 10|congruence].
  - intros (l & (Hr & Hc & cells & E1 & E2) & Hl).
    destruct (Forall2_lookup_l _ _ _ _ _ HF E1) as (cells' & E1' & Hrow).
    destruct (Forall2_lookup_l _ _ _ _ _ Hrow E2) as (l' & E2' & x & Hx & Hx').
    exists l'. split; [eauto 10|congruence].
Qed.

(** What a clone is: a fresh grid of the same shape, with equal cells at
    equal positions, in a store that extends the old one. *)
Lemma cloneGrid_spec grid h g' h' :
  validRefs grid h ->
  cloneGrid grid h = Ok (g', h') ->
  freshGrid (length h) g' h' /\ sameShape grid g' /\
  (exists vals, h' = h ++ vals) /\
  (forall r c, cellAt g' h' r c = cellAt grid h r c).
Proof.
  intros Hv H.
  destruct (cloneGrid_shape _ _ _ _ H) as (vals & -> & Hj & Hs).
  repeat split; eauto.
  - rewrite Hj. apply NoDup_seq.
  - rewrite Hj. apply Forall_forall. intros l Hl%elem_of_seq.
    rewrite length_app. lia.
  - intros r c. apply copy_cellAt.
    apply (cloneGrid_vals grid h []); [done|]. by rewrite app_nil_r.
Qed.
End Clone.

(** ** Assignments to a cell *)

Section Assign.
Implicit Types (grid : GridRef) (h : Store) (r c : Z) (l : loc).

Lemma setCell_Ok grid h r c f h' :
  setCell grid h r c f = Ok h' <->
  exists l cell, refAt grid r c = Some l /\ h !! l = Some cell /\
                 h' = <[l := f cell]> h.
Proof.
  unfold setCell. split.
  - intros H. res_inv. eauto.
  - intros (l & cell & -> & E & ->). cbn. rewrite E. done.
Qed.

(** Writes through a grid allocated at or after [base] leave the objects
    below [base] alone. *)
Lemma setCell_frame base grid h r c f h' :
  Forall (fun l => (base <= l)%nat) (mjoin grid) ->
  setCell grid h r c f = Ok h' ->
  length h' = length h /\
  forall l, (l < base)%nat -> h' !! l = h !! l.
Proof.
  intros Hb (l & cell & Hl & Hc & ->)%setCell_Ok.
  split; [apply length_insert|].
  intros l' Hl'. apply list_lookup_insert_ne.
  apply refAt_elem in Hl. rewrite Forall_forall in Hb.
  specialize (Hb _ Hl). lia.
Qed.

Lemma freshGrid_length base grid h h' :
  length h' = length h -> freshGrid base grid h -> freshGrid base grid h'.
Proof. intros E [? ?]. split; [done|]. by rewrite E. Qed.

Lemma freshGrid_base base grid h :
  freshGrid base grid h -> Forall (fun l => (base <= l)%nat) (mjoin grid).
Proof. intros [_ H]. eapply Forall_impl; [apply H|]. cbn. lia. Qed.

(** The effect of [grid[r][c].field = ...] on a grid without sharing. *)
Lemma setCell_spec base grid h r c f cell :
  freshGrid base grid h ->
  cellAt grid h r c = Some cell ->
  exists h', setCell grid h r c f = Ok h' /\
    length h' = length h /\
    freshGrid base grid h' /\
    cellAt grid h' r c = Some (f cell) /\
    (forall r' c', (r', c') <> (r, c) ->
                   cellAt grid h' r' c' = cellAt grid h r' c') /\
    (forall l, (l < base)%nat -> h' !! l = h !! l).
Proof.
  intros Hf (l & Hl & Hc)%cellAt_Some.
  exists (<[l := f cell]> h).
  assert (setCell grid h r c f = Ok (<[l := f cell]> h)) as Hset
    by (apply setCell_Ok; eauto).
  destruct (setCell_frame base _ _ _ _ _ _ (freshGrid_base _ _ _ Hf) Hset)
    as [Hlen Hfr].
  split; [done|]. split; [done|].
  split; [by apply (freshGrid_length _ _ h)|].
  split; [|split; [|done]].
  - apply cellAt_Some. exists l. split; [done|].
    apply list_lookup_insert_eq. by eapply lookup_lt_Some.
  - intros r' c' Hne. apply option_eq. intros x. rewrite !cellAt_Some.
    destruct Hf as [Hnd _].
    split; intros (l' & Hl' & Hx); exists l'; (split; [done|]).
    + rewrite list_lookup_insert_ne in Hx; [done|].
      intros ->. destruct (refAt_inj _ _ _ _ _ _ Hnd Hl Hl'). congruence.
    + rewrite list_lookup_insert_ne; [done|].
      intros ->. destruct (refAt_inj _ _ _ _ _ _ Hnd Hl Hl'). congruence.
Qed.

Lemma setCell_cellAt grid h r c f h' :
  setCell grid h r c f = Ok h' -> is_Some (cellAt grid h r c).
Proof.
  intros (l & cell & Hl & Hc & _)%setCell_Ok.
  exists cell. apply cellAt_Some. eauto.
Qed.

(** ** Square grids *)

Lemma wfGrid_length n grid h h' :
  length h' = length h -> wfGrid n grid h -> wfGrid n grid h'.
Proof.
  intros E (? & ? & Hv). repeat split; try done.
  unfold validRefs. by rewrite E.
Qed.

Lemma wfGrid_cellAt n grid h r c :
  wfGrid n grid h ->
  is_Some (cellAt grid h r c) <->
  0 <= r < Z.of_nat n /\ 0 <= c < Z.of_nat n.
Proof.
  intros (Hn & Hrows & Hv). split.
  - intros [cell (l & (Hr & Hc & cells & E1 & E2)%refAt_Some & _)%cellAt_Some].
    pose proof (lookup_lt_Some _ _ _ E1).
    pose proof (lookup_lt_Some _ _ _ E2).
    rewrite Forall_lookup in Hrows. specialize (Hrows _ _ E1). lia.
  - intros [Hr Hc].
    destruct (lookup_lt_is_Some_2 grid (Z.to_nat r)) as [cells E1]; [lia|].
    rewrite Forall_lookup in Hrows. pose proof (Hrows _ _ E1) as Hlen.
    destruct (lookup_lt_is_Some_2 cells (Z.to_nat c)) as [l E2]; [lia|].
    unfold validRefs in Hv. rewrite Forall_lookup in Hv.
    pose proof (Hv _ _ E1) as Hvr. rewrite Forall_lookup in Hvr.
    destruct (lookup_lt_is_Some_2 h l) as [cell E3]; [by eapply Hvr|].
    exists cell. apply cellAt_Some. exists l. split; [|done].
    apply refAt_Some. repeat split; try lia. eauto.
Qed.

Lemma wfGrid_clone n grid h g' h' :
  wfGrid n grid h -> cloneGrid grid h = Ok (g', h') -> wfGrid n g' h'.
Proof.
  intros (Hn & Hrows & Hv) H.
  destruct (cloneGrid_spec _ _ _ _ Hv H) as ((_ & Hfr) & Hs & _ & _).
  split; [by rewrite <- (Forall2_length _ _ _ Hs)|]. split.
  - apply Forall_lookup. intros i cells' E.
    destruct (Forall2_lookup_r _ _ _ _ _ Hs E) as (cells & E' & Hl).
    rewrite Forall_lookup in Hrows. rewrite <- Hl. eauto.
  - apply Forall_lookup. intros i cells' E.
    apply Forall_forall. intros l Hl. rewrite Forall_forall in Hfr.
    apply Hfr. apply list_elem_of_join. exists cells'. split; [done|].
    by eapply list_elem_of_lookup_2.
Qed.
End Assign.

(** ** revealCell on a cell that is not hidden, and on a mine *)

Section RevealSimple.
Implicit Types (grid : GridRef) (h : Store) (r c : Z) (l : loc).

Lemma copy_snapshot grid h g' h' :
  Forall2 (Forall2 (copyOf h h')) grid g' ->
  snapshot g' h' = snapshot grid h.
Proof.
  unfold snapshot. induction 1 as [|cells cells' grid g' Hrow _ IH]; [done|].
  rewrite !fmap_cons. f_equal; [|done].
  induction Hrow as [|l l' cells cells' (x & Hx & Hx') _ IHr]; [done|].
  rewrite !fmap_cons. f_equal; [congruence|done].
Qed.

Lemma cloneGrid_snapshot grid h g' h' :
  validRefs grid h -> cloneGrid grid h = Ok (g', h') ->
  snapshot g' h' = snapshot grid h.
Proof.
  intros Hv H. apply copy_snapshot.
  apply (cloneGrid_vals grid h []); [done|]. by rewrite app_nil_r.
Qed.

Lemma wfGrid_validRefs n grid h : wfGrid n grid h -> validRefs grid h.
Proof. by intros (_ & _ & ?). Qed.

Lemma cloneGrid_wf_total n grid h :
  wfGrid n grid h -> exists g' h', cloneGrid grid h = Ok (g', h').
Proof.
  intros Hv%wfGrid_validRefs.
  destruct (cloneGrid_total grid h [] Hv) as ([g' h'] & E).
  rewrite app_nil_r in E. eauto.
Qed.
End RevealSimple.


(** ** checkWinCondition *)

Section Win.
Implicit Types (grid : GridRef) (h : Store) (r c : Z) (l : loc).

Lemma elem_of_upto n (i : Z) : i ∈ upto n <-> 0 <= i < Z.of_nat n.
Proof.
  unfold upto. rewrite list_elem_of_fmap. setoid_rewrite elem_of_seq.
  split.
  - intros (k & -> & ?). lia.
  - intros ?. exists (Z.to_nat i). lia.
Qed.

Lemma allOf_spec {A} (l : list A) (body : A -> Res bool) (P : A -> bool) :
  (forall x, x ∈ l -> body x = Ok (P x)) ->
  allOf l body = Ok (forallb P l).
Proof.
  induction l as [|x l IH]; intros Hb; [done|]. cbn.
  rewrite (Hb x) by constructor. cbn.
  destruct (P x); [|done]. cbn. apply IH.
  intros y Hy. apply Hb. by constructor.
Qed.

Lemma checkWinCondition_formula n grid h :
  wfGrid n grid h ->
  checkWinCondition grid h = Ok (allSafeRevealed n grid h).
Proof.
  intros Hwf. unfold checkWinCondition, allSafeRevealed.
  destruct Hwf as (Hn & Hrest). rewrite Hn.
  apply allOf_spec. intros r Hr%elem_of_upto.
  apply allOf_spec. intros c Hc%elem_of_upto.
  destruct (proj2 (wfGrid_cellAt n grid h r c (conj Hn Hrest)) (conj Hr Hc))
    as [cell ->].
  cbn. unfold unrevealedSafe. by destruct (_ && _).
Qed.

Lemma allSafeRevealed_true n grid h :
  wfGrid n grid h ->
  allSafeRevealed n grid h = true <->
  forall r c cell, cellAt grid h r c = Some cell ->
                   isMine cell = false -> status cell = REVEALED.
Proof.
  intros Hwf. unfold allSafeRevealed.
  rewrite forallb_forall. setoid_rewrite forallb_forall.
  setoid_rewrite <- list_elem_of_In. setoid_rewrite elem_of_upto.
  split.
  - intros H r c cell Hcell Hm.
    destruct (proj1 (wfGrid_cellAt n grid h r c Hwf)) as [Hr Hc]; [eauto|].
    specialize (H r Hr c Hc). rewrite Hcell in H.
    unfold unrevealedSafe in H. rewrite Hm in H. cbn in H.
    apply negb_true_iff, bool_decide_eq_false in H.
    by destruct (decide (status cell = REVEALED)).
  - intros H r Hr c Hc.
    destruct (cellAt grid h r c) as [cell|] eqn:E; [|done].
    unfold unrevealedSafe. destruct (isMine cell) eqn:Hm; [done|]. cbn.
    apply negb_true_iff, bool_decide_eq_false. intros Hne.
    apply Hne. eauto.
Qed.
End Win.


(** ** Frame: writes go to the clone only *)

Section Frame.
Implicit Types (grid : GridRef) (h : Store) (r c : Z) (l : loc).

Lemma stable_refl base h : stable base h h.
Proof. by split. Qed.

Lemma stable_trans base h1 h2 h3 :
  stable base h1 h2 -> stable base h2 h3 -> stable base h1 h3.
Proof.
  intros [L1 H1] [L2 H2]. split; [congruence|].
  intros l Hl. rewrite H2, H1; done.
Qed.

Context (base : nat) (newGrid : GridRef).
Hypothesis Hbase : Forall (fun l => (base <= l)%nat) (mjoin newGrid).

Lemma setCell_stable h r c f h' :
  setCell newGrid h r c f = Ok h' -> stable base h h'.
Proof. intros H. by apply (setCell_frame base newGrid h r c f). Qed.

Lemma forEach_stable {A} (l : list A) (body : A -> Store -> Res Store) h h' :
  (forall x h1 h2, body x h1 = Ok h2 -> stable base h1 h2) ->
  forEach l body h = Ok h' -> stable base h h'.
Proof.
  intros Hbody. revert h. induction l as [|x l IH]; intros h H; cbn in H.
  - res_inv. apply stable_refl.
  - res_inv. eapply stable_trans; eauto.
Qed.

Lemma placeLoop_stable fuel draws i mineCount safeRow safeCol placed h h' :
  placeLoop fuel draws i newGrid mineCount safeRow safeCol placed h = Ok h' ->
  stable base h h'.
Proof.
  revert i placed h.
  induction fuel as [|fuel IH]; intros i placed h H; cbn in H.
  - destruct (placed <? mineCount); res_inv. apply stable_refl.
  - destruct (placed <? mineCount); [|res_inv; apply stable_refl].
    res_inv. destruct (_ && _).
    + res_inv. eapply stable_trans; [by eapply setCell_stable|by eapply IH].
    + by eapply IH.
Qed.

Lemma calcNumbers_stable size h h' :
  calcNumbers newGrid size h = Ok h' -> stable base h h'.
Proof.
  apply forEach_stable. intros r h1 h2.
  apply forEach_stable. intros c h3 h4 H.
  res_inv. destruct (negb _); res_inv; [|apply stable_refl].
  by eapply setCell_stable.
Qed.

Lemma floodFill_stable fuel stack h h' :
  floodFill fuel newGrid stack h = Ok h' -> stable base h h'.
Proof.
  revert stack h.
  induction fuel as [|fuel IH]; intros [|[r c] stack] h H; cbn in H;
    res_inv; try apply stable_refl.
  destruct (_ || _); [by eapply IH|].
  res_inv. case_bool_decide; [by eapply IH|].
  res_inv. eapply stable_trans; [by eapply setCell_stable|].
  destruct (_ =? _); by eapply IH.
Qed.
End Frame.

Section Purity.
Implicit Types (grid : GridRef) (h : Store) (r c : Z) (l : loc).

Lemma cloneGrid_allocated grid h g' h' :
  cloneGrid grid h = Ok (g', h') ->
  allocatedSince h g' h' /\ unchanged h h' /\
  Forall (fun l => (length h <= l)%nat) (mjoin g').
Proof.
  intros (vals & -> & Hj & _)%cloneGrid_shape.
  assert (Forall (fun l => (length h <= l < length (h ++ vals))%nat) (mjoin g'))
    as HF.
  { rewrite Hj. apply Forall_forall. intros l Hl%elem_of_seq.
    rewrite length_app. lia. }
  split; [|split].
  - unfold allocatedSince. apply Forall_forall. intros cells Hc.
    apply Forall_forall. intros l Hl. rewrite Forall_forall in HF.
    apply HF. apply list_elem_of_join. eauto.
  - intros l cell Hl. by apply lookup_app_l_Some.
  - eapply Forall_impl; [apply HF|]. cbn. lia.
Qed.

Lemma stable_pure h g' h0 h' :
  allocatedSince h g' h0 -> unchanged h h0 -> stable (length h) h0 h' ->
  allocatedSince h g' h' /\ unchanged h h'.
Proof.
  intros Ha Hu [Hlen Hst]. split.
  - unfold allocatedSince in *. by rewrite Hlen.
  - intros l cell Hl. rewrite Hst by (by eapply lookup_lt_Some). by apply Hu.
Qed.

Lemma unchanged_snapshot grid h h' :
  validRefs grid h -> unchanged h h' -> snapshot grid h' = snapshot grid h.
Proof.
  intros Hv Hu. unfold snapshot.
  apply list_fmap_ext. intros i cells Hi.
  apply list_fmap_ext. intros j l Hj.
  unfold validRefs in Hv. rewrite Forall_lookup in Hv.
  specialize (Hv _ _ Hi). rewrite Forall_lookup in Hv.
  destruct (lookup_lt_is_Some_2 h l (Hv _ _ Hj)) as [cell Hcell].
  rewrite Hcell. by apply Hu.
Qed.

Lemma placeMines_pure fuel draws grid k sr sc h g' h' :
  placeMines fuel draws grid k sr sc h = Ok (g', h') ->
  allocatedSince h g' h' /\ unchanged h h'.
Proof.
  unfold placeMines. intros H. res_inv.
  destruct (cloneGrid_allocated _ _ _ _ Ha) as (Hal & Hun & Hb).
  eapply stable_pure; eauto.
  eapply stable_trans.
  - eapply placeLoop_stable; eauto.
  - eapply calcNumbers_stable; eauto.
Qed.

Lemma revealCell_pure grid row col h g' b h' :
  revealCell grid row col h = Ok (g', b, h') ->
  allocatedSince h g' h' /\ unchanged h h'.
Proof.
  unfold revealCell. intros H. res_inv.
  destruct (cloneGrid_allocated _ _ _ _ Ha) as (Hal & Hun & Hb).
  case_bool_decide; [by res_inv|].
  destruct (isMine _); res_inv.
  - eapply stable_pure; eauto. by eapply setCell_stable.
  - eapply stable_pure; eauto. by eapply floodFill_stable.
Qed.

Lemma toggleFlag_pure grid row col h g' h' :
  toggleFlag grid row col h = Ok (g', h') ->
  allocatedSince h g' h' /\ unchanged h h'.
Proof.
  unfold toggleFlag. intros H. res_inv.
  destruct (cloneGrid_allocated _ _ _ _ Ha) as (Hal & Hun & Hb).
  destruct (status _); res_inv; try done;
    eapply stable_pure; eauto; by eapply setCell_stable.
Qed.
End Purity.


(** ** Counting mines *)

Section Counting.
Implicit Types (grid : GridRef) (h : Store) (r c : Z) (l : loc)
  (p : Z * Z) (ps : list (Z * Z)).

Lemma countIf_cons f p ps :
  countIf f (p :: ps) = (Nat.b2n (f p) + countIf f ps)%nat.
Proof.
  unfold countIf. rewrite filter_cons.
  destruct (f p); case_decide; cbn in *; done.
Qed.

Lemma countIf_ext f f' ps :
  (forall p, p ∈ ps -> f' p = f p) -> countIf f' ps = countIf f ps.
Proof.
  induction ps as [|p ps IH]; intros H; [done|].
  rewrite !countIf_cons, H by constructor.
  rewrite IH; [done|]. intros q Hq. apply H. by constructor.
Qed.

Lemma countIf_le f ps : (countIf f ps <= length ps)%nat.
Proof. unfold countIf. apply length_filter. Qed.

(** One more position satisfies [f'] than [f]. *)
Lemma countIf_add f f' p0 ps :
  NoDup ps -> p0 ∈ ps ->
  f p0 = false -> f' p0 = true ->
  (forall p, p <> p0 -> f' p = f p) ->
  countIf f' ps = S (countIf f ps).
Proof.
  intros Hnd Hin H0 H1 Hother.
  induction ps as [|p ps IH]; [by apply elem_of_nil in Hin|].
  apply NoDup_cons in Hnd as [Hp Hnd]. rewrite !countIf_cons.
  destruct (decide (p = p0)) as [->|Hne].
  - rewrite H0, H1. cbn. f_equal. apply countIf_ext.
    intros q Hq. apply Hother. intros ->. done.
  - rewrite Hother by done. apply elem_of_cons in Hin as [->|Hin]; [done|].
    rewrite IH by done. lia.
Qed.

Lemma countIf_zero f ps :
  countIf f ps = 0%nat <-> forall p, p ∈ ps -> f p = false.
Proof.
  induction ps as [|p ps IH].
  - split; [|done]. by intros _ p ?%elem_of_nil.
  - rewrite countIf_cons. split.
    + intros H q [->|Hq]%elem_of_cons.
      * destruct (f p); [cbn in H; lia|done].
      * apply IH; [|done]. lia.
    + intros H. rewrite H by constructor. cbn. apply IH.
      intros q Hq. apply H. by constructor.
Qed.

Lemma minesAmong_nil grid h : minesAmong grid h [] = 0%nat.
Proof. done. Qed.

Lemma minesAmong_cons grid h p ps :
  minesAmong grid h (p :: ps) =
  (Nat.b2n (mineAt grid h p) + minesAmong grid h ps)%nat.
Proof. apply countIf_cons. Qed.

Lemma minesAmong_ext grid h grid' h' ps :
  (forall p, p ∈ ps -> mineAt grid' h' p = mineAt grid h p) ->
  minesAmong grid' h' ps = minesAmong grid h ps.
Proof. apply countIf_ext. Qed.

(** One more mine, at a position that had none. *)
Lemma minesAmong_add grid h h' p0 ps :
  NoDup ps -> p0 ∈ ps ->
  mineAt grid h p0 = false -> mineAt grid h' p0 = true ->
  (forall p, p <> p0 -> mineAt grid h' p = mineAt grid h p) ->
  minesAmong grid h' ps = S (minesAmong grid h ps).
Proof. apply countIf_add. Qed.

Lemma minesAmong_none grid h ps :
  (forall p, p ∈ ps -> mineAt grid h p = false) ->
  minesAmong grid h ps = 0%nat.
Proof. apply countIf_zero. Qed.

Lemma elem_of_coords n r c :
  (r, c) ∈ coords n <-> 0 <= r < Z.of_nat n /\ 0 <= c < Z.of_nat n.
Proof.
  unfold coords. rewrite list_elem_of_bind. split.
  - intros (r' & (c' & Hc & Hin)%list_elem_of_bind & Hr).
    apply list_elem_of_singleton in Hc. inversion Hc; subst.
    by rewrite <- !elem_of_upto.
  - intros [Hr Hc]. exists r. split; [|by apply elem_of_upto].
    apply list_elem_of_bind. exists c. split; [by constructor|].
    by apply elem_of_upto.
Qed.

Lemma NoDup_upto n : NoDup (upto n).
Proof.
  unfold upto. apply NoDup_fmap_2; [|apply NoDup_seq].
  intros x y. lia.
Qed.

Lemma NoDup_coords n : NoDup (coords n).
Proof.
  unfold coords. apply NoDup_bind.
  - intros r1 r2 p _ _ (c1 & Hp1 & _)%list_elem_of_bind
      (c2 & Hp2 & _)%list_elem_of_bind.
    apply list_elem_of_singleton in Hp1, Hp2. congruence.
  - intros r _. apply NoDup_bind; [|intros; apply NoDup_singleton|apply NoDup_upto].
    intros c1 c2 p _ _ Hp1%list_elem_of_singleton Hp2%list_elem_of_singleton.
    congruence.
  - apply NoDup_upto.
Qed.

Lemma mineAt_wf n grid h p :
  wfGrid n grid h -> mineAt grid h p = true -> p ∈ coords n.
Proof.
  intros Hwf Hm. destruct p as [r c]. apply elem_of_coords.
  apply (wfGrid_cellAt n grid h r c Hwf).
  unfold mineAt in Hm. cbn in Hm. destruct (cellAt grid h r c); [eauto|done].
Qed.
End Counting.

(** ** The placement loop *)

Section PlaceLoop.
Context (base n : nat) (newGrid : GridRef) (mineCount safeRow safeCol : Z).
Context (draws : nat -> Z).
Implicit Types (h : Store) (r c : Z) (p : Z * Z).

Lemma mineAt_cell h r c cell :
  cellAt newGrid h r c = Some cell -> mineAt newGrid h (r, c) = isMine cell.
Proof. unfold mineAt. cbn. by intros ->. Qed.

Lemma placeInv_step h placed r c cell h' :
  placeInv base n newGrid (safeRow, safeCol) h placed ->
  cellAt newGrid h r c = Some cell ->
  isMine cell = false ->
  (Z.abs (r - safeRow) <=? 1) && (Z.abs (c - safeCol) <=? 1) = false ->
  setCell newGrid h r c (with_isMine true) = Ok h' ->
  placeInv base n newGrid (safeRow, safeCol) h' (placed + 1).
Proof.
  intros (Hfresh & Hwf & Hcount & Hsafe) Hcell Hmine Hzone Hset.
  destruct (setCell_spec _ _ _ _ _ (with_isMine true) _ Hfresh Hcell)
    as (h1 & Hset1 & Hlen & Hfresh1 & Hat & Hother & _).
  assert (h1 = h') as -> by congruence.
  assert (forall p, p <> (r, c) -> mineAt newGrid h' p = mineAt newGrid h p)
    as Hm.
  { intros [r' c'] Hne. unfold mineAt. cbn. by rewrite Hother. }
  split; [done|]. split; [by eapply wfGrid_length|]. split.
  - rewrite (minesAmong_add newGrid h h' (r, c)).
    + lia.
    + apply NoDup_coords.
    + apply elem_of_coords. apply (wfGrid_cellAt n newGrid h r c Hwf). eauto.
    + by rewrite (mineAt_cell _ _ _ _ Hcell).
    + by rewrite (mineAt_cell _ _ _ _ Hat).
    + done.
  - intros p Hnear. rewrite Hm; [by apply Hsafe|].
    intros ->. destruct Hnear as [H1 H2]. cbn in H1, H2.
    apply andb_false_iff in Hzone as [H|H]; apply Z.leb_gt in H; lia.
Qed.

Lemma placeLoop_inv fuel i placed h h' :
  placeInv base n newGrid (safeRow, safeCol) h placed ->
  placed <= mineCount ->
  placeLoop fuel draws i newGrid mineCount safeRow safeCol placed h = Ok h' ->
  placeInv base n newGrid (safeRow, safeCol) h' mineCount.
Proof.
  revert i placed h.
  induction fuel as [|fuel IH]; intros i placed h Hinv Hle H; cbn in H.
  - destruct (placed <? mineCount) eqn:E; res_inv.
    apply Z.ltb_ge in E. by replace mineCount with placed by lia.
  - destruct (placed <? mineCount) eqn:E.
    2:{ res_inv. apply Z.ltb_ge in E. by replace mineCount with placed by lia. }
    apply Z.ltb_lt in E. res_inv.
    destruct (isMine a) eqn:Hmine; cbn in H.
    { by eapply IH. }
    destruct (_ && _) eqn:Hzone; cbn in H.
    { by eapply IH. }
    res_inv. eapply (IH _ (placed + 1)); [|lia|apply H].
    by eapply placeInv_step.
Qed.
End PlaceLoop.

(** ** Calculate numbers *)

Lemma forEach_inv {A S} (I : list A -> S -> Prop) (body : A -> S -> Res S) :
  (forall pre x s s', I pre s -> body x s = Ok s' -> I (pre ++ [x]) s') ->
  forall l pre s s',
    I pre s -> forEach l body s = Ok s' -> I (pre ++ l) s'.
Proof.
  intros Hstep l. induction l as [|x l IH]; intros pre s s' HI H; cbn in H.
  - res_inv. by rewrite app_nil_r.
  - res_inv. replace (pre ++ x :: l) with ((pre ++ [x]) ++ l)
      by (by rewrite <- app_assoc).
    eapply IH; eauto.
Qed.

Section CalcNumbers.
Context (base n : nat) (newGrid : GridRef).
Implicit Types (h : Store) (r c : Z) (p : Z * Z).

Lemma isMineAt_spec h nr nc :
  wfGrid n newGrid h ->
  isMineAt newGrid h (Z.of_nat n) nr nc = Ok (mineAt newGrid h (nr, nc)).
Proof.
  intros Hwf. unfold isMineAt, mineAt. cbn.
  pose proof (wfGrid_cellAt n newGrid h nr nc Hwf) as Hiff.
  destruct (_ && _) eqn:E.
  - destruct (proj2 Hiff) as [cell ->]; [lia|done].
  - destruct (cellAt newGrid h nr nc) as [cell|]; [|done].
    destruct (proj1 Hiff); [eauto|lia].
Qed.

Lemma countAround_spec h r c :
  wfGrid n newGrid h ->
  countAround newGrid h (Z.of_nat n) r c =
  Ok (Z.of_nat (minesAmong newGrid h ((r, c) :: around r c))).
Proof.
  intros Hwf. unfold countAround, deltas, around. cbn [forEach].
  rewrite !isMineAt_spec by done. cbn [mbind Res_bind].
  rewrite !minesAmong_cons, minesAmong_nil.
  rewrite !Z.add_0_r.
  change (r + -1) with (r - 1). change (c + -1) with (c - 1).
  f_equal.
  generalize (mineAt newGrid h (r - 1, c - 1)), (mineAt newGrid h (r - 1, c)),
    (mineAt newGrid h (r - 1, c + 1)), (mineAt newGrid h (r, c - 1)),
    (mineAt newGrid h (r, c)), (mineAt newGrid h (r, c + 1)),
    (mineAt newGrid h (r + 1, c - 1)), (mineAt newGrid h (r + 1, c)),
    (mineAt newGrid h (r + 1, c + 1)).
  intros [] [] [] [] [] [] [] [] []; reflexivity.
Qed.

Context (h0 : Store).

Lemma calcInv_mineAt D h p :
  calcInv base n newGrid h0 D h -> mineAt newGrid h p = mineAt newGrid h0 p.
Proof.
  intros (_ & _ & Hsame & _). unfold mineAt. specialize (Hsame p.1 p.2).
  destruct (cellAt newGrid h p.1 p.2) as [[]|],
    (cellAt newGrid h0 p.1 p.2) as [[]|]; cbn in *;
    try done; unfold with_neighborMines in Hsame; cbn in Hsame; congruence.
Qed.

Lemma calcInv_weaken (D D' : Z * Z -> Prop) h :
  (forall p, D' p -> D p) ->
  calcInv base n newGrid h0 D h -> calcInv base n newGrid h0 D' h.
Proof.
  intros HD (? & ? & ? & HN). split; [done|]. split; [done|].
  split; [done|]. intros r c cell HD'. apply HN. by apply HD.
Qed.

Lemma calcInv_cell (D : Z * Z -> Prop) h r c h' :
  calcInv base n newGrid h0 D h ->
  (cell ← defined (cellAt newGrid h r c);
   if negb (isMine cell) then
     count ← countAround newGrid h (Z.of_nat n) r c;
     setCell newGrid h r c (with_neighborMines count)
   else Ok h) = Ok h' ->
  calcInv base n newGrid h0 (fun p => D p \/ p = (r, c)) h'.
Proof.
  intros Hinv H. res_inv. rename a into cell.
  destruct (isMine cell) eqn:Hmine; [cbn in H|].
  - res_inv. destruct Hinv as (Hf & Hwf & Hsame & HN).
    split; [done|]. split; [done|]. split; [done|].
    intros r' c' cell' [HD|[= -> ->]] Hc' Hm'; [eauto|congruence].
  - pose proof Hinv as (Hf & Hwf & Hsame & HN).
    change (negb false) with true in H. cbv beta iota in H.
    rewrite countAround_spec in H by done. res_inv.
    destruct (setCell_spec _ _ _ _ _
      (with_neighborMines
         (Z.of_nat (minesAmong newGrid h ((r, c) :: around r c))))
      _ Hf Ha) as (h1 & Hset & Hlen & Hf1 & Hat & Hother & _).
    assert (h1 = h') as -> by congruence.
    split; [done|]. split; [by eapply wfGrid_length|]. split.
    + intros r' c'. destruct (decide ((r', c') = (r, c))) as [[= -> ->]|Hne].
      * rewrite Hat, <- Hsame, Ha. done.
      * rewrite Hother by done. apply Hsame.
    + intros r' c' cell'.
      destruct (decide ((r', c') = (r, c))) as [[= -> ->]|Hne].
      * intros _ Hc' _. rewrite Hat in Hc'. inversion Hc'; subst.
        cbn [neighborMines with_neighborMines].
        rewrite minesAmong_cons, (mineAt_cell _ _ _ _ _ Ha), Hmine. cbn.
        f_equal. apply minesAmong_ext. intros p _.
        by eapply calcInv_mineAt.
      * rewrite Hother by done. intros [HD|?]; [eauto|done].
Qed.

Lemma calcNumbers_inv h h' :
  calcInv base n newGrid h0 (fun _ => False) h ->
  calcNumbers newGrid n h = Ok h' ->
  calcInv base n newGrid h0 (fun p => p.1 ∈ upto n /\ p.2 ∈ upto n) h'.
Proof.
  intros Hinv H. unfold calcNumbers in H.
  apply (forEach_inv
    (fun rs h => calcInv base n newGrid h0
                   (fun p => p.1 ∈ rs /\ p.2 ∈ upto n) h))
    with (pre := []) in H.
  - done.
  - clear h h' Hinv H. intros rs r h h' Hinv H.
    apply (forEach_inv
      (fun cs h => calcInv base n newGrid h0
         (fun p => (p.1 ∈ rs /\ p.2 ∈ upto n) \/ (p.1 = r /\ p.2 ∈ cs)) h))
      with (pre := []) in H.
    + eapply calcInv_weaken; [|apply H]. intros [r' c'] [Hr Hc]. cbn in *.
      apply elem_of_app in Hr as [Hr|Hr%list_elem_of_singleton]; eauto.
    + clear h h' Hinv H. intros cs c h h' Hinv H.
      apply (calcInv_cell _ _ _ _ _ Hinv) in H.
      eapply calcInv_weaken; [|apply H]. intros [r' c']. cbn.
      intros [?|[-> Hc]]; [eauto|].
      apply elem_of_app in Hc as [Hc|Hc%list_elem_of_singleton]; subst; eauto.
    + eapply calcInv_weaken; [|apply Hinv]. intros [r' c']. cbn.
      intros [?|[_ []%elem_of_nil]]. done.
  - eapply calcInv_weaken; [|apply Hinv]. cbn. intros p [[]%elem_of_nil _].
Qed.
End CalcNumbers.

(** ** The flood fill *)

Section PushAround.
Implicit Types (r c : Z) (p q : Z * Z) (stack : list (Z * Z)).

Lemma pushAround_eq r c stack :
  pushAround r c stack =
  [(r + 1, c + 1); (r + 1, c); (r + 1, c - 1);
   (r, c + 1); (r, c); (r, c - 1);
   (r - 1, c + 1); (r - 1, c); (r - 1, c - 1)] ++ stack.
Proof.
  unfold pushAround, deltas. cbn. by rewrite !Z.add_0_r.
Qed.

Lemma elem_of_pushAround r c stack q :
  q ∈ pushAround r c stack <-> near (r, c) q \/ q ∈ stack.
Proof.
  rewrite pushAround_eq, elem_of_app. unfold near. cbn.
  destruct q as [qr qc]. cbn. rewrite !elem_of_cons, elem_of_nil.
  split.
  - intros [H|H]; [left|by right].
    decompose [or] H; try done;
      match goal with H : (_, _) = (_, _) |- _ => inversion H; lia end.
  - intros [[H1 H2]|H]; [left|by right].
    assert (qr = r - 1 \/ qr = r \/ qr = r + 1) as Hr by lia.
    assert (qc = c - 1 \/ qc = c \/ qc = c + 1) as Hc by lia.
    destruct Hr as [-> | [-> | ->]], Hc as [-> | [-> | ->]]; auto 12.
Qed.

Lemma length_pushAround r c stack :
  length (pushAround r c stack) = (9 + length stack)%nat.
Proof. by rewrite pushAround_eq. Qed.

Lemma near_around p q : near p q -> q = p \/ q ∈ around p.1 p.2.
Proof.
  destruct p as [r c], q as [qr qc]. unfold near, around. cbn.
  intros [H1 H2]. rewrite !elem_of_cons, elem_of_nil.
  assert (qr = r - 1 \/ qr = r \/ qr = r + 1) as Hr by lia.
  assert (qc = c - 1 \/ qc = c \/ qc = c + 1) as Hc by lia.
  destruct Hr as [-> | [-> | ->]], Hc as [-> | [-> | ->]]; auto 12.
Qed.

Lemma length_upto n : length (upto n) = n.
Proof. unfold upto. by rewrite length_fmap, length_seq. Qed.

Lemma length_coords n : length (coords n) = (n * n)%nat.
Proof.
  unfold coords.
  assert (forall (l l' : list Z),
            length (l ≫= fun r => l' ≫= fun c => [(r, c)])
            = (length l * length l')%nat) as H.
  { intros l l'. induction l as [|x l IH]; [done|].
    cbn. rewrite length_app, IH. f_equal.
    clear. induction l' as [|y l' IH]; [done|]. cbn. by rewrite IH. }
  by rewrite H, length_upto.
Qed.
End PushAround.

Section Flood.
Context (base n : nat) (newGrid : GridRef) (h0 : Store) (s : Z * Z).
Hypothesis Hs : hiddenAt newGrid h0 s.
Hypothesis Hwf0 : wfGrid n newGrid h0.
Implicit Types (h : Store) (r c : Z) (p q : Z * Z) (stack : list (Z * Z)).

Local Abbreviation Inv := (floodInv base n newGrid h0 s).
Local Abbreviation hiddenCount h := (countIf (isHiddenAt newGrid h) (coords n)).

(** A cell hidden at the start that is no longer hidden has been visited. *)
Lemma floodInv_seen h stack r c x :
  Inv h stack ->
  cellAt newGrid h r c = Some x -> status x <> HIDDEN ->
  hiddenAt newGrid h0 (r, c) -> visited newGrid h0 h (r, c).
Proof.
  intros (_ & _ & Hcells & _) Hx Hst Hh. split; [done|].
  destruct Hh as (x0 & Hx0 & Hst0). cbn in Hx0.
  destruct (Hcells _ _ _ Hx0) as [E|(_ & _ & E)]; cbn.
  - congruence.
  - exists (with_status REVEALED x0). split; done.
Qed.

(** An entry that the loop drops: out of range, or not hidden any more. *)
Lemma floodInv_skip h stack r c :
  Inv h ((r, c) :: stack) ->
  (forall x, cellAt newGrid h r c = Some x -> status x <> HIDDEN) ->
  Inv h stack.
Proof.
  intros Hinv Hskip. pose proof Hinv as (Hf & Hwf & Hcells & Hst & Hcl & Hstart).
  assert (forall q, hiddenAt newGrid h0 q ->
            visited newGrid h0 h q \/ q ∈ (r, c) :: stack ->
            visited newGrid h0 h q \/ q ∈ stack) as Hdrop.
  { intros q Hq [?|[->|?]%elem_of_cons]; auto.
    left. destruct Hq as (x0 & Hx0 & Hst0). cbn in Hx0.
    destruct (Hcells _ _ _ Hx0) as [E|(_ & _ & E)].
    - by destruct (Hskip _ E).
    - split; [by exists x0|]. by exists (with_status REVEALED x0). }
  split; [done|]. split; [done|]. split; [done|]. split; [|split].
  - intros p Hp. apply Hst. by constructor.
  - intros p q Hv Hz Hn Hq. apply Hdrop; eauto.
  - apply Hdrop; eauto.
Qed.

Lemma visited_mono h h' r c x :
  (forall r' c', (r', c') <> (r, c) ->
     cellAt newGrid h' r' c' = cellAt newGrid h r' c') ->
  cellAt newGrid h' r c = Some (with_status REVEALED x) ->
  forall q, hiddenAt newGrid h0 q ->
    visited newGrid h0 h q \/ q = (r, c) -> visited newGrid h0 h' q.
Proof.
  intros Hother Hat [qr qc] Hq0 [[_ (y & Hy & Hst)]| [= -> ->]].
  - split; [done|]. cbn in Hy.
    destruct (decide ((qr, qc) = (r, c))) as [[= -> ->]|Hne].
    + by exists (with_status REVEALED x).
    + exists y. cbn. by rewrite Hother.
  - split; [done|]. by exists (with_status REVEALED x).
Qed.

(** The entry that the loop reveals. *)
Lemma floodInv_reveal h stack r c x h' :
  Inv h ((r, c) :: stack) ->
  cellAt newGrid h r c = Some x -> status x = HIDDEN ->
  setCell newGrid h r c (with_status REVEALED) = Ok h' ->
  Inv h' (if neighborMines x =? 0 then pushAround r c stack else stack) /\
  hiddenCount h = S (hiddenCount h').
Proof.
  intros (Hf & Hwf & Hcells & Hst & Hcl & Hstart) Hx Hhid Hset.
  destruct (setCell_spec _ _ _ _ _ (with_status REVEALED) _ Hf Hx)
    as (h1 & Hset1 & Hlen & Hf1 & Hat & Hother & _).
  assert (h1 = h') as -> by congruence.
  assert (cellAt newGrid h0 r c = Some x) as Hx0.
  { destruct (proj2 (wfGrid_cellAt n newGrid h0 r c Hwf0)) as [x0 Hx0].
    - apply (wfGrid_cellAt n newGrid h r c Hwf). eauto.
    - destruct (Hcells _ _ _ Hx0) as [E|(_ & _ & E)]; [congruence|].
      rewrite Hx in E. inversion E; subst. done. }
  assert (hiddenAt newGrid h0 (r, c)) as Hh0 by (by exists x).
  assert (floods newGrid h0 s (r, c)) as Hfl by (apply Hst; [constructor|done]).
  pose proof (visited_mono h h' r c x Hother Hat) as Hmono.
  split.
  - split; [done|]. split; [by eapply wfGrid_length|]. split; [|split; [|split]].
    + intros r' c' y Hy.
      destruct (decide ((r', c') = (r, c))) as [[= -> ->]|Hne].
      * right. assert (y = x) as -> by congruence. done.
      * rewrite Hother by done. apply Hcells in Hy. done.
    + intros p Hp Hp0. destruct (neighborMines x =? 0) eqn:Hz.
      * apply elem_of_pushAround in Hp as [Hn|Hp].
        -- apply (floods_step _ _ _ (r, c)); try done.
           exists x. split; [done|]. by apply Z.eqb_eq.
        -- apply Hst; [by constructor|done].
      * apply Hst; [by constructor|done].
    + intros p q Hv Hz Hn Hq.
      assert (forall q', hiddenAt newGrid h0 q' ->
                visited newGrid h0 h q' \/ q' ∈ (r, c) :: stack ->
                visited newGrid h0 h' q' \/
                q' ∈ (if neighborMines x =? 0
                      then pushAround r c stack else stack)) as Hkeep.
      { intros q' Hq' [?|[->|?]%elem_of_cons]; [left; auto|left; auto|right].
        destruct (_ =? _); [|done]. apply elem_of_pushAround. by right. }
      destruct (decide (p = (r, c))) as [->|Hne].
      * destruct Hz as (x' & Hx' & Hz). cbn in Hx'.
        assert (x' = x) as -> by congruence.
        rewrite (proj2 (Z.eqb_eq _ _) Hz).
        right. apply elem_of_pushAround. by left.
      * apply Hkeep; [done|]. apply (Hcl p q); try done.
        destruct Hv as [Hp0 (y & Hy & Hsty)]. split; [done|].
        exists y. destruct p as [pr pc]. cbn in *.
        by rewrite <- Hother.
    + destruct Hs as (xs & Hxs & Hsts).
      destruct Hstart as [Hv|[->|Hin]%elem_of_cons].
      * left. apply Hmono; [by exists xs|by left].
      * left. apply Hmono; [by exists xs|by right].
      * right. destruct (_ =? _); [|done]. apply elem_of_pushAround. by right.
  - apply (countIf_add _ _ (r, c)).
    + apply NoDup_coords.
    + apply elem_of_coords. apply (wfGrid_cellAt n newGrid h r c Hwf). eauto.
    + unfold isHiddenAt. cbn. rewrite Hat. done.
    + unfold isHiddenAt. cbn. rewrite Hx. by apply bool_decide_eq_true.
    + intros [r' c'] Hne. unfold isHiddenAt. cbn. by rewrite Hother.
Qed.

(** The loop ends, and ends with the invariant on the empty work list. *)
Lemma floodFill_inv fuel stack h :
  Inv h stack ->
  (length stack + 9 * hiddenCount h <= fuel)%nat ->
  exists h', floodFill fuel newGrid stack h = Ok h' /\ Inv h' [].
Proof.
  revert stack h. induction fuel as [|fuel IH]; intros stack h Hinv Hfuel.
  - destruct stack; [|cbn in Hfuel; lia]. exists h. done.
  - destruct stack as [|[r c] stack]; [by exists h|].
    cbn [floodFill]. cbn in Hfuel.
    pose proof Hinv as (Hf & Hwf & _).
    pose proof (wfGrid_cellAt n newGrid h r c Hwf) as Hrange.
    destruct Hwf as (Hn & _). rewrite Hn.
    destruct (_ || _) eqn:Hout.
    { apply IH; [|lia]. eapply floodInv_skip; [done|].
      intros x Hx. destruct (proj1 Hrange); [eauto|lia]. }
    destruct (proj2 Hrange) as [x Hx]; [lia|].
    rewrite Hx. cbn [defined mbind Res_bind].
    case_bool_decide as Hst.
    { apply IH; [|lia]. eapply floodInv_skip; [done|].
      intros y Hy. congruence. }
    destruct (setCell_spec _ _ _ _ _ (with_status REVEALED) _ Hf Hx)
      as (h1 & Hset & _).
    rewrite Hset. cbn [mbind Res_bind].
    destruct (floodInv_reveal _ _ _ _ _ _ Hinv Hx Hst Hset) as [Hinv1 Hcount].
    destruct (neighborMines x =? 0).
    + apply IH; [done|]. rewrite length_pushAround. lia.
    + apply IH; [done|]. lia.
Qed.

(** With the work list empty, the visited cells are the flooded ones. *)
Lemma floodInv_final h p :
  Inv h [] -> floods newGrid h0 s p -> visited newGrid h0 h p.
Proof.
  intros (_ & _ & _ & _ & Hcl & Hstart). induction 1 as [|p q _ IH Hz Hn Hq].
  - by destruct Hstart as [?|?%elem_of_nil].
  - by destruct (Hcl p q IH Hz Hn Hq) as [?|?%elem_of_nil].
Qed.
End Flood.

Section FloodTransfer.
Implicit Types (grid : GridRef) (h : Store) (p q s : Z * Z).

Lemma floods_ext grid h grid' h' s p :
  (forall r c, cellAt grid' h' r c = cellAt grid h r c) ->
  floods grid h s p -> floods grid' h' s p.
Proof.
  intros Hsame. induction 1 as [(x & Hx & ?)|
    p q _ IH (y & Hy & ?) Hn (x & Hx & ?)].
  - apply floods_start. exists x. by rewrite Hsame.
  - apply (floods_step _ _ _ p); try done.
    + exists y. by rewrite Hsame.
    + exists x. by rewrite Hsame.
Qed.

(** No mine is next to a non-mine cell that shows 0. *)
Lemma floods_not_mine grid h s p :
  numbersValid grid h ->
  mineAt grid h s = false ->
  floods grid h s p -> mineAt grid h p = false.
Proof.
  intros Hvalid Hstart. induction 1 as [|p q _ IH (y & Hy & Hz) Hn _]; [done|].
  assert (isMine y = false) as Hm.
  { unfold mineAt in IH. by rewrite Hy in IH. }
  pose proof (Hvalid _ _ _ Hy Hm) as Hnum. rewrite Hz in Hnum.
  destruct (near_around _ _ Hn) as [->|Hin]; [done|].
  assert (minesAmong grid h (around p.1 p.2) = 0%nat) as H0 by lia.
  unfold minesAmong in H0. rewrite countIf_zero in H0. by apply H0.
Qed.

Lemma floodInv_init base n newGrid h0 s :
  freshGrid base newGrid h0 -> wfGrid n newGrid h0 ->
  floodInv base n newGrid h0 s h0 [s].
Proof.
  intros Hf Hwf. split; [done|]. split; [done|]. split; [by left|].
  split; [|split].
  - intros p ->%list_elem_of_singleton Hp. by apply floods_start.
  - intros p q [(x & Hx & Hst) (y & Hy & Hst')]. congruence.
  - right. by constructor.
Qed.
End FloodTransfer.


(** ** createEmptyGrid *)

Section Empty.
Implicit Types (grid : GridRef) (h : Store) (r c : Z).

Lemma createRow_spec r (cols : list Z) cells h :
  foldl (fun '(cells, h) c => (cells ++ [length h], h ++ [emptyCell r c]))
        (cells, h) cols
  = (cells ++ seq (length h) (length cols), h ++ (emptyCell r <$> cols)).
Proof.
  revert cells h. induction cols as [|c cols IH]; intros cells h.
  - cbn. by rewrite !app_nil_r.
  - cbn [foldl]. rewrite IH. rewrite length_app. cbn [length fmap list_fmap seq].
    rewrite <- !app_assoc. cbn [app].
    by replace (length h + 1)%nat with (S (length h)) by lia.
Qed.

(** The grid and the store that [createEmptyGrid] builds: row [r] holds the
    references [length h + r * size ..], to empty cells. *)
Lemma createRows_spec size (rows : list Z) grid h :
  foldl (fun '(grid, h) r =>
           let '(cells, h') :=
             foldl (fun '(cells, h) c =>
                      (cells ++ [length h], h ++ [emptyCell r c]))
                   ([], h) (upto size) in
           (grid ++ [cells], h'))
        (grid, h) rows
  = (grid ++ imap (fun i _ => seq (length h + i * size) size) rows,
     h ++ (rows ≫= fun r => emptyCell r <$> upto size)).
Proof.
  revert grid h. induction rows as [|r rows IH]; intros grid h.
  - cbn. by rewrite !app_nil_r.
  - cbn [foldl]. rewrite createRow_spec. cbn beta iota. rewrite IH.
    rewrite length_upto, length_app, length_fmap, length_upto.
    cbn [imap mbind list_bind]. rewrite <- !app_assoc. cbn [app].
    rewrite Nat.add_0_r. f_equal. f_equal. f_equal.
    apply imap_ext. intros i x _. cbn. f_equal. lia.
Qed.

Lemma createEmptyGrid_eq size h :
  createEmptyGrid size h
  = (imap (fun i _ => seq (length h + i * size) size) (upto size),
     h ++ (upto size ≫= fun r => emptyCell r <$> upto size)).
Proof. unfold createEmptyGrid. by rewrite createRows_spec. Qed.

Lemma length_emptyCells (rows cols : list Z) :
  length (rows ≫= fun r => emptyCell r <$> cols)
  = (length rows * length cols)%nat.
Proof.
  induction rows as [|r rows IH]; [done|].
  cbn [mbind list_bind length]. rewrite length_app, length_fmap.
  fold (rows ≫= fun r => emptyCell r <$> cols). rewrite IH. lia.
Qed.

(** For every size, [createEmptyGrid] gives a square grid of that size. *)
Lemma createEmptyGrid_wf size h :
  wfGrid size (createEmptyGrid size h).1 (createEmptyGrid size h).2.
Proof.
  rewrite createEmptyGrid_eq. cbn [fst snd]. split; [|split].
  - by rewrite length_imap, length_upto.
  - apply Forall_lookup. intros i cells Hi.
    apply list_lookup_imap_Some in Hi as (x & _ & ->). by rewrite length_seq.
  - apply Forall_lookup. intros i cells Hi.
    apply list_lookup_imap_Some in Hi as (x & Hx & ->).
    apply lookup_lt_Some in Hx. rewrite length_upto in Hx.
    apply Forall_forall. intros l Hl%elem_of_seq.
    rewrite length_app, length_emptyCells, length_upto. nia.
Qed.

End Empty.

(** ** The flooded set on a board where every cell is hidden *)

Section Region.
Implicit Types (grid : GridRef) (h : Store) (p q s : Z * Z).

Lemma zeroRegion_zero grid h s q : zeroRegion grid h s q -> zeroAt grid h q.
Proof. by destruct 1. Qed.

Lemma minesAmong_nonneg_number grid h r c cell :
  numbersValid grid h -> cellAt grid h r c = Some cell ->
  isMine cell = false -> 0 <= neighborMines cell.
Proof. intros Hv Hc Hm. rewrite (Hv _ _ _ Hc Hm). lia. Qed.

(** With every cell hidden, the fill reaches exactly the zero region of
    the start and the numbered cells that border it. *)
Lemma floods_region grid h s q :
  numbersValid grid h -> allHidden grid h ->
  mineAt grid h s = false -> zeroAt grid h s ->
  floods grid h s q <-> regionWithBorder grid h s q.
Proof.
  intros Hvalid Hhid Hsafe Hzero. split.
  - intros Hfl. pose proof (floods_not_mine _ _ _ _ Hvalid Hsafe Hfl) as Hnm.
    induction Hfl as [|p q Hp IH Hz Hn (x & Hx & Hst)].
    + left. by apply zeroRegion_start.
    + assert (zeroRegion grid h s p) as Hreg.
      { destruct IH as [?|[(y & Hy & Hpos) _]].
        - by apply (floods_not_mine grid h s p).
        - done.
        - destruct Hz as (y' & Hy' & Hz). assert (y' = y) by congruence.
          subst. lia. }
      unfold mineAt in Hnm. rewrite Hx in Hnm.
      pose proof (minesAmong_nonneg_number _ _ _ _ _ Hvalid Hx Hnm) as Hge.
      destruct (decide (neighborMines x = 0)) as [H0|Hne].
      * left. apply (zeroRegion_step _ _ _ p); [done|done|by exists x].
      * right. split; [exists x; split; [done|lia]|eauto].
  - assert (forall p, zeroRegion grid h s p -> floods grid h s p) as Hin.
    { induction 1 as [(x & Hx & _)|p p' Hp IH Hn (x & Hx & Hz)].
      - apply floods_start. exists x. eauto.
      - apply (floods_step _ _ _ p); [done| |done|exists x; eauto].
        by eapply zeroRegion_zero. }
    intros [Hreg|[(x & Hx & Hpos) (p & Hp & Hn)]]; [by apply Hin|].
    apply (floods_step _ _ _ p); [by apply Hin| |done|exists x; eauto].
    by eapply zeroRegion_zero.
Qed.
End Region.

(** ** The step budget of placeMines *)

(** A run that ends within a budget ends the same way within any larger
    one: whether [placeMines] terminates, and with what, does not depend
    on the budget. *)
Lemma placeLoop_fuel_mono fuel fuel' draws i newGrid mineCount safeRow safeCol
    placed h h' :
  placeLoop fuel draws i newGrid mineCount safeRow safeCol placed h = Ok h' ->
  (fuel <= fuel')%nat ->
  placeLoop fuel' draws i newGrid mineCount safeRow safeCol placed h = Ok h'.
Proof.
  revert fuel' i placed h.
  induction fuel as [|fuel IH]; intros fuel' i placed h H Hle.
  - cbn in H. destruct fuel'; cbn; destruct (placed <? mineCount); done.
  - destruct fuel' as [|fuel']; [lia|]. cbn [placeLoop] in *.
    destruct (placed <? mineCount); [|done].
    destruct (defined (cellAt newGrid h (draws i) (draws (S i))))
      as [cell| |]; cbn [mbind Res_bind] in *; try done.
    destruct (_ && _).
    + destruct (setCell newGrid h (draws i) (draws (S i)) (with_isMine true))
        as [h1| |]; cbn [mbind Res_bind] in *; try done.
      apply IH; [done|lia].
    + apply IH; [done|lia].
Qed.

Lemma placeMines_fuel_mono fuel fuel' draws grid mineCount safeRow safeCol h res :
  placeMines fuel draws grid mineCount safeRow safeCol h = Ok res ->
  (fuel <= fuel')%nat ->
  placeMines fuel' draws grid mineCount safeRow safeCol h = Ok res.
Proof.
  unfold placeMines. intros H Hle.
  destruct (cloneGrid grid h) as [[newGrid h0]| |]; cbn [mbind Res_bind] in *;
    try done.
  destruct (placeLoop fuel _ _ _ _ _ _ _ _) as [h1| |] eqn:E;
    cbn [mbind Res_bind] in H; try done.
  by rewrite (placeLoop_fuel_mono _ _ _ _ _ _ _ _ _ _ _ E Hle).
Qed.

(** ** calculateLandingPos *)

Section Landing.
Context {N : Type} `{JSNumber N}.

Lemma flightAfter_S k (s : Flight N) :
  flightAfter (S k) s = flightAfter k (tickUpdate s).
Proof. unfold flightAfter. by rewrite Nat.iter_succ_r. Qed.

Lemma landingLoop_spec fuel (s : Flight N) :
  exists k,
    (k <= fuel)%nat /\
    landingLoop fuel (at_x s) (at_y s) (at_z s) (vel_x s) (vel_y s) (vel_z s)
    = groundPos (flightAfter k s) /\
    (forall j, (0 < j < k)%nat -> landed (flightAfter j s) = false) /\
    ((0 < k)%nat /\ landed (flightAfter k s) = true \/
     k = fuel /\ (0 < k)%nat /\ landed (flightAfter k s) = false \/
     k = fuel /\ k = 0%nat).
Proof.
  revert s. induction fuel as [|fuel IH]; intros s.
  - exists 0%nat. split; [lia|]. split; [done|]. split; [|auto].
    intros j Hj. lia.
  - cbn [landingLoop].
    change PHYS_GRAVITY with (lit (N := N) 0.5).
    change PHYS_DRAG with (lit (N := N) 0.995).
    destruct (num_leb (num_add (at_z s) (vel_z s)) (lit 0)) eqn:Hland.
    + exists 1%nat. split; [lia|]. split; [done|]. split; [|left; split; [lia|done]].
      intros j Hj. lia.
    + destruct (IH (tickUpdate s)) as (k & Hk & Hres & Hbefore & Hend).
      exists (S k). rewrite flightAfter_S. split; [lia|]. split; [done|].
      split.
      * intros [|[|j]] Hj. 1: lia. 1: exact Hland.
        rewrite flightAfter_S. apply Hbefore. lia.
      * destruct Hend as [[? ?]|[(-> & ? & ?)|[-> ->]]].
        -- left. split; [lia|done].
        -- right. left. split; [done|]. split; [lia|done].
        -- right. left. split; [done|]. split; [lia|exact Hland].
Qed.
End Landing.


(** ** initLevel *)

Section Level.
Local Open Scope Q_scope.





End Level.


(** ** The projectile step of animate *)

Section Animate.
Context {N : Type} `{JSNumber N}.

Lemma hitsOver_inactive frames (w : N) (p : Projectile N) :
  active p = false -> hitsOver frames w (Some p) = [].
Proof.
  intros Hp. induction frames as [|frames IH]; [done|].
  cbn [hitsOver animate]. rewrite Hp. done.
Qed.

Lemma hitsOver_add k frames (w : N) (p : option (Projectile N)) :
  hitsOver (k + frames) w p =
  hitsOver k w p ++ hitsOver frames w (Nat.iter k (fun q => (animate w q).1) p).
Proof.
  revert p. induction k as [|k IH]; intros p; [done|].
  rewrite Nat.iter_succ_r. cbn [Nat.add hitsOver].
  destruct (animate w p) as [p' hits] eqn:E. cbn [fst].
  rewrite IH. by rewrite app_assoc.
Qed.
End Animate.


(** ** solveForPull, in exact arithmetic *)

Section Range.
Local Open Scope Q_scope.
Implicit Types (vH vZ h d : Q).

(** One iteration of the loop of [simulateRange]. *)
Lemma rangeLoop_S fuel vH vZ h d :
  rangeLoop (S fuel) vH vZ h d =
  if Qle_bool (h + vZ) 0 then d + vH
  else rangeLoop fuel (vH * 0.995) (vZ - 0.5) (h + vZ) (d + vH).
Proof. reflexivity. Qed.


Lemma rangeLoop_fly fuel vH vZ h d :
  0 < h + vZ ->
  rangeLoop (S fuel) vH vZ h d =
  rangeLoop fuel (vH * 0.995) (vZ - 0.5) (h + vZ) (d + vH).
Proof.
  intros Hf. rewrite rangeLoop_S.
  destruct (Qle_bool (h + vZ) 0) eqn:E; [|done].
  apply Qle_bool_iff in E. lra.
Qed.




End Range.

Section Bisect.
Local Open Scope Q_scope.
Implicit Types (vH vZ h d lo hi : Q).



End Bisect.

Section Solve.
Local Open Scope Q_scope.
Implicit Types (vH vZ h d lo hi p : Q).


End Solve.

Section SolveBound.
Local Open Scope Q_scope.
Implicit Types (lo hi p d : Q).


End SolveBound.


Section Gap.
Local Open Scope Q_scope.
Implicit Types (vH vZ h d : Z).




Lemma micro_lt a b : (a < b)%Z <-> micro a < micro b.
Proof. unfold micro. rewrite Zlt_Qlt. split; intros; lra. Qed.

Lemma micro_0 : micro 0 == 0.
Proof. reflexivity. Qed.









End Gap.

(** ** placeMines does not throw *)

Lemma forEach_total {A S} (I : S -> Prop) (l : list A) (body : A -> S -> Res S) :
  (forall x s, x ∈ l -> I s -> exists s', body x s = Ok s' /\ I s') ->
  forall s, I s -> exists s', forEach l body s = Ok s' /\ I s'.
Proof.
  induction l as [|x l IH]; intros Hbody s Hs; [by exists s|].
  destruct (Hbody x s) as (s1 & E & Hs1); [by constructor|done|].
  cbn [forEach]. rewrite E. cbn [mbind Res_bind].
  apply IH; [|done]. intros y s2 Hy. apply Hbody. by constructor.
Qed.

Section NoThrow.
Context (base n : nat) (newGrid : GridRef).
Implicit Types (h : Store).

Lemma calcNumbers_total h :
  freshGrid base newGrid h -> wfGrid n newGrid h ->
  exists h', calcNumbers newGrid n h = Ok h'.
Proof.
  intros Hf Hwf. unfold calcNumbers.
  destruct (forEach_total
    (fun h => freshGrid base newGrid h /\ wfGrid n newGrid h) (upto n)
    (fun r h =>
       forEach (upto n) (fun c h =>
         cell ← defined (cellAt newGrid h r c);
         if negb (isMine cell) then
           count ← countAround newGrid h (Z.of_nat n) r c;
           setCell newGrid h r c (with_neighborMines count)
         else Ok h) h)) with (s := h) as (h' & E & _); [|done|by exists h'].
  intros r h1 Hr%elem_of_upto Hinv1.
  apply forEach_total; [|done].
  intros c h2 Hc%elem_of_upto [Hf2 Hwf2].
  destruct (proj2 (wfGrid_cellAt n newGrid h2 r c Hwf2) (conj Hr Hc))
    as [cell Hcell].
  rewrite Hcell. cbn [defined mbind Res_bind].
  destruct (isMine cell); cbn [negb]; [by exists h2|].
  rewrite countAround_spec by done. cbn [mbind Res_bind].
  destruct (setCell_spec _ _ _ _ _
    (with_neighborMines
       (Z.of_nat (minesAmong newGrid h2 ((r, c) :: around r c))))
    _ Hf2 Hcell) as (h3 & -> & Hlen & Hf3 & _).
  exists h3. split; [done|]. split; [done|]. by eapply wfGrid_length.
Qed.

Lemma placeLoop_no_throw fuel draws i mineCount safeRow safeCol placed h :
  (forall j, 0 <= draws j < Z.of_nat n) ->
  freshGrid base newGrid h -> wfGrid n newGrid h ->
  (exists h', placeLoop fuel draws i newGrid mineCount safeRow safeCol placed h
              = Ok h' /\ freshGrid base newGrid h' /\ wfGrid n newGrid h') \/
  placeLoop fuel draws i newGrid mineCount safeRow safeCol placed h = OutOfFuel.
Proof.
  intros Hdraws. revert i placed h.
  induction fuel as [|fuel IH]; intros i placed h Hf Hwf; cbn [placeLoop].
  - destruct (placed <? mineCount); [by right|left; by exists h].
  - destruct (placed <? mineCount); [|left; by exists h].
    destruct (proj2 (wfGrid_cellAt n newGrid h (draws i) (draws (S i)) Hwf)
                (conj (Hdraws _) (Hdraws _))) as [cell Hcell].
    rewrite Hcell. cbn [defined mbind Res_bind].
    destruct (_ && _); [|by apply IH].
    destruct (setCell_spec _ _ _ _ _ (with_isMine true) _ Hf Hcell)
      as (h1 & -> & Hlen & Hf1 & _).
    cbn [mbind Res_bind]. apply IH; [done|]. by eapply wfGrid_length.
Qed.
End NoThrow.

(** On a square grid and with draws inside the grid, [placeMines] returns
    or its loop is still running when the budget ends; it never throws. *)
Lemma placeMines_no_throw n fuel draws grid mineCount safeRow safeCol h :
  wfGrid n grid h ->
  (forall j, 0 <= draws j < Z.of_nat n) ->
  (exists res, placeMines fuel draws grid mineCount safeRow safeCol h = Ok res)
  \/ placeMines fuel draws grid mineCount safeRow safeCol h = OutOfFuel.
Proof.
  intros Hwf Hdraws. unfold placeMines.
  destruct (cloneGrid_wf_total _ _ _ Hwf) as (newGrid & h0 & Hclone).
  rewrite Hclone. cbn [mbind Res_bind].
  pose proof (wfGrid_validRefs _ _ _ Hwf) as Hv.
  destruct (cloneGrid_spec _ _ _ _ Hv Hclone) as (Hfresh & _ & _ & _).
  pose proof (wfGrid_clone _ _ _ _ _ Hwf Hclone) as Hwf0.
  destruct (placeLoop_no_throw (length h) n newGrid fuel draws 0 mineCount
              safeRow safeCol 0 h0 Hdraws Hfresh Hwf0)
    as [(h1 & -> & Hf1 & Hwf1)| ->]; [|by right].
  cbn [mbind Res_bind]. destruct Hwf as [-> _].
  destruct (calcNumbers_total _ _ _ _ Hf1 Hwf1) as (h2 & ->).
  left. by eexists.
Qed.

(** ** Checks that run: soundness *)

Section Checks.
Implicit Types (grid : GridRef) (h : Store) (r c : Z).

Lemma allCells_sound P n grid h :
  wfGrid n grid h -> allCells P n grid h = true ->
  forall r c cell, cellAt grid h r c = Some cell -> P r c cell = true.
Proof.
  intros Hwf Hall r c cell Hcell. unfold allCells in Hall.
  rewrite forallb_forall in Hall.
  specialize (Hall (r, c)). cbn in Hall. rewrite Hcell in Hall.
  apply Hall, list_elem_of_In, elem_of_coords.
  apply (wfGrid_cellAt n grid h r c Hwf). eauto.
Qed.

Lemma mineFree_sound n grid h :
  wfGrid n grid h -> mineFree n grid h = true ->
  forall r c cell, cellAt grid h r c = Some cell -> isMine cell = false.
Proof.
  intros Hwf Hall r c cell Hcell.
  pose proof (allCells_sound _ _ _ _ Hwf Hall r c cell Hcell) as H.
  by apply negb_true_iff in H.
Qed.

Lemma numbersValidb_sound n grid h :
  wfGrid n grid h -> numbersValidb n grid h = true -> numbersValid grid h.
Proof.
  intros Hwf Hall r c cell Hcell Hmine.
  pose proof (allCells_sound _ _ _ _ Hwf Hall r c cell Hcell) as H.
  cbn in H. rewrite Hmine in H. by apply Z.eqb_eq in H.
Qed.

Lemma wfGrid_check n grid h : bool_decide (wfGrid n grid h) = true -> wfGrid n grid h.
Proof. apply bool_decide_eq_true_1. Qed.

Lemma validRefs_check grid h : bool_decide (validRefs grid h) = true -> validRefs grid h.
Proof. apply bool_decide_eq_true_1. Qed.
End Checks.


(** ** The cells of a new grid *)

Section EmptyCells.
Implicit Types (h : Store).

Lemma lookup_emptyCells (rows cols : list Z) i j r c :
  rows !! i = Some r -> cols !! j = Some c ->
  (rows ≫= fun r => emptyCell r <$> cols) !! (i * length cols + j)%nat
  = Some (emptyCell r c).
Proof.
  revert i. induction rows as [|r0 rows IH]; intros i Hi Hj; [done|].
  cbn [mbind list_bind]. fold (rows ≫= fun r => emptyCell r <$> cols).
  destruct i as [|i]; cbn in Hi.
  - inversion Hi; subst r0. cbn [Nat.mul Nat.add].
    rewrite lookup_app_l by (rewrite length_fmap; by eapply lookup_lt_Some).
    by rewrite list_lookup_fmap, Hj.
  - rewrite lookup_app_r by (rewrite length_fmap; lia).
    rewrite length_fmap.
    replace (S i * length cols + j - length cols)%nat
      with (i * length cols + j)%nat by lia.
    by apply IH.
Qed.

Lemma lookup_upto n (i : nat) :
  (i < n)%nat -> upto n !! i = Some (Z.of_nat i).
Proof.
  intros Hi. unfold upto. rewrite list_lookup_fmap, lookup_seq_lt by done.
  done.
Qed.

Lemma createEmptyGrid_refAt size h r c :
  0 <= r < Z.of_nat size -> 0 <= c < Z.of_nat size ->
  refAt (createEmptyGrid size h).1 r c
  = Some (length h + Z.to_nat r * size + Z.to_nat c)%nat.
Proof.
  intros Hr Hc. rewrite createEmptyGrid_eq. cbn [fst].
  apply refAt_Some. split; [lia|]. split; [lia|].
  exists (seq (length h + Z.to_nat r * size) size). split.
  - rewrite list_lookup_imap, lookup_upto by lia. done.
  - rewrite lookup_seq_lt by lia. done.
Qed.

Lemma createEmptyGrid_cellAt size h r c :
  0 <= r < Z.of_nat size -> 0 <= c < Z.of_nat size ->
  cellAt (createEmptyGrid size h).1 (createEmptyGrid size h).2 r c
  = Some (emptyCell r c).
Proof.
  intros Hr Hc. apply cellAt_Some. eexists. split.
  - by apply createEmptyGrid_refAt.
  - rewrite createEmptyGrid_eq. cbn [snd].
    rewrite lookup_app_r by lia.
    replace (length h + Z.to_nat r * size + Z.to_nat c - length h)%nat
      with (Z.to_nat r * length (upto size) + Z.to_nat c)%nat
      by (rewrite length_upto; lia).
    rewrite (lookup_emptyCells _ _ _ _ r c); [done| |];
      rewrite lookup_upto by lia; f_equal; lia.
Qed.

Lemma join_rows_seq {A} (size : nat) (l : list A) b :
  mjoin (imap (fun i _ => seq (b + i * size) size) l)
  = seq b (length l * size).
Proof.
  revert b. induction l as [|x l IH]; intros b; [done|].
  cbn [imap mjoin list_join length]. fold (@mjoin list _ nat).
  rewrite (imap_ext _ (fun i _ => seq ((b + size) + i * size) size))
    by (intros; cbn; f_equal; lia).
  rewrite IH. cbn [Nat.mul]. rewrite seq_app. do 2 f_equal. lia.
Qed.

Lemma createEmptyGrid_fresh size h :
  freshGrid (length h) (createEmptyGrid size h).1 (createEmptyGrid size h).2.
Proof.
  rewrite createEmptyGrid_eq. cbn [fst snd]. unfold freshGrid.
  rewrite join_rows_seq, length_upto. split; [apply NoDup_seq|].
  apply Forall_forall. intros l Hl%elem_of_seq.
  rewrite length_app, length_emptyCells, length_upto. lia.
Qed.
End EmptyCells.

(** ** What the grid functions return *)

Section Results.
Implicit Types (grid : GridRef) (h : Store) (r c : Z).

Lemma with_status_same cell : with_status (status cell) cell = cell.
Proof. by destruct cell. Qed.

Lemma toggled_toggled s : toggled (toggled s) = s.
Proof. by destruct s. Qed.

Lemma sameShape_wfGrid n grid g' h' :
  length grid = n -> Forall (fun cells => length cells = n) grid ->
  sameShape grid g' -> validRefs g' h' -> wfGrid n g' h'.
Proof.
  intros Hn Hrows Hsh Hv. split; [|split; [|done]].
  - by rewrite <- (Forall2_length _ _ _ Hsh).
  - clear Hn Hv. induction Hsh as [|a b g1 g2 Hab Hsh IH]; [done|].
    inversion Hrows; subst. constructor; [congruence|auto].
Qed.

Lemma sameShape_trans (g1 g2 g3 : GridRef) :
  sameShape g1 g2 -> sameShape g2 g3 -> sameShape g1 g3.
Proof.
  unfold sameShape. intros H12. revert g3.
  induction H12; intros g3 H23; inversion H23; subst; constructor;
    [congruence|auto].
Qed.

(** [toggleFlag] on a cell of the grid. *)
Lemma toggleFlag_result n grid h row col cell :
  wfGrid n grid h ->
  cellAt grid h row col = Some cell ->
  exists g' h',
    toggleFlag grid row col h = Ok (g', h') /\
    sameShape grid g' /\ wfGrid n g' h' /\
    cellAt g' h' row col = Some (with_status (toggled (status cell)) cell) /\
    forall r c, (r, c) <> (row, col) -> cellAt g' h' r c = cellAt grid h r c.
Proof.
  intros Hwf Hcell.
  destruct (cloneGrid_wf_total _ _ _ Hwf) as (g' & h0 & Hclone).
  pose proof (wfGrid_validRefs _ _ _ Hwf) as Hv.
  destruct (cloneGrid_spec _ _ _ _ Hv Hclone) as (Hfresh & Hshape & _ & Hsame).
  pose proof (wfGrid_clone _ _ _ _ _ Hwf Hclone) as Hwf0.
  rewrite <- Hsame in Hcell.
  unfold toggleFlag. rewrite Hclone. cbn [mbind Res_bind].
  rewrite Hcell. cbn [defined mbind Res_bind].
  assert (forall s, exists h1,
            setCell g' h0 row col (with_status s) = Ok h1 /\
            wfGrid n g' h1 /\
            cellAt g' h1 row col = Some (with_status s cell) /\
            forall r c, (r, c) <> (row, col) ->
                        cellAt g' h1 r c = cellAt grid h r c) as Hset.
  { intros s.
    destruct (setCell_spec _ _ _ _ _ (with_status s) _ Hfresh Hcell)
      as (h1 & E & Hlen & _ & Hat & Hother & _).
    exists h1. split; [done|]. split; [by eapply wfGrid_length|].
    split; [done|]. intros r c Hne. rewrite Hother by done. apply Hsame. }
  destruct (status cell) eqn:Est; cbn [toggled].
  - destruct (Hset FLAGGED) as (h1 & -> & ?). by exists g', h1.
  - exists g', h0. rewrite <- Est, with_status_same.
    split; [done|]. split; [done|]. split; [done|]. split; [done|].
    intros; apply Hsame.
  - destruct (Hset HIDDEN) as (h1 & -> & ?). by exists g', h1.
  - exists g', h0. rewrite <- Est, with_status_same.
    split; [done|]. split; [done|]. split; [done|]. split; [done|].
    intros; apply Hsame.
Qed.

(** The fill reaches Hidden cells only, and only from a Hidden start. *)
Lemma floods_hidden grid h s q : floods grid h s q -> hiddenAt grid h q.
Proof. by intros []. Qed.

Lemma floods_from_hidden grid h s q : floods grid h s q -> hiddenAt grid h s.
Proof. induction 1; done. Qed.

(** From a cell with a number the fill goes nowhere. *)
Lemma floods_numbered grid h s q :
  ~ zeroAt grid h s -> floods grid h s q -> q = s.
Proof. intros Hs. induction 1 as [|p q _ IH Hz]; [done|]. by subst p. Qed.

(** [revealCell] on a cell of the grid: what it returns, whatever the
    status and the content of the cell. *)
Lemma revealCell_result n grid h row col cell :
  wfGrid n grid h ->
  cellAt grid h row col = Some cell ->
  exists g' h',
    revealCell grid row col h = Ok (g', explodes cell, h') /\
    sameShape grid g' /\ wfGrid n g' h' /\
    (forall r c x,
       cellAt grid h r c = Some x ->
       cellAt g' h' r c = Some x \/
       (status x = HIDDEN /\
        cellAt g' h' r c
        = Some (with_status (if explodes cell then EXPLODED else REVEALED) x) /\
        (explodes cell = true -> (r, c) = (row, col)) /\
        (explodes cell = false -> floods grid h (row, col) (r, c)))) /\
    (status cell = HIDDEN ->
     cellAt g' h' row col
     = Some (with_status (if explodes cell then EXPLODED else REVEALED) cell)) /\
    (status cell <> HIDDEN ->
     forall r c, cellAt g' h' r c = cellAt grid h r c) /\
    (explodes cell = false ->
     forall r c x, floods grid h (row, col) (r, c) ->
                   cellAt grid h r c = Some x ->
                   cellAt g' h' r c = Some (with_status REVEALED x)).
Proof.
  intros Hwf Hcell.
  destruct (cloneGrid_wf_total _ _ _ Hwf) as (g' & h0 & Hclone).
  pose proof (wfGrid_validRefs _ _ _ Hwf) as Hv.
  destruct (cloneGrid_spec _ _ _ _ Hv Hclone) as (Hfresh & Hshape & _ & Hsame).
  pose proof (wfGrid_clone _ _ _ _ _ Hwf Hclone) as Hwf0.
  pose proof Hcell as Hcell0. rewrite <- Hsame in Hcell0.
  unfold revealCell, explodes. rewrite Hclone. cbn [mbind Res_bind].
  rewrite Hcell0. cbn [defined mbind Res_bind].
  destruct (decide (status cell = HIDDEN)) as [Hst|Hst].
  2:{ rewrite bool_decide_eq_true_2 by done.
      rewrite (bool_decide_eq_false_2 (status cell = HIDDEN)) by done.
      exists g', h0. cbn [andb].
      split; [done|]. split; [done|]. split; [done|].
      split; [|split; [done|split; [done|]]].
      - intros r c x Hx. left. by rewrite Hsame.
      - intros _ r c x Hfl.
        destruct (floods_from_hidden _ _ _ _ Hfl) as (y & Hy & Hsty).
        cbn in Hy. congruence. }
  rewrite bool_decide_eq_false_2 by (by rewrite Hst; intros []).
  rewrite (bool_decide_eq_true_2 (status cell = HIDDEN)) by done. cbn [andb].
  destruct (isMine cell) eqn:Hmine.
  - destruct (setCell_spec _ _ _ _ _ (with_status EXPLODED) _ Hfresh Hcell0)
      as (h1 & -> & Hlen & _ & Hat & Hother & _).
    exists g', h1. cbn [mbind Res_bind].
    split; [done|]. split; [done|]. split; [by eapply wfGrid_length|].
    split; [|done].
    intros r c x Hx. destruct (decide ((r, c) = (row, col))) as [E|Hne].
    + inversion E; subst. right. assert (x = cell) as -> by congruence. done.
    + left. rewrite Hother by done. by rewrite Hsame.
  - assert (hiddenAt g' h0 (row, col)) as Hs by (by exists cell).
    destruct (floodFill_inv (length h) n g' h0 (row, col) Hs Hwf0
                (floodBudget g') [(row, col)] h0) as (h1 & Hfill & Hinv).
    { by apply floodInv_init. }
    { unfold floodBudget. destruct Hwf0 as [-> _].
      pose proof (countIf_le (isHiddenAt g' h0) (coords n)) as Hle.
      rewrite length_coords in Hle. cbn [length]. lia. }
    rewrite Hfill. cbn [mbind Res_bind]. exists g', h1.
    pose proof Hinv as (_ & Hwf1 & Hcells & _ & _ & Hstart).
    split; [done|]. split; [done|]. split; [done|]. split.
    + intros r c x Hx. rewrite <- Hsame in Hx.
      destruct (Hcells _ _ _ Hx) as [E|(Hh & Hfl & E)]; [by left|right].
      split; [done|]. split; [done|]. split; [done|].
      intros _. eapply floods_ext; [|apply Hfl]. intros; symmetry; apply Hsame.
    + split; [|split; [done|]].
      * intros _.
        destruct Hstart as [[_ (y & Hy & Hsty)]|Hin];
          [|by apply elem_of_nil in Hin].
        cbn in Hy. destruct (Hcells _ _ _ Hcell0) as [E|(_ & _ & E)]; [|done].
        congruence.
      * intros _ r c x Hfl Hx. rewrite <- Hsame in Hx.
        apply (floods_ext _ _ g' h0) in Hfl; [|done].
        destruct (floodInv_final _ _ _ _ _ _ _ Hinv Hfl)
          as [_ (y & Hy & Hsty)].
        destruct (Hcells _ _ _ Hx) as [E|(_ & _ & E)]; [|done].
        cbn in Hy. destruct (floods_hidden _ _ _ _ Hfl) as (x0 & Hx0 & Hst0).
        cbn in Hx0. congruence.
Qed.

(** Outside the grid there is no cell to read. *)
Lemma cellAt_outside n grid h r c :
  wfGrid n grid h ->
  ~ (0 <= r < Z.of_nat n /\ 0 <= c < Z.of_nat n) ->
  cellAt grid h r c = None.
Proof.
  intros Hwf Hout. destruct (cellAt grid h r c) eqn:E; [|done].
  destruct Hout. apply (wfGrid_cellAt n grid h r c Hwf). eauto.
Qed.
End Results.

(** ** What placeMines returns *)

Section PlaceResult.
Implicit Types (grid : GridRef) (h : Store) (r c : Z) (p q : Z * Z).

Lemma nearb_near p q : nearb p q = true <-> near p q.
Proof.
  unfold nearb, near. rewrite andb_true_iff, !Z.leb_le. done.
Qed.

Lemma around_near r c p : p ∈ around r c -> near (r, c) p.
Proof.
  unfold around. rewrite !elem_of_cons, elem_of_nil.
  intros H; repeat destruct H as [->|H]; try done; split; cbn; lia.
Qed.

Lemma countIf_mono f g (ps : list (Z * Z)) :
  (forall p, p ∈ ps -> f p = true -> g p = true) ->
  (countIf f ps <= countIf g ps)%nat.
Proof.
  induction ps as [|p ps IH]; intros Hfg; [done|].
  rewrite !countIf_cons.
  assert (countIf f ps <= countIf g ps)%nat as Hle
    by (apply IH; intros; apply Hfg; [by constructor|done]).
  destruct (f p) eqn:Ef; [|cbn; lia].
  rewrite (Hfg p) by (done || by constructor). cbn. lia.
Qed.

(** The placement loop writes [isMine = true] and nothing else. *)
Lemma placeLoop_cells base newGrid fuel draws i mineCount safeRow safeCol
    placed h h' :
  freshGrid base newGrid h ->
  placeLoop fuel draws i newGrid mineCount safeRow safeCol placed h = Ok h' ->
  forall r c x,
    cellAt newGrid h r c = Some x ->
    cellAt newGrid h' r c = Some x \/
    cellAt newGrid h' r c = Some (with_isMine true x).
Proof.
  revert i placed h.
  induction fuel as [|fuel IH]; intros i placed h Hfresh H r c x Hx;
    cbn in H.
  - destruct (placed <? mineCount); res_inv. by left.
  - destruct (placed <? mineCount); [|res_inv; by left].
    apply bind_Ok in H as (cell & Hcell%defined_Ok & H).
    destruct (negb (isMine cell) && _); [|by eapply IH].
    apply bind_Ok in H as (h1 & Hset & H).
    destruct (setCell_spec _ _ _ _ _ (with_isMine true) _ Hfresh Hcell)
      as (h1' & Hset' & _ & Hfresh1 & Hat & Hother & _).
    assert (h1' = h1) as -> by congruence.
    destruct (decide ((r, c) = (draws i, draws (S i)))) as [E|Hne].
    + inversion E; subst. assert (x = cell) as -> by congruence.
      destruct (IH _ _ _ Hfresh1 H _ _ _ Hat) as [E1|E1]; rewrite E1; auto.
    + rewrite <- Hother in Hx by done. by eapply IH.
Qed.

(** [placeMines] on a square grid: the shape, the position fields and the
    statuses stay, mines are only added, and the numbers are those of the
    mines of the result. *)
Lemma placeMines_cells n grid h fuel draws mineCount safeRow safeCol g' h' :
  wfGrid n grid h ->
  placeMines fuel draws grid mineCount safeRow safeCol h = Ok (g', h') ->
  wfGrid n g' h' /\ sameShape grid g' /\ numbersValid g' h' /\
  forall r c x,
    cellAt grid h r c = Some x ->
    exists y, cellAt g' h' r c = Some y /\
              row y = row x /\ col y = col x /\ status y = status x /\
              (isMine x = true -> isMine y = true).
Proof.
  intros Hwf H. unfold placeMines in H.
  apply bind_Ok in H as ([newGrid h0] & Hclone & H).
  apply bind_Ok in H as (h1 & Hloop & H).
  apply bind_Ok in H as (h2 & Hcalc & H).
  inversion H; subst g' h'; clear H.
  pose proof (wfGrid_validRefs _ _ _ Hwf) as Hv.
  destruct (cloneGrid_spec _ _ _ _ Hv Hclone) as (Hfresh & Hshape & _ & Hsame).
  pose proof (wfGrid_clone _ _ _ _ _ Hwf Hclone) as Hwf0.
  pose proof (placeLoop_cells _ _ _ _ _ _ _ _ _ _ _ Hfresh Hloop) as Hcells1.
  pose proof (placeLoop_stable (length h) newGrid (freshGrid_base _ _ _ Hfresh)
                _ _ _ _ _ _ _ _ _ Hloop) as [Hlen1 _].
  assert (freshGrid (length h) newGrid h1) as Hfresh1
    by (by eapply freshGrid_length).
  assert (wfGrid n newGrid h1) as Hwf1 by (by eapply wfGrid_length).
  destruct Hwf as [Hn _]. rewrite Hn in Hcalc.
  apply (calcNumbers_inv (length h) n newGrid h1) in Hcalc as Hinv2.
  2:{ split; [done|]. split; [done|]. split; [done|]. by intros r c cell []. }
  pose proof Hinv2 as (Hfresh2 & Hwf2 & Hsame2 & HN).
  assert (forall p, mineAt newGrid h2 p = mineAt newGrid h1 p) as Hm
    by (intros p; by eapply calcInv_mineAt).
  split; [done|]. split; [done|]. split.
  - intros r c cell Hcell Hmine.
    rewrite (minesAmong_ext newGrid h1) by done.
    apply HN; [|done|done]. cbn.
    rewrite !elem_of_upto. apply (wfGrid_cellAt n newGrid h2 r c Hwf2). eauto.
  - intros r c x Hx. rewrite <- Hsame in Hx.
    specialize (Hsame2 r c).
    destruct (Hcells1 _ _ _ Hx) as [E|E]; rewrite E in Hsame2;
      destruct (cellAt newGrid h2 r c) as [y|]; try discriminate Hsame2;
      exists y; (split; [done|]); inversion Hsame2 as [[E1 E2 E3 E4]];
      cbn in *; auto.
Qed.

(** On a mine-free grid it places [k] mines, none next to the safe cell. *)
Lemma placeMines_mines n grid h fuel draws (k : nat) safeRow safeCol g' h' :
  wfGrid n grid h ->
  (forall r c cell, cellAt grid h r c = Some cell -> isMine cell = false) ->
  placeMines fuel draws grid (Z.of_nat k) safeRow safeCol h = Ok (g', h') ->
  minesAmong g' h' (coords n) = k /\
  forall p, near (safeRow, safeCol) p -> mineAt g' h' p = false.
Proof.
  intros Hwf Hfree H. unfold placeMines in H.
  apply bind_Ok in H as ([newGrid h0] & Hclone & H).
  apply bind_Ok in H as (h1 & Hloop & H).
  apply bind_Ok in H as (h2 & Hcalc & H).
  inversion H; subst g' h'; clear H.
  pose proof (wfGrid_validRefs _ _ _ Hwf) as Hv.
  destruct (cloneGrid_spec _ _ _ _ Hv Hclone) as (Hfresh & _ & _ & Hsame).
  pose proof (wfGrid_clone _ _ _ _ _ Hwf Hclone) as Hwf0.
  assert (forall p, mineAt newGrid h0 p = false) as Hnone.
  { intros [r c]. unfold mineAt. cbn. rewrite Hsame.
    destruct (cellAt grid h r c) eqn:E; eauto. }
  assert (placeInv (length h) n newGrid (safeRow, safeCol) h0 0) as Hinv0.
  { repeat split; try apply Hfresh; try apply Hwf0; [|done].
    by rewrite minesAmong_none. }
  apply (placeLoop_inv _ _ _ _ _ _ _ _ _ _ _ _ Hinv0) in Hloop as Hinv1; [|lia].
  destruct Hinv1 as (Hfresh1 & Hwf1 & Hcount1 & Hsafe1).
  destruct Hwf as [Hn _]. rewrite Hn in Hcalc.
  apply (calcNumbers_inv (length h) n newGrid h1) in Hcalc as Hinv2.
  2:{ split; [done|]. split; [done|]. split; [done|]. by intros r c cell []. }
  assert (forall p, mineAt newGrid h2 p = mineAt newGrid h1 p) as Hm
    by (intros p; by eapply calcInv_mineAt).
  split.
  - rewrite (minesAmong_ext newGrid h1) by done. lia.
  - intros p Hp. rewrite Hm. by apply Hsafe1.
Qed.

(** The mines of a grid that keeps the safe zone free fit outside it. *)
Lemma mines_fit n grid h safe :
  (forall p, near safe p -> mineAt grid h p = false) ->
  (minesAmong grid h (coords n) <= roomOutside n safe)%nat.
Proof.
  intros Hsafe. apply countIf_mono. intros p _ Hp.
  destruct (nearb safe p) eqn:E; [|done].
  apply nearb_near, Hsafe in E. congruence.
Qed.
End PlaceResult.

(** ** Mapping a grid *)

Section MapGrid.
Context (f : Cell -> Cell).
Implicit Types (grid : GridRef) (h : Store) (r c : Z) (l : loc).

Lemma mapRow_clone cells h0 pre pre' cells2 h2 :
  Forall (fun l => (l < length h0)%nat) cells ->
  length pre = length pre' ->
  cloneRow cells (h0 ++ pre) = Ok (cells2, h2) ->
  exists vals, h2 = h0 ++ pre ++ vals /\
    mapRow f cells (h0 ++ pre') = Ok (cells2, h0 ++ pre' ++ (f <$> vals)).
Proof.
  revert pre pre' cells2 h2.
  induction cells as [|l cells IH]; intros pre pre' cells2 h2 Hv Hlen H.
  - cbn in H. res_inv. exists []. cbn. by rewrite !app_nil_r.
  - cbn in H. inversion Hv as [|? ? Hl Hv']; subst.
    apply bind_Ok in H as (cell & Hcell%defined_Ok & H).
    apply bind_Ok in H as ([cells3 h3] & Hrow & H). inversion H; subst.
    rewrite lookup_app_l in Hcell by done.
    rewrite <- app_assoc in Hrow.
    assert (length (pre ++ [cell]) = length (pre' ++ [f cell])) as Hlen2
      by (by rewrite !length_app, Hlen).
    destruct (IH (pre ++ [cell]) (pre' ++ [f cell]) _ _ Hv' Hlen2 Hrow)
      as (vals & -> & Hmap).
    exists (cell :: vals). split; [by rewrite <- !app_assoc|].
    cbn [mapRow]. rewrite (lookup_app_l_Some _ _ _ _ Hcell).
    cbn [defined mbind Res_bind]. rewrite <- app_assoc, Hmap.
    cbn [mbind Res_bind]. rewrite !length_app, Hlen.
    by rewrite <- !app_assoc.
Qed.

Lemma mapGrid_clone grid h0 pre pre' g' h' :
  validRefs grid h0 ->
  length pre = length pre' ->
  cloneGrid grid (h0 ++ pre) = Ok (g', h') ->
  exists vals, h' = h0 ++ pre ++ vals /\
    mapGrid f grid (h0 ++ pre') = Ok (g', h0 ++ pre' ++ (f <$> vals)).
Proof.
  revert pre pre' g' h'.
  induction grid as [|cells grid IH]; intros pre pre' g' h' Hv Hlen H.
  - cbn in H. res_inv. exists []. cbn. by rewrite !app_nil_r.
  - cbn in H. inversion Hv as [|? ? Hc Hv']; subst.
    apply bind_Ok in H as ([cells2 h1] & Hrow & H).
    apply bind_Ok in H as ([g2 h2] & Hrest & H). inversion H; subst.
    destruct (mapRow_clone _ _ _ pre' _ _ Hc Hlen Hrow) as (v1 & -> & Hmap1).
    assert (length (pre ++ v1) = length (pre' ++ (f <$> v1))) as Hlen2
      by (by rewrite !length_app, length_fmap, Hlen).
    destruct (IH (pre ++ v1) (pre' ++ (f <$> v1)) _ _ Hv' Hlen2 Hrest)
      as (v2 & -> & Hmap2).
    exists (v1 ++ v2). split; [by rewrite <- !app_assoc|].
    cbn [mapGrid]. rewrite Hmap1. cbn [mbind Res_bind].
    rewrite Hmap2. cbn [mbind Res_bind].
    by rewrite fmap_app, <- !app_assoc.
Qed.

(** What a mapped grid is: a fresh grid of the same shape that holds [f]
    of each cell, in a store that extends the old one. *)
Lemma mapGrid_spec n grid h :
  wfGrid n grid h ->
  exists g' h',
    mapGrid f grid h = Ok (g', h') /\
    wfGrid n g' h' /\ sameShape grid g' /\ unchanged h h' /\
    forall r c, cellAt g' h' r c = f <$> cellAt grid h r c.
Proof.
  intros Hwf.
  destruct (cloneGrid_wf_total _ _ _ Hwf) as (g' & h0 & Hclone).
  pose proof (wfGrid_validRefs _ _ _ Hwf) as Hv.
  destruct (cloneGrid_spec _ _ _ _ Hv Hclone) as (Hfresh & Hshape & _ & Hsame).
  pose proof (wfGrid_clone _ _ _ _ _ Hwf Hclone) as Hwf0.
  destruct (mapGrid_clone grid h [] [] g' h0 Hv eq_refl) as (vals & -> & Hmap).
  { by rewrite app_nil_r. }
  rewrite !app_nil_r in Hmap. cbn [app] in *.
  exists g', (h ++ (f <$> vals)). split; [done|].
  assert (length (h ++ (f <$> vals)) = length (h ++ vals)) as Hlen
    by (by rewrite !length_app, length_fmap).
  split; [by eapply wfGrid_length|]. split; [done|]. split.
  - intros l cell Hl. by apply lookup_app_l_Some.
  - intros r c. rewrite <- Hsame. unfold cellAt.
    destruct (refAt g' r c) as [l|] eqn:El; [|done]. cbn.
    apply refAt_elem in El.
    destruct Hfresh as [_ Hrange]. rewrite Forall_forall in Hrange.
    specialize (Hrange l El).
    rewrite !lookup_app_r by lia. by rewrite list_lookup_fmap.
Qed.
End MapGrid.

(** ** The game while it is played *)

Section StatusOnly.
Implicit Types (g : GridRef) (h : Store) (r c : Z) (p : Z * Z).

Lemma statusOnly_refl g h : statusOnly g h g h.
Proof. by intros r c. Qed.

Lemma statusOnly_trans g1 h1 g2 h2 g3 h3 :
  statusOnly g1 h1 g2 h2 -> statusOnly g2 h2 g3 h3 -> statusOnly g1 h1 g3 h3.
Proof. intros H12 H23 r c. by rewrite H23, H12. Qed.

Lemma statusOnly_cell g h g' h' r c x :
  statusOnly g h g' h' -> cellAt g h r c = Some x ->
  exists st, cellAt g' h' r c = Some (with_status st x).
Proof.
  intros Hso Hx. specialize (Hso r c). rewrite Hx in Hso.
  destruct (cellAt g' h' r c) as [y|]; [|done].
  exists (status y). destruct x, y. cbn in *. by inversion Hso.
Qed.

Lemma statusOnly_cell_back g h g' h' r c y :
  statusOnly g h g' h' -> cellAt g' h' r c = Some y ->
  exists x, cellAt g h r c = Some x /\ y = with_status (status y) x.
Proof.
  intros Hso Hy. specialize (Hso r c). rewrite Hy in Hso.
  destruct (cellAt g h r c) as [x|]; [|done].
  exists x. split; [done|]. destruct x, y. cbn in *. by inversion Hso.
Qed.

Lemma statusOnly_intro n g h g' h' :
  wfGrid n g h -> wfGrid n g' h' ->
  (forall r c x, cellAt g h r c = Some x ->
                 exists st, cellAt g' h' r c = Some (with_status st x)) ->
  statusOnly g h g' h'.
Proof.
  intros Hwf Hwf' Hcells r c.
  destruct (cellAt g h r c) as [x|] eqn:Hx.
  - destruct (Hcells _ _ _ Hx) as (st & ->). done.
  - rewrite (cellAt_outside n g' h'); [done..|].
    intros Hin. apply (wfGrid_cellAt n g h r c Hwf) in Hin as [? ?].
    congruence.
Qed.

Lemma statusOnly_mineAt g h g' h' p :
  statusOnly g h g' h' -> mineAt g' h' p = mineAt g h p.
Proof.
  intros Hso. unfold mineAt. specialize (Hso p.1 p.2).
  destruct (cellAt g h p.1 p.2) as [x|], (cellAt g' h' p.1 p.2) as [y|];
    try done.
  by inversion Hso.
Qed.

Lemma statusOnly_minesAmong g h g' h' ps :
  statusOnly g h g' h' -> minesAmong g' h' ps = minesAmong g h ps.
Proof. intros Hso. apply minesAmong_ext. intros; by apply statusOnly_mineAt. Qed.

Lemma statusOnly_numbersValid g h g' h' :
  statusOnly g h g' h' -> numbersValid g h -> numbersValid g' h'.
Proof.
  intros Hso Hvalid r c y Hy Hmine.
  destruct (statusOnly_cell_back _ _ _ _ _ _ _ Hso Hy) as (x & Hx & Ey).
  rewrite (statusOnly_minesAmong g h) by done.
  rewrite Ey in Hmine |- *. cbn in *. by apply Hvalid.
Qed.

Lemma flagsOn_ext n g h g' h' :
  wfGrid n g h ->
  (forall r c x, cellAt g h r c = Some x ->
     exists y, cellAt g' h' r c = Some y /\
               (status y = FLAGGED <-> status x = FLAGGED)) ->
  flagsOn n g' h' = flagsOn n g h.
Proof.
  intros Hwf Hcells. apply countIf_ext. intros [r c] Hp%elem_of_coords.
  apply (wfGrid_cellAt n g h r c Hwf) in Hp as [x Hx].
  destruct (Hcells _ _ _ Hx) as (y & Hy & Hiff).
  unfold isFlaggedAt. cbn. rewrite Hx, Hy.
  apply bool_decide_ext. done.
Qed.

(** One cell gets or loses its flag. *)
Lemma flagsOn_toggle n g h g' h' r c x :
  wfGrid n g h ->
  cellAt g h r c = Some x ->
  cellAt g' h' r c = Some (with_status (toggled (status x)) x) ->
  (forall r' c', (r', c') <> (r, c) -> cellAt g' h' r' c' = cellAt g h r' c') ->
  (status x = HIDDEN ->
   Z.of_nat (flagsOn n g' h') = Z.of_nat (flagsOn n g h) + 1) /\
  (status x = FLAGGED ->
   Z.of_nat (flagsOn n g' h') = Z.of_nat (flagsOn n g h) - 1).
Proof.
  intros Hwf Hx Hat Hother.
  assert ((r, c) ∈ coords n) as Hin.
  { apply elem_of_coords, (wfGrid_cellAt n g h r c Hwf). eauto. }
  assert (forall p, p <> (r, c) -> isFlaggedAt g' h' p = isFlaggedAt g h p)
    as Hrest.
  { intros [r' c'] Hne. unfold isFlaggedAt. cbn. by rewrite Hother. }
  unfold flagsOn. split; intros Hst.
  - rewrite (countIf_add (isFlaggedAt g h) (isFlaggedAt g' h') (r, c));
      try done; [lia|apply NoDup_coords|..].
    + unfold isFlaggedAt. cbn. rewrite Hx, Hst. done.
    + unfold isFlaggedAt. cbn. rewrite Hat, Hst. done.
  - rewrite (countIf_add (isFlaggedAt g' h') (isFlaggedAt g h) (r, c));
      try done; [lia|apply NoDup_coords|..].
    + unfold isFlaggedAt. cbn. rewrite Hat, Hst. done.
    + unfold isFlaggedAt. cbn. rewrite Hx, Hst. done.
    + intros p Hne. symmetry. by apply Hrest.
Qed.
End StatusOnly.

Section Game.
Context {P : Type}.
Implicit Types (s : App P) (h : Store) (r c : Z).

(** The first probe of a level is a probe on the grid with the mines. *)
Lemma processHit_first fuel draws s r c h g1 h1 :
  hasFirstMoved s = false -> gameState s = PLAYING ->
  placeMines fuel draws (grid s) (mineCount s) r c h = Ok (g1, h1) ->
  processHit fuel draws s r c PROBE h
  = processHit fuel draws (setHasFirstMoved true (setGrid g1 s)) r c PROBE h1.
Proof.
  intros Hf Hg Hp. unfold processHit.
  cbn [setShake setGrid setHasFirstMoved hasFirstMoved gameState grid
       mineCount].
  rewrite Hf, Hg, Hp. cbn [negb andb mbind Res_bind].
  rewrite bool_decide_eq_true_2 by done. cbn [mbind Res_bind].
  reflexivity.
Qed.

Lemma playing_first n fuel draws s r c h g1 h1 :
  playing n s h -> hasFirstMoved s = false ->
  placeMines fuel draws (grid s) (mineCount s) r c h = Ok (g1, h1) ->
  playing n (setHasFirstMoved true (setGrid g1 s)) h1 /\
  (forall p, near (r, c) p -> mineAt g1 h1 p = false) /\
  forall r' c' x,
    cellAt (grid s) h r' c' = Some x ->
    exists y, cellAt g1 h1 r' c' = Some y /\ status y = status x.
Proof.
  intros (Hgs & Hwf & Hflags & Hk & Hcells & Hpre) Hf Hplace.
  rewrite Hf in Hpre.
  destruct (placeMines_cells _ _ _ _ _ _ _ _ _ _ Hwf Hplace)
    as (Hwf1 & _ & Hvalid & Hkeep).
  rewrite <- (Z2Nat.id (mineCount s)) in Hplace by done.
  destruct (placeMines_mines _ _ _ _ _ _ _ _ _ _ Hwf
              (fun r c x Hx => proj1 (Hpre r c x Hx)) Hplace)
    as [Hcount Hsafe].
  split; [|split; [done|]].
  2:{ intros r' c' x Hx. destruct (Hkeep _ _ _ Hx) as (y & ? & _ & _ & ? & _).
      eauto. }
  split; [done|]. split; [done|]. cbn. split; [|split; [done|split]].
  - rewrite Hflags. f_equal. symmetry. apply flagsOn_ext; [done|].
    intros r' c' x Hx. destruct (Hkeep _ _ _ Hx) as (y & ? & _ & _ & Hst & _).
    exists y. by rewrite Hst.
  - intros r' c' y Hy.
    destruct (proj1 (wfGrid_cellAt n g1 h1 r' c' Hwf1)) as [Hr Hc]; [eauto|].
    destruct (proj2 (wfGrid_cellAt n _ h r' c' Hwf) (conj Hr Hc)) as [x Hx].
    destruct (Hkeep _ _ _ Hx) as (y' & Hy' & _ & _ & Hst & _).
    assert (y' = y) as -> by congruence. rewrite Hst.
    split; [by apply (Hcells r' c')|]. intros _. by apply (Hpre r' c').
  - split; [done|]. rewrite Hcount. by apply Z2Nat.id.
Qed.

(** A probe on a level whose mines are placed. *)
Lemma processHit_probe n fuel draws s row0 col0 cell h :
  playing n s h -> hasFirstMoved s = true ->
  cellAt (grid s) h row0 col0 = Some cell ->
  status cell <> REVEALED -> status cell <> EXPLODED ->
  exists s' effs h',
    processHit fuel draws s row0 col0 PROBE h = Ok (s', effs, h') /\
    mineCount s' = mineCount s /\ flagsUsed s' = flagsUsed s /\
    hasFirstMoved s' = true /\ activeProjectile s' = activeProjectile s /\
    wfGrid n (grid s') h' /\ statusOnly (grid s) h (grid s') h' /\
    if explodes cell then
      gameState s' = LOST /\ shake s' = 20 /\
      effs = [playSound 150 sawtooth 0.5] /\
      forall r c x,
        cellAt (grid s) h r c = Some x ->
        cellAt (grid s') h' r c
        = Some (with_status (if isMine x then REVEALED else status x) x)
    else
      playing n s' h' /\ shake s' = 5 /\
      (exists won,
         checkWinCondition (grid s') h' = Ok won /\
         effs = playSound 600 sine 0.05 ::
                (if won : bool then handleLevelComplete else [])) /\
      forall r c x,
        cellAt (grid s) h r c = Some x ->
        cellAt (grid s') h' r c = Some x \/
        (status x = HIDDEN /\ isMine x = false /\
         cellAt (grid s') h' r c = Some (with_status REVEALED x)).
Proof.
  intros (Hgs & Hwf & Hflags & Hk & Hcells & Hpost) Hmoved Hcell Hnr Hne.
  rewrite Hmoved in Hpost. destruct Hpost as [Hvalid Hcount].
  destruct (revealCell_result n (grid s) h row0 col0 cell Hwf Hcell)
    as (g1 & h1 & Hrun & _ & Hwf1 & Hch & Hat & Hskip & _).
  unfold processHit. cbn [setShake hasFirstMoved gameState grid negb andb].
  rewrite Hmoved. cbn [negb andb mbind Res_bind]. rewrite Hrun.
  cbn [mbind Res_bind setGrid setShake gameState]. rewrite Hgs.
  destruct (explodes cell) eqn:Hex.
  - unfold handleGameOver. cbn [grid setGrid].
    destruct (mapGrid_spec
                (fun cell => with_status
                   (if isMine cell then REVEALED else status cell) cell)
                n g1 h1 Hwf1) as (g2 & h2 & -> & Hwf2 & _ & _ & Hmap).
    cbn [mbind Res_bind]. eexists _, _, _. split; [reflexivity|]. cbn.
    assert (forall r c x,
              cellAt (grid s) h r c = Some x ->
              cellAt g2 h2 r c
              = Some (with_status (if isMine x then REVEALED else status x) x))
      as Hfinal.
    { intros r c x Hx. rewrite Hmap.
      destruct (Hch _ _ _ Hx) as [->|(Hh & -> & Hpos & _)]; [done|].
      cbn. specialize (Hpos eq_refl). inversion Hpos; subst.
      assert (x = cell) as -> by congruence.
      unfold explodes in Hex. apply andb_true_iff in Hex as [_ ->]. done. }
    repeat (split; [done|]). split; [|done].
    apply (statusOnly_intro n); [done..|]. intros r c x Hx.
    rewrite (Hfinal _ _ _ Hx). eauto.
  - assert (forall r c x,
              cellAt (grid s) h r c = Some x ->
              cellAt g1 h1 r c = Some x \/
              (status x = HIDDEN /\ isMine x = false /\
               cellAt g1 h1 r c = Some (with_status REVEALED x))) as Hch'.
    { intros r c x Hx.
      destruct (decide (status cell = HIDDEN)) as [Hst|Hst].
      2:{ left. by rewrite Hskip. }
      assert (mineAt (grid s) h (row0, col0) = false) as Hstart.
      { unfold mineAt. cbn. rewrite Hcell. unfold explodes in Hex.
        by rewrite bool_decide_eq_true_2 in Hex. }
      destruct (Hch _ _ _ Hx) as [?|(Hh & E & _ & Hfl)]; [by left|right].
      split; [done|]. split; [|done].
      pose proof (floods_not_mine _ _ _ _ Hvalid Hstart (Hfl eq_refl)) as Hm.
      unfold mineAt in Hm. cbn in Hm. by rewrite Hx in Hm. }
    assert (statusOnly (grid s) h g1 h1) as Hso.
    { apply (statusOnly_intro n); [done..|]. intros r c x Hx.
      destruct (Hch' _ _ _ Hx) as [E|(_ & _ & E)]; rewrite E; [|eauto].
      exists (status x). by destruct x. }
    destruct (checkWinCondition g1 h1) as [won| |] eqn:Hwin.
    2,3: rewrite (checkWinCondition_formula n) in Hwin by done; done.
    cbn [mbind Res_bind]. eexists _, _, _. split; [reflexivity|]. cbn.
    repeat (split; [done|]). split; [|split; [done|split; [eauto|done]]].
    split; [done|]. split; [done|]. cbn. split; [|split; [done|split]].
    + rewrite Hflags. f_equal. symmetry. apply flagsOn_ext; [done|].
      intros r c x Hx.
      destruct (Hch' _ _ _ Hx) as [E|(Hh & _ & E)]; rewrite E; [by eauto|].
      eexists. split; [done|]. cbn. rewrite Hh. done.
    + intros r c y Hy.
      destruct (statusOnly_cell_back _ _ _ _ _ _ _ Hso Hy) as (x & Hx & Ey).
      destruct (Hcells _ _ _ Hx) as [Hx1 Hx2].
      destruct (Hch' _ _ _ Hx) as [E|(Hh & Hm & E)]; rewrite E in Hy;
        inversion Hy; subst y; cbn; [done|].
      split; [done|]. congruence.
    + rewrite Hmoved. split; [by eapply statusOnly_numbersValid|].
      by rewrite (statusOnly_minesAmong (grid s) h).
Qed.

(** A flag shot. *)
Lemma processHit_flag n fuel draws s row0 col0 cell h :
  playing n s h ->
  cellAt (grid s) h row0 col0 = Some cell ->
  status cell <> REVEALED -> status cell <> EXPLODED ->
  exists s' h',
    processHit fuel draws s row0 col0 FLAG h = Ok (s', [], h') /\
    playing n s' h' /\ shake s' = 5 /\
    mineCount s' = mineCount s /\ hasFirstMoved s' = hasFirstMoved s /\
    activeProjectile s' = activeProjectile s /\
    statusOnly (grid s) h (grid s') h' /\
    flagsUsed s' = flagsUsed s + (if bool_decide (status cell = HIDDEN)
                                  then 1 else -1) /\
    cellAt (grid s') h' row0 col0
    = Some (with_status (toggled (status cell)) cell) /\
    forall r c, (r, c) <> (row0, col0) ->
                cellAt (grid s') h' r c = cellAt (grid s) h r c.
Proof.
  intros (Hgs & Hwf & Hflags & Hk & Hcells & Hpost) Hcell Hnr Hne.
  destruct (toggleFlag_result n (grid s) h row0 col0 cell Hwf Hcell)
    as (g1 & h1 & Hrun & _ & Hwf1 & Hat & Hother).
  unfold processHit. cbn [setShake grid flagsUsed]. rewrite Hrun.
  cbn [mbind Res_bind]. rewrite Hat. cbn [defined mbind Res_bind status
                                           with_status].
  assert (status cell = HIDDEN \/ status cell = FLAGGED) as Hst
    by (destruct (status cell); auto; done).
  destruct (flagsOn_toggle n _ _ _ _ _ _ _ Hwf Hcell Hat Hother)
    as [Hup Hdown].
  assert (statusOnly (grid s) h g1 h1) as Hso.
  { apply (statusOnly_intro n); [done..|]. intros r c x Hx.
    destruct (decide ((r, c) = (row0, col0))) as [E|Hdiff].
    - inversion E; subst. assert (x = cell) as -> by congruence. eauto.
    - rewrite Hother, Hx by done. exists (status x). by destruct x. }
  eexists _, _. split; [reflexivity|]. cbn.
  split; [|split; [done|split; [done|split; [done|split; [done|split;
    [done|split]]]]]].
  2:{ destruct Hst as [E|E]; rewrite E; done. }
  2:{ done. }
  split; [done|]. split; [done|]. cbn. split; [|split; [done|split]].
  - destruct Hst as [E|E]; rewrite E; cbn; case_bool_decide; try done.
    + rewrite (Hup E). lia.
    + rewrite (Hdown E). lia.
  - intros r c y Hy.
    destruct (decide ((r, c) = (row0, col0))) as [E|Hdiff].
    + inversion E; subst. rewrite Hat in Hy. inversion Hy; subst y. cbn.
      destruct Hst as [E1|E1]; rewrite E1; cbn; done.
    + rewrite Hother in Hy by done. by apply (Hcells r c).
  - destruct (hasFirstMoved s).
    + destruct Hpost. split; [by eapply statusOnly_numbersValid|].
      by rewrite (statusOnly_minesAmong (grid s) h).
    + intros r c y Hy.
      destruct (decide ((r, c) = (row0, col0))) as [E|Hdiff].
      * inversion E; subst. rewrite Hat in Hy. inversion Hy; subst y. cbn.
        split; [by apply (Hpost row0 col0)|].
        destruct Hst as [E1|E1]; rewrite E1; cbn; done.
      * rewrite Hother in Hy by done. by apply (Hpost r c).
Qed.
End Game.

Section GameUpdate.
Context {P : Type}.
Implicit Types (s : App P) (h : Store) (r c : Z).

Lemma playing_setActiveProjectile n s h p :
  playing n s h <-> playing n (setActiveProjectile p s) h.
Proof. done. Qed.

(** A first probe that returns has placed the mines. *)
Lemma processHit_first_inv fuel draws s r c h res :
  hasFirstMoved s = false -> gameState s = PLAYING ->
  processHit fuel draws s r c PROBE h = Ok res ->
  exists g1 h1,
    placeMines fuel draws (grid s) (mineCount s) r c h = Ok (g1, h1).
Proof.
  intros Hf Hg H. unfold processHit in H.
  cbn [setShake setGrid setHasFirstMoved hasFirstMoved gameState grid
       mineCount] in H.
  rewrite Hf, Hg in H. cbn [negb andb] in H.
  rewrite bool_decide_eq_true_2 in H by done.
  destruct (placeMines fuel draws (grid s) (mineCount s) r c h)
    as [[g1 h1]| |]; [eauto|done..].
Qed.

(** What a hit that reaches [processHit] is: a cell of the grid that is
    Hidden or Flagged. *)
Lemma handleProjectileUpdate_cases fuel draws s cellDiv type h res :
  handleProjectileUpdate fuel draws s cellDiv type h = Ok res ->
  res = (setActiveProjectile None s, [], h) \/
  exists r c cell,
    cellDiv = Some (r, c) /\
    cellAt (grid s) h r c = Some cell /\
    status cell <> REVEALED /\ status cell <> EXPLODED /\
    processHit fuel draws (setActiveProjectile None s) r c type h = Ok res.
Proof.
  unfold handleProjectileUpdate. intros H.
  destruct cellDiv as [[r c]|]; [|left; congruence].
  destruct (negb (r =? -1) && negb (c =? -1)); [|left; congruence].
  apply bind_Ok in H as (cell & Hcell%defined_Ok & H).
  destruct (bool_decide (status cell <> REVEALED)) eqn:E1; cbn [andb] in H;
    [|left; congruence].
  destruct (bool_decide (status cell <> EXPLODED)) eqn:E2;
    [|left; congruence].
  apply bool_decide_eq_true in E1, E2. right. eauto 10.
Qed.
(** A hit on a Hidden or Flagged cell of the grid reaches [processHit]. *)
Lemma handleProjectileUpdate_hit fuel draws s r c cell type h :
  cellAt (grid s) h r c = Some cell ->
  status cell <> REVEALED -> status cell <> EXPLODED ->
  handleProjectileUpdate fuel draws s (Some (r, c)) type h
  = processHit fuel draws (setActiveProjectile None s) r c type h.
Proof.
  intros Hcell Hnr Hne.
  assert (0 <= r /\ 0 <= c) as [Hr Hc].
  { apply cellAt_Some in Hcell as (l & Hl%refAt_Some & _). lia. }
  unfold handleProjectileUpdate.
  rewrite (proj2 (Z.eqb_neq r (-1))), (proj2 (Z.eqb_neq c (-1))) by lia.
  cbn [negb andb]. rewrite Hcell. cbn [defined mbind Res_bind].
  by rewrite !bool_decide_eq_true_2.
Qed.

(** A probe, before or after the first move of the level. *)
Lemma processHit_probe_any n fuel draws s r c cell h s' effs h' :
  playing n s h ->
  cellAt (grid s) h r c = Some cell ->
  status cell <> REVEALED -> status cell <> EXPLODED ->
  processHit fuel draws s r c PROBE h = Ok (s', effs, h') ->
  mineCount s' = mineCount s /\ activeProjectile s' = activeProjectile s /\
  hasFirstMoved s' = true /\
  ((hasFirstMoved s = true /\ explodes cell = true /\ gameState s' = LOST) \/
   (playing n s' h' /\
    exists won,
      checkWinCondition (grid s') h' = Ok won /\
      effs = playSound 600 sine 0.05 ::
             (if won : bool then handleLevelComplete else []))).
Proof.
  intros Hplay Hcell Hnr Hne H.
  destruct (hasFirstMoved s) eqn:Hmoved.
  - destruct (processHit_probe n fuel draws s r c cell h Hplay Hmoved
                Hcell Hnr Hne)
      as (s1 & effs1 & h1 & Hrun & Hk & _ & Hm & Hap & _ & _ & Hres).
    rewrite Hrun in H. inversion H; subst.
    split; [done|]. split; [done|]. split; [done|].
    destruct (explodes cell).
    + left. by destruct Hres as (? & _).
    + right. by destruct Hres as (? & _ & ? & _).
  - pose proof Hplay as (Hgs & _).
    destruct (processHit_first_inv _ _ _ _ _ _ _ Hmoved Hgs H)
      as (g1 & h1 & Hplace).
    rewrite (processHit_first _ _ _ _ _ _ _ _ Hmoved Hgs Hplace) in H.
    destruct (playing_first n _ _ _ _ _ _ _ _ Hplay Hmoved Hplace)
      as (Hplay1 & Hsafe & Hkeep).
    destruct (Hkeep _ _ _ Hcell) as (y & Hy & Hsty).
    destruct (processHit_probe n fuel draws
                (setHasFirstMoved true (setGrid g1 s)) r c y h1
                Hplay1 eq_refl Hy)
      as (s1 & effs1 & h2 & Hrun & Hk & _ & Hm & Hap & _ & _ & Hres);
      [congruence..|].
    rewrite Hrun in H. inversion H; subst.
    split; [done|]. split; [done|]. split; [done|].
    right. assert (explodes y = false) as Hex.
    { unfold explodes. specialize (Hsafe (r, c)). unfold mineAt in Hsafe.
      cbn in Hsafe. rewrite Hy in Hsafe. rewrite Hsafe, andb_false_r; [done|].
      split; cbn; lia. }
    rewrite Hex in Hres. by destruct Hres as (? & _ & ? & _).
Qed.

End GameUpdate.

(** ** The flight of a projectile, frame by frame *)

Section FlightFrames.
Context {N : Type} `{JSNumber N}.
Local Open Scope num_scope.


Lemma landsAt_spec k (f : Flight N) :
  landsAt k f = true <->
  (forall j, (1 <= j < k)%nat -> landed (flightAfter j f) = false) /\
  landed (flightAfter k f) = true.
Proof.
  unfold landsAt. rewrite andb_true_iff, forallb_forall.
  split; intros [Hb Hk]; (split; [|done]).
  - intros j Hj. apply negb_true_iff, Hb, in_seq. lia.
  - intros j Hj%in_seq. apply negb_true_iff, Hb. lia.
Qed.

Lemma staysInside_spec w k (f : Flight N) :
  staysInside w k f = true <->
  forall j, (1 <= j <= k)%nat -> outside w (groundPos (flightAfter j f)) = false.
Proof.
  unfold staysInside. rewrite forallb_forall. split; intros Hb j Hj.
  - apply negb_true_iff, Hb, in_seq. lia.
  - apply in_seq in Hj. apply negb_true_iff, Hb. lia.
Qed.

(** One frame of a projectile in flight, in terms of its flight. *)
Lemma animate_flying w (p : Projectile N) :
  active p = true ->
  landed (tickUpdate (flightOf p)) = false ->
  outside w (groundPos (tickUpdate (flightOf p))) = false ->
  exists p',
    animate w (Some p) = (Some p', []) /\
    active p' = true /\ type p' = type p /\
    flightOf p' = tickUpdate (flightOf p).
Proof.
  intros Hact Hland Hout. unfold animate. rewrite Hact.
  unfold landed, tickUpdate, flightOf, outside, groundPos in *.
  cbn [at_x at_y at_z vel_x vel_y vel_z vec_x vec_y] in *.
  rewrite Hland, Hout. eexists. split; [reflexivity|]. done.
Qed.

Lemma animate_landing w (p : Projectile N) :
  active p = true ->
  landed (tickUpdate (flightOf p)) = true ->
  outside w (groundPos (tickUpdate (flightOf p))) = false ->
  exists p',
    animate w (Some p)
    = (Some p', [(groundPos (tickUpdate (flightOf p)), type p)]) /\
    active p' = false /\ z p' = lit 0.
Proof.
  intros Hact Hland Hout. unfold animate. rewrite Hact.
  unfold landed, tickUpdate, flightOf, outside, groundPos in *.
  cbn [at_x at_y at_z vel_x vel_y vel_z vec_x vec_y] in *.
  rewrite Hland, Hout. eexists. split; [reflexivity|]. done.
Qed.

(** A flight that stays on the canvas until it lands at tick [k]: no hit
    in the frames before, one hit in frame [k], none after. *)
Lemma hitsOver_landing w k m (p : Projectile N) :
  active p = true ->
  (1 <= k)%nat ->
  landsAt k (flightOf p) = true ->
  staysInside w k (flightOf p) = true ->
  hitsOver (k - 1) w (Some p) = [] /\
  hitsOver (k + m) w (Some p)
  = [(groundPos (flightAfter k (flightOf p)), type p)].
Proof.
  revert p. induction k as [|k IH]; intros p Hact Hk Hland Hin; [lia|].
  apply landsAt_spec in Hland as [Hfly Hland].
  pose proof (proj1 (staysInside_spec _ _ _) Hin) as Hins.
  destruct k as [|k].
  - split; [done|].
    destruct (animate_landing w p Hact) as (p' & Hrun & Hp' & _).
    { exact Hland. }
    { apply (Hins 1%nat). lia. }
    cbn [Nat.add hitsOver]. rewrite Hrun.
    by rewrite (hitsOver_inactive _ _ _ Hp').
  - destruct (animate_flying w p Hact) as (p' & Hrun & Hp' & Hty & Hfl).
    { apply (Hfly 1%nat). lia. }
    { apply (Hins 1%nat). lia. }
    destruct (IH p' Hp') as [Hnone Hone]; [lia| | |].
    + apply landsAt_spec. rewrite Hfl. split.
      * intros j Hj. rewrite <- flightAfter_S. apply Hfly. lia.
      * by rewrite <- flightAfter_S.
    + apply staysInside_spec. rewrite Hfl. intros j Hj.
      rewrite <- flightAfter_S. apply Hins. lia.
    + replace (S (S k) - 1)%nat with (S (S k - 1)) by lia.
      change (S (S k) + m)%nat with (S (S k + m)).
      cbn [hitsOver]. rewrite Hrun. cbn [app].
      split; [done|]. rewrite Hone, Hty, Hfl.
      by rewrite <- flightAfter_S.
Qed.

(** [calculateLandingPos] gives the ground position at the first tick at
    which the flight is down, when that is one of the first 800. *)
Lemma calculateLandingPos_landsAt (startPos velocity : Vector N) (vz0 : N) k :
  (1 <= k <= 800)%nat ->
  landsAt k (launch startPos velocity vz0) = true ->
  calculateLandingPos startPos velocity vz0
  = groundPos (flightAfter k (launch startPos velocity vz0)).
Proof.
  intros Hk [Hfly Hland]%landsAt_spec.
  destruct (landingLoop_spec 800 (launch startPos velocity vz0))
    as (k' & Hk' & Hres & Hbefore & Hend).
  change (calculateLandingPos startPos velocity vz0)
    with (landingLoop 800 (at_x (launch startPos velocity vz0))
            (at_y (launch startPos velocity vz0))
            (at_z (launch startPos velocity vz0))
            (vel_x (launch startPos velocity vz0))
            (vel_y (launch startPos velocity vz0))
            (vel_z (launch startPos velocity vz0))).
  rewrite Hres. assert (k' = k) as ->; [|done].
  destruct (Nat.lt_trichotomy k' k) as [Hlt|[?|Hgt]]; [|done|].
  - destruct Hend as [[? Hl]|[(-> & ? & ?)|[-> ?]]]; [|lia..].
    rewrite Hfly in Hl by lia. done.
  - rewrite Hbefore in Hland by lia. done.
Qed.
End FlightFrames.

(** ** Every flight ends *)

Section Resolve.
Context {N : Type} `{JSNumber N}.
Local Open Scope num_scope.


End Resolve.

Section ResolveExact.
Local Open Scope Q_scope.



End ResolveExact.

(** ** The solver and the flight agree *)

Section Direction.
Local Open Scope Q_scope.



End Direction.

Section BisectOrder.
Local Open Scope Q_scope.
Implicit Types (d lo hi : Q).




End BisectOrder.

(** ** Room for the mines *)

Section Room.
Implicit Types (p q safe : Z * Z).



End Room.

Section LevelBounds.
Local Open Scope Q_scope.





End LevelBounds.

(** ** Sorting by a comparator *)

Section Sorting.
Context {A : Type} (compareFn : A -> A -> Z).
Hypothesis compare_total : forall a b, compareFn a b <= 0 \/ compareFn b a <= 0.
Hypothesis compare_trans :
  forall a b c, compareFn a b <= 0 -> compareFn b c <= 0 -> compareFn a c <= 0.

Lemma insertSorted_perm x l : insertSorted compareFn x l ≡ₚ x :: l.
Proof.
  induction l as [|y l IH]; [done|]. cbn [insertSorted].
  destruct (0 <? compareFn x y); [|done].
  rewrite IH. apply Permutation_swap.
Qed.

Lemma sort_perm l : sort compareFn l ≡ₚ l.
Proof.
  induction l as [|x l IH]; [done|]. cbn [sort foldr].
  fold (sort compareFn l). by rewrite insertSorted_perm, IH.
Qed.

Lemma inOrder_cons x l :
  inOrder compareFn (x :: l) <->
  Forall (ranksBefore compareFn x) l /\ inOrder compareFn l.
Proof.
  split.
  - intros Hord. split.
    + apply Forall_lookup. intros j b Hj. by apply (Hord 0%nat (S j) x b); [lia|..].
    + intros i j a b Hij Hi Hj. by apply (Hord (S i) (S j)); [lia|..].
  - intros [Hx Hl] i j a b Hij Hi Hj.
    destruct j as [|j]; [lia|]. cbn in Hj. destruct i as [|i]; cbn in Hi.
    + inversion Hi; subst. rewrite Forall_lookup in Hx. by eapply Hx.
    + apply (Hl i j); [lia|done..].
Qed.

Lemma insertSorted_inOrder x l :
  inOrder compareFn l -> inOrder compareFn (insertSorted compareFn x l).
Proof.
  induction l as [|y l IH]; cbn [insertSorted]; intros Hord.
  - apply inOrder_cons. split; [constructor|done].
  - apply inOrder_cons in Hord as [Hy Hl].
    destruct (0 <? compareFn x y) eqn:E.
    + apply Z.ltb_lt in E. apply inOrder_cons. split; [|by apply IH].
      rewrite insertSorted_perm. constructor; [|done].
      unfold ranksBefore. destruct (compare_total x y); lia.
    + apply Z.ltb_ge in E. apply inOrder_cons. split.
      * constructor; [done|]. eapply Forall_impl; [exact Hy|].
        intros z Hz. by eapply compare_trans.
      * by apply inOrder_cons.
Qed.

Lemma sort_inOrder l : inOrder compareFn (sort compareFn l).
Proof.
  induction l as [|x l IH]; [by intros i j a b _ ?|].
  by apply insertSorted_inOrder.
Qed.

(** The first [n] of the sorted list: in order, as many as there are up
    to [n], and no entry left out ranks strictly before one of them. *)
Lemma take_sort_spec n l :
  length (slice0 n (sort compareFn l)) = Nat.min n (length l) /\
  inOrder compareFn (slice0 n (sort compareFn l)) /\
  exists rest,
    slice0 n (sort compareFn l) ++ rest ≡ₚ l /\
    forall a b, a ∈ slice0 n (sort compareFn l) -> b ∈ rest ->
                ranksBefore compareFn a b.
Proof.
  pose proof (sort_inOrder l) as Hord.
  unfold slice0. split; [|split].
  - by rewrite length_take, (Permutation_length (sort_perm l)).
  - intros i j a b Hij Hi Hj.
    apply lookup_take_Some in Hi as [Hi _], Hj as [Hj _].
    by apply (Hord i j).
  - exists (drop n (sort compareFn l)). split.
    + by rewrite take_drop, sort_perm.
    + intros a b [i Hi]%list_elem_of_lookup_1 [j Hj]%list_elem_of_lookup_1.
      apply lookup_take_Some in Hi as [Hi Hlt].
      rewrite lookup_drop in Hj. apply (Hord i (n + j)%nat); [lia|done..].
Qed.
End Sorting.

Section Ranks.
Implicit Types (a b : LeaderboardEntry).

(** Higher level first; at equal level, fewer probes first. *)
Lemma masteryCompare_spec a b :
  masteryCompare a b <= 0 <->
  level b < level a \/ (level a = level b /\ totalProbes a <= totalProbes b).
Proof.
  unfold masteryCompare. destruct (level b =? level a) eqn:E; cbn [negb].
  - apply Z.eqb_eq in E. lia.
  - apply Z.eqb_neq in E. lia.
Qed.

(** Fewer probes first; at equal probes, higher level first. *)
Lemma efficiencyCompare_spec a b :
  efficiencyCompare a b <= 0 <->
  totalProbes a < totalProbes b \/
  (totalProbes a = totalProbes b /\ level b <= level a).
Proof.
  unfold efficiencyCompare.
  destruct (totalProbes a =? totalProbes b) eqn:E; cbn [negb].
  - apply Z.eqb_eq in E. lia.
  - apply Z.eqb_neq in E. lia.
Qed.
End Ranks.

(** ** Checks of the game states *)

Section GameChecks.
Context {P : Type}.

Lemma playingb_sound n (s : App P) h : playingb n s h = true -> playing n s h.
Proof.
  unfold playingb, playing.
  rewrite !andb_true_iff.
  intros (((((Hgs & Hwf) & Hfl) & Hk) & Hcells) & Hrest).
  apply bool_decide_eq_true in Hgs. apply wfGrid_check in Hwf.
  apply Z.eqb_eq in Hfl. apply Z.leb_le in Hk.
  split; [done|]. split; [done|]. split; [done|]. split; [done|]. split.
  - intros r c cell Hcell.
    pose proof (allCells_sound _ _ _ _ Hwf Hcells r c cell Hcell) as Hb.
    cbn beta in Hb. apply andb_true_iff in Hb as [H1 H2].
    apply bool_decide_eq_true in H1. split; [done|]. intros Hm.
    rewrite Hm in H2. cbn in H2. by apply bool_decide_eq_true in H2.
  - destruct (hasFirstMoved s).
    + apply andb_true_iff in Hrest as [Hv Hc]. apply Z.eqb_eq in Hc.
      split; [by apply (numbersValidb_sound n)|done].
    + intros r c cell Hcell.
      pose proof (allCells_sound _ _ _ _ Hwf Hrest r c cell Hcell) as Hb.
      cbn beta in Hb. apply andb_true_iff in Hb as [H1 H2].
      apply negb_true_iff in H1. by apply bool_decide_eq_true in H2.
Qed.

Lemma demoDraws_range j : 0 <= demoDraws j < 5.
Proof.
  unfold demoDraws. do 6 (destruct j as [|j]; [cbn; lia|]).
  destruct j; cbn; lia.
Qed.
End GameChecks.

Section RangeChecks.
Local Open Scope Q_scope.

End RangeChecks.

Section SolveError.
Local Open Scope Q_scope.


End SolveError.

(** ** The prediction of [draw] and the particles *)

Section DrawLemmas.
Context {N : Type} `{JSNumber N}.
Local Open Scope num_scope.

Lemma predictionLoop_spec fuel i (s : Flight N) :
  let r := predictionLoop fuel i (at_x s) (at_y s) (at_z s)
                          (vel_x s) (vel_y s) (vel_z s) in
  match r.2 with
  | Some pos =>
      exists k, (1 <= k <= fuel)%nat /\ landsAt k s = true /\
                pos = groundPos (flightAfter k s)
  | None =>
      forall k, (1 <= k <= fuel)%nat -> landed (flightAfter k s) = false
  end /\
  forall d, d ∈ r.1 ->
    exists j, dot_i d = (i + j)%nat /\ (dot_i d mod 3 = 0)%nat /\
      (S j <= fuel)%nat /\
      (forall k, (1 <= k <= S j)%nat -> landed (flightAfter k s) = false) /\
      dot_x d = at_x (flightAfter (S j) s) /\
      dot_y d = at_y (flightAfter (S j) s) - at_z (flightAfter (S j) s).
Proof.
  revert i s. induction fuel as [|fuel IH]; intros i s.
  - cbn. split; [intros k Hk; lia|]. intros d Hd. by apply elem_of_nil in Hd.
  - cbn [predictionLoop].
    change (at_z s + vel_z s <=? lit 0) with (landed (tickUpdate s)).
    destruct (landed (tickUpdate s)) eqn:Hland.
    + cbn. split; [|intros d Hd; by apply elem_of_nil in Hd].
      exists 1%nat. split; [lia|]. split; [|done].
      apply landsAt_spec. split; [intros j Hj; lia|done].
    + specialize (IH (S i) (tickUpdate s)).
      change (predictionLoop fuel (S i) (at_x s + vel_x s) (at_y s + vel_y s)
                (at_z s + vel_z s) (vel_x s * AIR_DRAG) (vel_y s * AIR_DRAG)
                (vel_z s - GRAVITY_Z))
        with (predictionLoop fuel (S i) (at_x (tickUpdate s))
                (at_y (tickUpdate s)) (at_z (tickUpdate s))
                (vel_x (tickUpdate s)) (vel_y (tickUpdate s))
                (vel_z (tickUpdate s))).
      destruct (predictionLoop fuel (S i) _ _ _ _ _ _) as [dots reticle].
      cbn [fst snd] in *. destruct IH as [IHr IHd]. split.
      * destruct reticle as [pos|].
        -- destruct IHr as (k & Hk & [Hfly Hk']%landsAt_spec & ->).
           exists (S k). split; [lia|]. rewrite flightAfter_S.
           split; [|done]. apply landsAt_spec.
           split; [|by rewrite flightAfter_S].
           intros j Hj. destruct j as [|[|j]]; [lia|exact Hland|].
           rewrite flightAfter_S. apply Hfly. lia.
        -- intros k Hk. destruct k as [|[|k]]; [lia|exact Hland|].
           rewrite flightAfter_S. apply IHr. lia.
      * intros d [Hd|Hd]%elem_of_app.
        -- destruct (i mod 3 =? 0)%nat eqn:Hi;
             [|by apply elem_of_nil in Hd].
           apply list_elem_of_singleton in Hd as ->. exists 0%nat.
           cbn [dot_i dot_x dot_y]. apply Nat.eqb_eq in Hi.
           split; [lia|]. split; [done|]. split; [lia|].
           split; [|done]. intros k Hk. replace k with 1%nat by lia.
           exact Hland.
        -- destruct (IHd d Hd) as (j & Hi & Hm & Hj & Hfly & Hx & Hy).
           exists (S j). split; [lia|]. split; [done|]. split; [lia|].
           rewrite (flightAfter_S (S j)). split; [|done].
           intros k Hk. destruct k as [|[|k]]; [lia|exact Hland|].
           rewrite flightAfter_S. apply Hfly. lia.
Qed.

Lemma part_life_move (p : Particle N) :
  part_life (moveParticle p) = part_life p - lit 0.03.
Proof. unfold moveParticle. by destruct (_ <? _). Qed.

(** The loop at index [i]: the particles below [i] are still to run, the
    ones from [i] on have run and the live ones have been kept. *)
Lemma particleLoop_spec (front back : list (Particle N)) arcs :
  particleLoop (length front) (front ++ back) arcs
  = Ok (List.filter alive (map moveParticle front) ++ back,
        arcs ++ map particleArc
                  (rev (List.filter alive (map moveParticle front)))).
Proof.
  revert back arcs.
  induction front as [|p front IH] using rev_ind; intros back arcs.
  - cbn. by rewrite app_nil_r.
  - rewrite length_app, Nat.add_1_r. cbn [particleLoop].
    rewrite <- app_assoc. cbn [app].
    rewrite list_lookup_middle by done.
    rewrite map_app, List.filter_app. cbn [map List.filter].
    unfold alive at 2 4. destruct (part_life (moveParticle p) <=? lit 0) eqn:Hl.
    + cbn [negb app]. rewrite app_nil_r.
      assert (forall (l : list (Particle N)) x b,
                 delete (length l) (l ++ x :: b) = l ++ b) as Hdel.
      { clear. intros l x b. induction l as [|q l IHl]; [done|].
        cbn. f_equal. exact IHl. }
      rewrite Hdel. apply IH.
    + cbn [negb]. rewrite insert_app_r_alt, Nat.sub_diag by done.
      cbn [insert list_insert]. rewrite IH.
      rewrite rev_app_distr. cbn [rev app map].
      by rewrite <- !app_assoc.
Qed.

Lemma drawParticles_filter (ps : list (Particle N)) :
  drawParticles ps
  = Ok (List.filter alive (map moveParticle ps),
        map particleArc (rev (List.filter alive (map moveParticle ps)))).
Proof.
  unfold drawParticles.
  pose proof (particleLoop_spec ps [] []) as Hloop.
  by rewrite !app_nil_r in Hloop.
Qed.

(** Particles of one age: they are all kept, or all removed. *)
Lemma drawParticles_cohort (l : N) (ps : list (Particle N)) :
  Forall (fun p => part_life p = l) ps ->
  List.filter alive (map moveParticle ps)
  = if l - lit 0.03 <=? lit 0 then [] else map moveParticle ps.
Proof.
  induction 1 as [|p ps Hp _ IH]; [by destruct (_ <=? _)|].
  cbn [map List.filter]. unfold alive at 1.
  rewrite part_life_move, Hp, IH. by destruct (_ <=? _).
Qed.

Lemma particlesAfter_cohort k (l : N) (ps : list (Particle N)) :
  Forall (fun p => part_life p = l) ps ->
  (forall j, (1 <= j <= k)%nat ->
     (Nat.iter j (fun a => a - lit 0.03) l <=? lit 0) = false) ->
  particlesAfter k ps = Ok (map (Nat.iter k moveParticle) ps) /\
  Forall (fun p => part_life p = Nat.iter k (fun a => a - lit 0.03) l)
         (map (Nat.iter k moveParticle) ps).
Proof.
  revert l ps. induction k as [|k IH]; intros l ps Hps Hlive.
  - cbn. by rewrite map_id.
  - cbn [particlesAfter]. rewrite drawParticles_filter.
    rewrite (drawParticles_cohort l) by done.
    pose proof (Hlive 1%nat ltac:(lia)) as H1. cbn in H1. rewrite H1.
    destruct (IH (l - lit 0.03) (map moveParticle ps)) as [Hrun Hl].
    { apply Forall_map. eapply Forall_impl; [exact Hps|].
      intros p Hp. cbn. by rewrite part_life_move, Hp. }
    { intros j Hj. specialize (Hlive (S j)). rewrite Nat.iter_succ_r in Hlive.
      apply Hlive. lia. }
    rewrite Hrun, map_map. rewrite map_map in Hl.
    rewrite Nat.iter_succ_r.
    split.
    + f_equal. apply map_ext. intros p. by rewrite Nat.iter_succ_r.
    + eapply Forall_impl; [|intros p Hp; exact Hp].
      clear -Hl. induction ps as [|p ps IHp]; [done|].
      cbn [map] in *. apply Forall_cons in Hl as [Hp Hl].
      constructor; [|by apply IHp]. by rewrite Nat.iter_succ_r.
Qed.

Lemma particlesAfter_expire n (l : N) (ps : list (Particle N)) :
  Forall (fun p => part_life p = l) ps ->
  (forall j, (1 <= j <= n)%nat ->
     (Nat.iter j (fun a => a - lit 0.03) l <=? lit 0) = false) ->
  (Nat.iter (S n) (fun a => a - lit 0.03) l <=? lit 0) = true ->
  particlesAfter (S n) ps = Ok [].
Proof.
  revert l ps. induction n as [|n IH]; intros l ps Hps Hlive Hdead;
    cbn [particlesAfter]; rewrite drawParticles_filter;
    rewrite (drawParticles_cohort l) by done.
  - cbn in Hdead. by rewrite Hdead.
  - pose proof (Hlive 1%nat ltac:(lia)) as H1. cbn in H1. rewrite H1.
    apply (IH (l - lit 0.03)).
    + apply Forall_map. eapply Forall_impl; [exact Hps|].
      intros p Hp. cbn. by rewrite part_life_move, Hp.
    + intros j Hj. specialize (Hlive (S j)).
      rewrite Nat.iter_succ_r in Hlive. apply Hlive. lia.
    + by rewrite Nat.iter_succ_r in Hdead.
Qed.

(** Particles made with life 1.0 are all there after each of the first
    [n] frames and all gone after frame [n + 1], when the life first runs
    out after [n + 1] decrements. *)
Lemma particles_span n (ps : list (Particle N)) :
  Forall (fun p => part_life p = lit 1.0) ps ->
  forallb (fun j => negb (Nat.iter j (fun a => a - lit 0.03) (lit 1.0)
                          <=? lit 0)) (seq 1 n) = true ->
  (Nat.iter (S n) (fun a => a - lit 0.03) (lit 1.0) <=? lit 0) = true ->
  (forall k, (k <= n)%nat ->
     particlesAfter k ps = Ok (map (Nat.iter k moveParticle) ps)) /\
  particlesAfter (S n) ps = Ok [].
Proof.
  intros Hps Hlive Hdead.
  assert (forall j, (1 <= j <= n)%nat ->
            (Nat.iter j (fun a => a - lit 0.03) (lit 1.0) <=? lit 0) = false)
    as Hl.
  { intros j Hj. apply negb_true_iff.
    apply (proj1 (forallb_forall _ _) Hlive). apply in_seq. lia. }
  split.
  - intros k Hk. apply (particlesAfter_cohort k (lit 1.0)); [done|].
    intros j Hj. apply Hl. lia.
  - by apply (particlesAfter_expire n (lit 1.0)).
Qed.

Lemma particlesAfter_frames k (ps : list (Particle N)) :
  particlesAfter k ps
  = Ok (Nat.iter k (fun qs => List.filter alive (map moveParticle qs)) ps).
Proof.
  revert ps. induction k as [|k IH]; intros ps; [done|].
  cbn [particlesAfter]. by rewrite drawParticles_filter, IH, Nat.iter_succ_r.
Qed.

Lemma particlesAfter_app k (ps qs ps' qs' : list (Particle N)) :
  particlesAfter k ps = Ok ps' ->
  particlesAfter k qs = Ok qs' ->
  particlesAfter k (ps ++ qs) = Ok (ps' ++ qs').
Proof.
  rewrite !particlesAfter_frames. intros [= <-] [= <-]. f_equal.
  revert ps qs. induction k as [|k IH]; intros ps qs; [done|].
  rewrite !Nat.iter_succ_r, map_app, List.filter_app. apply IH.
Qed.

Lemma createExplosion_fresh (x y z0 : N) color random :
  Forall (fun p => part_life p = lit 1.0)
         (createExplosion x y z0 color random []).
Proof. unfold createExplosion. cbn. repeat constructor. Qed.

Lemma createExplosion_app (x y z0 : N) color random ps :
  createExplosion x y z0 color random ps
  = ps ++ createExplosion x y z0 color random [].
Proof. done. Qed.

(** An explosion among other particles: its fifteen particles are there
    after each of the first [n] frames and gone after frame [n + 1]. *)
Lemma explosion_span n (x y z0 : N) color random ps :
  forallb (fun j => negb (Nat.iter j (fun a => a - lit 0.03) (lit 1.0)
                          <=? lit 0)) (seq 1 n) = true ->
  (Nat.iter (S n) (fun a => a - lit 0.03) (lit 1.0) <=? lit 0) = true ->
  (forall k, (k <= n)%nat ->
     exists old,
       particlesAfter k ps = Ok old /\
       particlesAfter k (createExplosion x y z0 color random ps)
       = Ok (old ++ map (Nat.iter k moveParticle)
                        (createExplosion x y z0 color random []))) /\
  particlesAfter (S n) (createExplosion x y z0 color random ps)
  = particlesAfter (S n) ps.
Proof.
  intros Hlive Hdead.
  destruct (particles_span n _ (createExplosion_fresh x y z0 color random)
              Hlive Hdead) as [Hthere Hgone].
  rewrite createExplosion_app. split.
  - intros k Hk. eexists. split; [apply particlesAfter_frames|].
    apply particlesAfter_app; [apply particlesAfter_frames|by apply Hthere].
  - rewrite (particlesAfter_app _ _ _ _ _ (particlesAfter_frames _ ps) Hgone).
    by rewrite app_nil_r, particlesAfter_frames.
Qed.
End DrawLemmas.

(** ** The returned grid has the shape of the argument *)

Lemma placeMines_shape fuel draws grid k sr sc h g' h' :
  placeMines fuel draws grid k sr sc h = Ok (g', h') -> sameShape grid g'.
Proof.
  unfold placeMines. intros H. res_inv.
  by destruct (cloneGrid_shape _ _ _ _ Ha) as (? & _ & _ & ?).
Qed.

Lemma revealCell_shape grid row0 col0 h g' b h' :
  revealCell grid row0 col0 h = Ok (g', b, h') -> sameShape grid g'.
Proof.
  unfold revealCell. intros H. res_inv.
  destruct (cloneGrid_shape _ _ _ _ Ha) as (? & _ & _ & ?).
  case_bool_decide; [by res_inv|]. destruct (isMine _); by res_inv.
Qed.

Lemma toggleFlag_shape grid row0 col0 h g' h' :
  toggleFlag grid row0 col0 h = Ok (g', h') -> sameShape grid g'.
Proof.
  unfold toggleFlag. intros H. res_inv.
  destruct (cloneGrid_shape _ _ _ _ Ha) as (? & _ & _ & ?).
  destruct (status _); by res_inv.
Qed.

(** C5: on a square grid, revealing an in-range cell whose status is not
    Hidden (Revealed, Flagged or Exploded) returns exploded = false and a
    grid equal to the input grid: the same shape and, position by position,
    cells with the same fields. *)
Theorem revealCell_not_hidden n grid h row col cell :
  wfGrid n grid h ->
  cellAt grid h row col = Some cell ->
  status cell <> HIDDEN ->
  exists g' h',
    revealCell grid row col h = Ok (g', false, h') /\
    snapshot g' h' = snapshot grid h /\
    forall r c, cellAt g' h' r c = cellAt grid h r c.
Proof.
  intros Hwf Hcell Hst.
  destruct (cloneGrid_wf_total _ _ _ Hwf) as (g' & h' & Hclone).
  pose proof (wfGrid_validRefs _ _ _ Hwf) as Hv.
  destruct (cloneGrid_spec _ _ _ _ Hv Hclone) as (_ & _ & _ & Hsame).
  exists g', h'. split; [|split; [by eapply cloneGrid_snapshot|done]].
  unfold revealCell. rewrite Hclone. cbn.
  rewrite Hsame, Hcell. cbn.
  by rewrite bool_decide_eq_true_2.
Qed.

(** C6: on a square grid, revealing an in-range Hidden mine returns
    exploded = true; in the returned grid that cell has status Exploded and
    its other fields as before, and every other cell is as in the input. *)
Theorem revealCell_mine n grid h row col cell :
  wfGrid n grid h ->
  cellAt grid h row col = Some cell ->
  status cell = HIDDEN ->
  isMine cell = true ->
  exists g' h',
    revealCell grid row col h = Ok (g', true, h') /\
    sameShape grid g' /\
    cellAt g' h' row col = Some (with_status EXPLODED cell) /\
    forall r c, (r, c) <> (row, col) -> cellAt g' h' r c = cellAt grid h r c.
Proof.
  intros Hwf Hcell Hst Hmine.
  destruct (cloneGrid_wf_total _ _ _ Hwf) as (g' & h0 & Hclone).
  pose proof (wfGrid_validRefs _ _ _ Hwf) as Hv.
  destruct (cloneGrid_spec _ _ _ _ Hv Hclone) as (Hfresh & Hshape & _ & Hsame).
  rewrite <- Hsame in Hcell.
  destruct (setCell_spec _ _ _ _ _ (with_status EXPLODED) _ Hfresh Hcell)
    as (h1 & Hset & _ & _ & Hat & Hother & _).
  exists g', h1. split; [|split; [done|split; [done|]]].
  - unfold revealCell. rewrite Hclone. cbn. rewrite Hcell. cbn.
    rewrite bool_decide_eq_false_2 by (by rewrite Hst; intros []).
    rewrite Hmine, Hset. done.
  - intros r c Hne. rewrite Hother by done. apply Hsame.
Qed.

(** C3: on a square grid, checkWinCondition returns true if and only if
    every non-mine cell has status Revealed; a second square grid of the
    same size that has its mines at the same positions and the same status
    on every non-mine cell gets the same result, whatever the statuses of
    its mine cells. *)
Theorem checkWinCondition_spec n grid h :
  wfGrid n grid h ->
  exists b,
    checkWinCondition grid h = Ok b /\
    (b = true <->
     forall r c cell, cellAt grid h r c = Some cell ->
                      isMine cell = false -> status cell = REVEALED) /\
    forall grid2 h2,
      wfGrid n grid2 h2 ->
      (forall r c cell, cellAt grid h r c = Some cell ->
         exists cell2, cellAt grid2 h2 r c = Some cell2 /\
                       isMine cell2 = isMine cell /\
                       (isMine cell = false -> status cell2 = status cell)) ->
      checkWinCondition grid2 h2 = Ok b.
Proof.
  intros Hwf. exists (allSafeRevealed n grid h).
  split; [by apply checkWinCondition_formula|].
  split; [by apply allSafeRevealed_true|].
  intros grid2 h2 Hwf2 Hagree.
  rewrite (checkWinCondition_formula n) by done. f_equal.
  apply eq_true_iff_eq. rewrite !allSafeRevealed_true by done.
  split.
  - intros H2 r c cell Hcell Hm.
    destruct (Hagree _ _ _ Hcell) as (cell2 & Hcell2 & Hm2 & Hs2).
    rewrite <- Hs2 by done. apply (H2 r c); congruence.
  - intros H r c cell2 Hcell2 Hm2.
    destruct (proj1 (wfGrid_cellAt n grid2 h2 r c Hwf2)) as [Hr Hc]; [eauto|].
    destruct (proj2 (wfGrid_cellAt n grid h r c Hwf) (conj Hr Hc))
      as [cell Hcell].
    destruct (Hagree _ _ _ Hcell) as (cell2' & Hcell2' & Hm2' & Hs2').
    assert (cell2' = cell2) as -> by congruence.
    rewrite Hs2' by congruence. apply (H r c); congruence.
Qed.
(** C10: placeMines, revealCell and toggleFlag build a new grid and do not
    write to their argument.  On a square grid, revealCell and toggleFlag
    return for every cell of the grid, and so does the given run of
    placeMines; each returned grid has the shape of the argument, every
    cell of it is an object allocated during the call, every object that
    existed before the call has the fields it had, and so the argument
    grid has, position by position, the cells (status, isMine,
    neighborMines) it had.  The same holds for every call that returns, on
    any grid and with any arguments. *)
Theorem grid_functions_pure n grid h row0 col0
    fuel draws mineCount safeRow safeCol g3 h3 :
  wfGrid n grid h ->
  0 <= row0 < Z.of_nat n -> 0 <= col0 < Z.of_nat n ->
  placeMines fuel draws grid mineCount safeRow safeCol h = Ok (g3, h3) ->
  (sameShape grid g3 /\ allocatedSince h g3 h3 /\ unchanged h h3 /\
   snapshot grid h3 = snapshot grid h) /\
  (exists g1 exploded h1,
     revealCell grid row0 col0 h = Ok (g1, exploded, h1) /\
     sameShape grid g1 /\ allocatedSince h g1 h1 /\ unchanged h h1 /\
     snapshot grid h1 = snapshot grid h) /\
  (exists g2 h2,
     toggleFlag grid row0 col0 h = Ok (g2, h2) /\
     sameShape grid g2 /\ allocatedSince h g2 h2 /\ unchanged h h2 /\
     snapshot grid h2 = snapshot grid h) /\
  (forall grid0 h0,
     validRefs grid0 h0 ->
     (forall fuel0 draws0 k sr sc g' h',
        placeMines fuel0 draws0 grid0 k sr sc h0 = Ok (g', h') ->
        sameShape grid0 g' /\ allocatedSince h0 g' h' /\ unchanged h0 h' /\
        snapshot grid0 h' = snapshot grid0 h0) /\
     (forall r c g' b h',
        revealCell grid0 r c h0 = Ok (g', b, h') ->
        sameShape grid0 g' /\ allocatedSince h0 g' h' /\ unchanged h0 h' /\
        snapshot grid0 h' = snapshot grid0 h0) /\
     (forall r c g' h',
        toggleFlag grid0 r c h0 = Ok (g', h') ->
        sameShape grid0 g' /\ allocatedSince h0 g' h' /\ unchanged h0 h' /\
        snapshot grid0 h' = snapshot grid0 h0)).
Proof.
  intros Hwf Hrow Hcol Hplace.
  assert (forall grid0 h0,
     validRefs grid0 h0 ->
     (forall fuel0 draws0 k sr sc g' h',
        placeMines fuel0 draws0 grid0 k sr sc h0 = Ok (g', h') ->
        sameShape grid0 g' /\ allocatedSince h0 g' h' /\ unchanged h0 h' /\
        snapshot grid0 h' = snapshot grid0 h0) /\
     (forall r c g' b h',
        revealCell grid0 r c h0 = Ok (g', b, h') ->
        sameShape grid0 g' /\ allocatedSince h0 g' h' /\ unchanged h0 h' /\
        snapshot grid0 h' = snapshot grid0 h0) /\
     (forall r c g' h',
        toggleFlag grid0 r c h0 = Ok (g', h') ->
        sameShape grid0 g' /\ allocatedSince h0 g' h' /\ unchanged h0 h' /\
        snapshot grid0 h' = snapshot grid0 h0)) as Hall.
  { intros grid0 h0 Hv. split; [|split].
    - intros fuel0 draws0 k sr sc g' h' Hrun.
      destruct (placeMines_pure _ _ _ _ _ _ _ _ _ Hrun) as [Hal Hun].
      split; [by eapply placeMines_shape|].
      split; [done|]. split; [done|]. by apply unchanged_snapshot.
    - intros r c g' b h' Hrun.
      destruct (revealCell_pure _ _ _ _ _ _ _ Hrun) as [Hal Hun].
      split; [by eapply revealCell_shape|].
      split; [done|]. split; [done|]. by apply unchanged_snapshot.
    - intros r c g' h' Hrun.
      destruct (toggleFlag_pure _ _ _ _ _ _ Hrun) as [Hal Hun].
      split; [by eapply toggleFlag_shape|].
      split; [done|]. split; [done|]. by apply unchanged_snapshot. }
  pose proof (wfGrid_validRefs _ _ _ Hwf) as Hv.
  destruct (Hall grid h Hv) as (Hp & Hr & Ht).
  destruct (proj2 (wfGrid_cellAt n grid h row0 col0 Hwf) (conj Hrow Hcol))
    as [cell Hcell].
  split; [by eapply Hp|]. split; [|split; [|exact Hall]].
  - destruct (revealCell_result n grid h row0 col0 cell Hwf Hcell)
      as (g1 & h1 & Hrun & _).
    exists g1, (explodes cell), h1. split; [done|]. by eapply Hr.
  - destruct (toggleFlag_result n grid h row0 col0 cell Hwf Hcell)
      as (g2 & h2 & Hrun & _).
    exists g2, h2. split; [done|]. by eapply Ht.
Qed.


(** C1: placeMines on a square mine-free grid.  For every size [n], count
    [k], safe cell, stream of random draws and step budget: if the call
    returns, the returned n x n grid has exactly [k] mines, none of them at
    Chebyshev distance at most 1 from the safe cell, and every non-mine
    cell's neighborMines is the number of mines among the eight positions
    around it (positions outside the grid hold no cell, so no mine). *)
Theorem placeMines_spec n grid h (k : nat) safeRow safeCol draws fuel g' h' :
  wfGrid n grid h ->
  (forall r c cell, cellAt grid h r c = Some cell -> isMine cell = false) ->
  placeMines fuel draws grid (Z.of_nat k) safeRow safeCol h = Ok (g', h') ->
  wfGrid n g' h' /\
  minesAmong g' h' (coords n) = k /\
  (forall p, near (safeRow, safeCol) p -> mineAt g' h' p = false) /\
  (forall r c cell,
     cellAt g' h' r c = Some cell -> isMine cell = false ->
     neighborMines cell = Z.of_nat (minesAmong g' h' (around r c))).
Proof.
  intros Hwf Hfree H. unfold placeMines in H.
  apply bind_Ok in H as ([newGrid h0] & Hclone & H).
  apply bind_Ok in H as (h1 & Hloop & H).
  apply bind_Ok in H as (h2 & Hcalc & H).
  inversion H; subst g' h'; clear H.
  pose proof (wfGrid_validRefs _ _ _ Hwf) as Hv.
  destruct (cloneGrid_spec _ _ _ _ Hv Hclone) as (Hfresh & _ & _ & Hsame).
  pose proof (wfGrid_clone _ _ _ _ _ Hwf Hclone) as Hwf0.
  assert (forall p, mineAt newGrid h0 p = false) as Hnone.
  { intros [r c]. unfold mineAt. cbn. rewrite Hsame.
    destruct (cellAt grid h r c) eqn:E; eauto. }
  assert (placeInv (length h) n newGrid (safeRow, safeCol) h0 0) as Hinv0.
  { repeat split; try apply Hfresh; try apply Hwf0; [|done].
    by rewrite minesAmong_none. }
  apply (placeLoop_inv _ _ _ _ _ _ _ _ _ _ _ _ Hinv0) in Hloop as Hinv1; [|lia].
  destruct Hinv1 as (Hfresh1 & Hwf1 & Hcount1 & Hsafe1).
  destruct Hwf as [Hn _]. rewrite Hn in Hcalc.
  apply (calcNumbers_inv (length h) n newGrid h1) in Hcalc as Hinv2.
  2:{ split; [done|]. split; [done|]. split; [done|]. by intros r c cell []. }
  pose proof Hinv2 as (Hfresh2 & Hwf2 & Hsame2 & HN).
  assert (forall p, mineAt newGrid h2 p = mineAt newGrid h1 p) as Hm
    by (intros p; by eapply calcInv_mineAt).
  split; [done|]. split; [|split].
  - rewrite (minesAmong_ext newGrid h1) by done. lia.
  - intros p Hp. rewrite Hm. by apply Hsafe1.
  - intros r c cell Hcell Hmine.
    rewrite (minesAmong_ext newGrid h1) by done.
    apply HN; [|done|done]. cbn.
    rewrite !elem_of_upto. apply (wfGrid_cellAt n newGrid h2 r c Hwf2). eauto.
Qed.

(** C2, as the code has it: on a square grid whose non-mine cells carry
    their number of adjacent mines, revealing a Hidden non-mine cell with
    neighborMines = 0 returns exploded = false and sets to Revealed exactly
    the cells that the fill reaches: the Hidden cells joined to the start by
    a chain of adjacent (8-neighbourhood) Hidden cells with
    neighborMines = 0, the last cell of a chain being Hidden with any
    number.  Every other cell is returned as it was, and no reached cell is
    a mine.  When every cell of the grid is Hidden, the reached cells are
    the maximal 8-connected region of zero cells around the start together
    with the numbered cells bordering it. *)
Theorem revealCell_flood n grid h row col cell :
  wfGrid n grid h ->
  numbersValid grid h ->
  cellAt grid h row col = Some cell ->
  status cell = HIDDEN -> isMine cell = false -> neighborMines cell = 0 ->
  (exists g' h',
    revealCell grid row col h = Ok (g', false, h') /\
    sameShape grid g' /\
    forall r c x,
      cellAt grid h r c = Some x ->
      (floods grid h (row, col) (r, c) ->
       cellAt g' h' r c = Some (with_status REVEALED x) /\ isMine x = false) /\
      (~ floods grid h (row, col) (r, c) -> cellAt g' h' r c = Some x)) /\
  (allHidden grid h ->
   forall q, floods grid h (row, col) q <->
             regionWithBorder grid h (row, col) q).
Proof.
  intros Hwf Hvalid Hcell Hst Hmine Hzero. split.
  2:{ intros Hhid q. apply floods_region; try done.
      - unfold mineAt. cbn. by rewrite Hcell.
      - by exists cell. }
  destruct (cloneGrid_wf_total _ _ _ Hwf) as (g' & h0 & Hclone).
  pose proof (wfGrid_validRefs _ _ _ Hwf) as Hv.
  destruct (cloneGrid_spec _ _ _ _ Hv Hclone) as (Hfresh & Hshape & _ & Hsame).
  pose proof (wfGrid_clone _ _ _ _ _ Hwf Hclone) as Hwf0.
  assert (hiddenAt g' h0 (row, col)) as Hs by (exists cell; by rewrite Hsame).
  destruct (floodFill_inv (length h) n g' h0 (row, col) Hs Hwf0
              (floodBudget g') [(row, col)] h0) as (h' & Hfill & Hinv).
  { by apply floodInv_init. }
  { unfold floodBudget. destruct Hwf0 as [-> _].
    pose proof (countIf_le (isHiddenAt g' h0) (coords n)) as Hle.
    rewrite length_coords in Hle. cbn [length]. lia. }
  exists g', h'. split; [|split; [done|]].
  - unfold revealCell. rewrite Hclone. cbn [mbind Res_bind].
    rewrite Hsame, Hcell. cbn [defined mbind Res_bind].
    rewrite bool_decide_eq_false_2 by (by rewrite Hst; intros []).
    rewrite Hmine, Hfill. done.
  - intros r c x Hx. rewrite <- Hsame in Hx.
    pose proof Hinv as (_ & _ & Hcells & _).
    split.
    + intros Hfl. split.
      * apply (floods_ext _ _ g' h0) in Hfl; [|done].
        destruct (floodInv_final _ _ _ _ _ _ _ Hinv Hfl)
          as [(x0 & Hx0 & Hst0) (y & Hy & Hsty)].
        destruct (Hcells _ _ _ Hx) as [E|(_ & _ & E)]; [|done].
        cbn in *. congruence.
      * pose proof (floods_not_mine grid h (row, col) (r, c) Hvalid) as Hnm.
        unfold mineAt in Hnm. cbn in Hnm. rewrite Hcell in Hnm.
        rewrite Hsame in Hx. rewrite Hx in Hnm. auto.
    + intros Hnfl. destruct (Hcells _ _ _ Hx) as [E|(_ & Hfl & _)]; [done|].
      destruct Hnfl. eapply floods_ext; [|apply Hfl]. done.
Qed.

(** C8: for every start position, ground-plane velocity and vertical speed,
    in either arithmetic, calculateLandingPos returns the ground position
    after [k] tick updates (position += velocity; z += vz; vz -= 0.5;
    velocity *= 0.995 on both axes) for some 1 <= k <= 800: [k] is the first
    tick after which z <= 0, or 800 when z <= 0 after none of the first 800
    ticks.  The loop is bounded by its counter, so the function is total. *)
Theorem calculateLandingPos_spec {N : Type} `{JSNumber N}
    (startPos velocity : Vector N) (vz : N) :
  exists k,
    (1 <= k <= 800)%nat /\
    calculateLandingPos startPos velocity vz
    = groundPos (flightAfter k (launch startPos velocity vz)) /\
    (forall j, (1 <= j < k)%nat ->
       landed (flightAfter j (launch startPos velocity vz)) = false) /\
    (landed (flightAfter k (launch startPos velocity vz)) = true \/ k = 800%nat).
Proof.
  destruct (landingLoop_spec 800 (launch startPos velocity vz))
    as (k & Hk & Hres & Hbefore & Hend).
  exists k. split; [|split; [done|split]].
  - destruct Hend as [[? ?]|[(-> & ? & ?)|[-> ?]]]; lia.
  - intros j Hj. apply Hbefore. lia.
  - destruct Hend as [[? ?]|[(-> & ? & ?)|[-> ?]]]; auto.
Qed.


(** C4, at a failing input: a shot pulled 77 straight up in an 800 x 600
    window is in flight for 47 frames without any call of onHit; in frame
    48 it both lands (z <= 0) and is above the top margin (y < -100), and
    onHit is called twice, with the same position; no call follows. *)
Theorem animate_resolves_twice (k : nat) :
  hitsOver 47 (lit 800) (Some (straightUpShot (N := float))) = [] /\
  exists pos,
    hitsOver (48 + k) (lit 800) (Some (straightUpShot (N := float)))
    = [(pos, PROBE); (pos, PROBE)].
Proof.
  split; [by vm_compute|].
  rewrite hitsOver_add.
  destruct (Nat.iter 48 _ _) as [p|] eqn:E.
  - assert (active p = false) as Hp.
    { vm_compute in E. inversion E. reflexivity. }
    rewrite (hitsOver_inactive _ _ _ Hp), app_nil_r.
    eexists. vm_compute. reflexivity.
  - vm_compute in E. discriminate E.
Qed.



(** ** Witnesses and counterexamples at concrete boards and numbers *)

(** Witness of C1: the demo board is what placeMines returns for a fresh
    5 x 5 board, 3 mines, the safe cell (4,0) and the draws of the demo. *)
Lemma placeMines_spec_witness :
  wfGrid 5 fresh5.1 fresh5.2 /\
  (forall r c cell,
     cellAt fresh5.1 fresh5.2 r c = Some cell -> isMine cell = false) /\
  placeMines 3 demoDraws fresh5.1 (Z.of_nat 3) 4 0 fresh5.2
  = Ok (demo5.1, demo5.2) /\
  wfGrid 5 demo5.1 demo5.2 /\
  minesAmong demo5.1 demo5.2 (coords 5) = 3%nat /\
  (forall p, near (4, 0) p -> mineAt demo5.1 demo5.2 p = false) /\
  (forall r c cell,
     cellAt demo5.1 demo5.2 r c = Some cell -> isMine cell = false ->
     neighborMines cell = Z.of_nat (minesAmong demo5.1 demo5.2 (around r c))).
Proof.
  assert (wfGrid 5 fresh5.1 fresh5.2) as Hwf
    by (apply wfGrid_check; vm_compute; reflexivity).
  assert (forall r c cell,
            cellAt fresh5.1 fresh5.2 r c = Some cell -> isMine cell = false)
    as Hfree by (apply (mineFree_sound 5); [exact Hwf|vm_compute; reflexivity]).
  assert (placeMines 3 demoDraws fresh5.1 (Z.of_nat 3) 4 0 fresh5.2
          = Ok (demo5.1, demo5.2)) as Hrun by (vm_compute; reflexivity).
  split; [exact Hwf|]. split; [exact Hfree|]. split; [exact Hrun|].
  exact (placeMines_spec 5 fresh5.1 fresh5.2 3 4 0 demoDraws 3
           demo5.1 demo5.2 Hwf Hfree Hrun).
Defined.

(** Counterexample to C2 as stated: on the 3 x 3 board without mines whose
    centre is flagged, the claim's hypotheses hold for the corner (0,0) and
    the centre (1,1) lies in the zero region of the corner, yet the centre
    comes back Flagged, not Revealed. *)
Lemma revealCell_flood_counterexample :
  wfGrid 3 flagged3.1 flagged3.2 /\
  numbersValid flagged3.1 flagged3.2 /\
  cellAt flagged3.1 flagged3.2 0 0 = Some (mkCell 0 0 false HIDDEN 0) /\
  regionWithBorder flagged3.1 flagged3.2 (0, 0) (1, 1) /\
  exists g' h',
    revealCell flagged3.1 0 0 flagged3.2 = Ok (g', false, h') /\
    cellAt g' h' 1 1 = Some (mkCell 1 1 false FLAGGED 0) /\
    ~ revealedAt g' h' (1, 1).
Proof.
  assert (wfGrid 3 flagged3.1 flagged3.2) as Hwf
    by (apply wfGrid_check; vm_compute; reflexivity).
  split; [exact Hwf|].
  split; [apply (numbersValidb_sound 3); [exact Hwf|vm_compute; reflexivity]|].
  split; [vm_compute; reflexivity|]. split.
  - left. apply (zeroRegion_step _ _ _ (0, 0)).
    + apply zeroRegion_start. eexists. split; [vm_compute; reflexivity|done].
    + split; cbn; lia.
    + eexists. split; [vm_compute; reflexivity|done].
  - destruct (revealCell flagged3.1 0 0 flagged3.2) as [[[g' b] h']| |] eqn:E;
      vm_compute in E; try discriminate E.
    inversion E; subst. eexists _, _. split; [reflexivity|].
    split; [vm_compute; reflexivity|].
    intros (cell & Hcell & Hst). vm_compute in Hcell.
    inversion Hcell; subst. discriminate Hst.
Qed.

(** Witness of C2: the flood fill from the zero cell (4,0) of the demo
    board. *)
Lemma revealCell_flood_witness :
  wfGrid 5 demo5.1 demo5.2 /\
  numbersValid demo5.1 demo5.2 /\
  cellAt demo5.1 demo5.2 4 0 = Some (mkCell 4 0 false HIDDEN 0) /\
  (exists g' h',
    revealCell demo5.1 4 0 demo5.2 = Ok (g', false, h') /\
    sameShape demo5.1 g' /\
    forall r c x,
      cellAt demo5.1 demo5.2 r c = Some x ->
      (floods demo5.1 demo5.2 (4, 0) (r, c) ->
       cellAt g' h' r c = Some (with_status REVEALED x) /\ isMine x = false) /\
      (~ floods demo5.1 demo5.2 (4, 0) (r, c) -> cellAt g' h' r c = Some x)) /\
  (allHidden demo5.1 demo5.2 ->
   forall q, floods demo5.1 demo5.2 (4, 0) q <->
             regionWithBorder demo5.1 demo5.2 (4, 0) q).
Proof.
  assert (wfGrid 5 demo5.1 demo5.2) as Hwf
    by (apply wfGrid_check; vm_compute; reflexivity).
  assert (numbersValid demo5.1 demo5.2) as Hvalid
    by (apply (numbersValidb_sound 5); [exact Hwf|vm_compute; reflexivity]).
  assert (cellAt demo5.1 demo5.2 4 0 = Some (mkCell 4 0 false HIDDEN 0))
    as Hcell by (vm_compute; reflexivity).
  split; [exact Hwf|]. split; [exact Hvalid|]. split; [exact Hcell|].
  exact (revealCell_flood 5 demo5.1 demo5.2 4 0 _ Hwf Hvalid Hcell
           eq_refl eq_refl eq_refl).
Defined.

(** Witness of C3: the demo board, where nothing is revealed yet. *)
Lemma checkWinCondition_spec_witness :
  wfGrid 5 demo5.1 demo5.2 /\
  exists b,
    checkWinCondition demo5.1 demo5.2 = Ok b /\
    (b = true <->
     forall r c cell, cellAt demo5.1 demo5.2 r c = Some cell ->
                      isMine cell = false -> status cell = REVEALED) /\
    forall grid2 h2,
      wfGrid 5 grid2 h2 ->
      (forall r c cell, cellAt demo5.1 demo5.2 r c = Some cell ->
         exists cell2, cellAt grid2 h2 r c = Some cell2 /\
                       isMine cell2 = isMine cell /\
                       (isMine cell = false -> status cell2 = status cell)) ->
      checkWinCondition grid2 h2 = Ok b.
Proof.
  assert (wfGrid 5 demo5.1 demo5.2) as Hwf
    by (apply wfGrid_check; vm_compute; reflexivity).
  split; [exact Hwf|].
  exact (checkWinCondition_spec 5 demo5.1 demo5.2 Hwf).
Defined.

(** Witness of C5: revealing the flagged centre of the 3 x 3 board. *)
Lemma revealCell_not_hidden_witness :
  wfGrid 3 flagged3.1 flagged3.2 /\
  cellAt flagged3.1 flagged3.2 1 1 = Some (mkCell 1 1 false FLAGGED 0) /\
  FLAGGED <> HIDDEN /\
  exists g' h',
    revealCell flagged3.1 1 1 flagged3.2 = Ok (g', false, h') /\
    snapshot g' h' = snapshot flagged3.1 flagged3.2 /\
    forall r c, cellAt g' h' r c = cellAt flagged3.1 flagged3.2 r c.
Proof.
  assert (wfGrid 3 flagged3.1 flagged3.2) as Hwf
    by (apply wfGrid_check; vm_compute; reflexivity).
  assert (cellAt flagged3.1 flagged3.2 1 1 = Some (mkCell 1 1 false FLAGGED 0))
    as Hcell by (vm_compute; reflexivity).
  assert (FLAGGED <> HIDDEN) as Hst by discriminate.
  split; [exact Hwf|]. split; [exact Hcell|]. split; [exact Hst|].
  exact (revealCell_not_hidden 3 flagged3.1 flagged3.2 1 1 _ Hwf Hcell Hst).
Defined.

(** Witness of C6: revealing the mine at (3,3) of the demo board. *)
Lemma revealCell_mine_witness :
  wfGrid 5 demo5.1 demo5.2 /\
  cellAt demo5.1 demo5.2 3 3 = Some (mkCell 3 3 true HIDDEN 0) /\
  exists g' h',
    revealCell demo5.1 3 3 demo5.2 = Ok (g', true, h') /\
    sameShape demo5.1 g' /\
    cellAt g' h' 3 3 = Some (with_status EXPLODED (mkCell 3 3 true HIDDEN 0)) /\
    forall r c, (r, c) <> (3, 3) ->
                cellAt g' h' r c = cellAt demo5.1 demo5.2 r c.
Proof.
  assert (wfGrid 5 demo5.1 demo5.2) as Hwf
    by (apply wfGrid_check; vm_compute; reflexivity).
  assert (cellAt demo5.1 demo5.2 3 3 = Some (mkCell 3 3 true HIDDEN 0))
    as Hcell by (vm_compute; reflexivity).
  split; [exact Hwf|]. split; [exact Hcell|].
  exact (revealCell_mine 5 demo5.1 demo5.2 3 3 _ Hwf Hcell eq_refl eq_refl).
Defined.

(** Witness of C10: placeMines run on the fresh 5 x 5 board (it returns
    the demo board), revealCell and toggleFlag called on its centre. *)
Lemma grid_functions_pure_witness :
  wfGrid 5 fresh5.1 fresh5.2 /\
  placeMines 3 demoDraws fresh5.1 3 4 0 fresh5.2 = Ok (demo5.1, demo5.2) /\
  (sameShape fresh5.1 demo5.1 /\
   allocatedSince fresh5.2 demo5.1 demo5.2 /\
   unchanged fresh5.2 demo5.2 /\
   snapshot fresh5.1 demo5.2 = snapshot fresh5.1 fresh5.2) /\
  (exists g1 exploded h1,
     revealCell fresh5.1 2 2 fresh5.2 = Ok (g1, exploded, h1) /\
     sameShape fresh5.1 g1 /\ allocatedSince fresh5.2 g1 h1 /\
     unchanged fresh5.2 h1 /\
     snapshot fresh5.1 h1 = snapshot fresh5.1 fresh5.2) /\
  (exists g2 h2,
     toggleFlag fresh5.1 2 2 fresh5.2 = Ok (g2, h2) /\
     sameShape fresh5.1 g2 /\ allocatedSince fresh5.2 g2 h2 /\
     unchanged fresh5.2 h2 /\
     snapshot fresh5.1 h2 = snapshot fresh5.1 fresh5.2).
Proof.
  assert (wfGrid 5 fresh5.1 fresh5.2) as Hwf
    by (apply wfGrid_check; vm_compute; reflexivity).
  assert (placeMines 3 demoDraws fresh5.1 3 4 0 fresh5.2
          = Ok (demo5.1, demo5.2)) as Hrun by (vm_compute; reflexivity).
  split; [exact Hwf|]. split; [exact Hrun|].
  destruct (grid_functions_pure 5 fresh5.1 fresh5.2 2 2 3 demoDraws 3 4 0
              demo5.1 demo5.2 Hwf ltac:(lia) ltac:(lia) Hrun)
    as (Hp & Hr & Ht & _).
  split; [exact Hp|]. split; [exact Hr|exact Ht].
Defined.




(** X1: for every size, createEmptyGrid returns a size x size grid whose
    cell at (r, c) is a new object { row: r, col: c, isMine: false,
    status: HIDDEN, neighborMines: 0 }; no two positions share an object,
    there is no cell outside 0 <= r, c < size, and the objects that existed
    before are left as they were.  Size 0 gives the empty grid. *)
Theorem createEmptyGrid_spec (size : nat) (h : Store) :
  wfGrid size (createEmptyGrid size h).1 (createEmptyGrid size h).2 /\
  freshGrid (length h) (createEmptyGrid size h).1 (createEmptyGrid size h).2 /\
  unchanged h (createEmptyGrid size h).2 /\
  (forall r c,
     cellAt (createEmptyGrid size h).1 (createEmptyGrid size h).2 r c
     = if bool_decide (0 <= r < Z.of_nat size /\ 0 <= c < Z.of_nat size)
       then Some (emptyCell r c) else None) /\
  (size = 0%nat -> (createEmptyGrid size h).1 = []).
Proof.
  split; [apply createEmptyGrid_wf|]. split; [apply createEmptyGrid_fresh|].
  split; [|split].
  - rewrite createEmptyGrid_eq. intros l cell Hl. cbn [snd].
    apply lookup_app_l_Some; exact Hl.
  - intros r c. case_bool_decide as Hrc.
    + destruct Hrc. by apply createEmptyGrid_cellAt.
    + destruct (cellAt _ _ r c) eqn:E; [|done]. destruct Hrc.
      apply (wfGrid_cellAt size _ _ r c (createEmptyGrid_wf size h)). eauto.
  - by intros ->.
Qed.

(** X2: on a square grid, toggleFlag on a cell of the grid returns a grid
    of the same shape in which that cell is Flagged if it was Hidden and
    Hidden if it was Flagged, and has the status it had if it was Revealed
    or Exploded; its other fields and every other cell are as in the
    input. *)
Theorem toggleFlag_spec n grid h row col cell :
  wfGrid n grid h ->
  cellAt grid h row col = Some cell ->
  exists g' h',
    toggleFlag grid row col h = Ok (g', h') /\
    sameShape grid g' /\
    cellAt g' h' row col = Some (with_status (toggled (status cell)) cell) /\
    forall r c, (r, c) <> (row, col) -> cellAt g' h' r c = cellAt grid h r c.
Proof.
  intros Hwf Hcell.
  destruct (toggleFlag_result n grid h row col cell Hwf Hcell)
    as (g' & h' & Hrun & Hshape & _ & Hat & Hother).
  by exists g', h'.
Qed.

(** X3: toggling the flag of the same cell twice gives back the grid:
    the second result has, position by position, the cells of the input,
    whatever the status of the cell. *)
Theorem toggleFlag_twice n grid h row col :
  wfGrid n grid h ->
  0 <= row < Z.of_nat n -> 0 <= col < Z.of_nat n ->
  exists g1 h1 g2 h2,
    toggleFlag grid row col h = Ok (g1, h1) /\
    toggleFlag g1 row col h1 = Ok (g2, h2) /\
    sameShape grid g2 /\
    forall r c, cellAt g2 h2 r c = cellAt grid h r c.
Proof.
  intros Hwf Hr Hc.
  destruct (proj2 (wfGrid_cellAt n grid h row col Hwf) (conj Hr Hc))
    as [cell Hcell].
  destruct (toggleFlag_result n grid h row col cell Hwf Hcell)
    as (g1 & h1 & Hrun1 & Hshape1 & Hwf1 & Hat1 & Hother1).
  destruct (toggleFlag_result n g1 h1 row col _ Hwf1 Hat1)
    as (g2 & h2 & Hrun2 & Hshape2 & _ & Hat2 & Hother2).
  exists g1, h1, g2, h2. split; [done|]. split; [done|]. split.
  - by eapply sameShape_trans.
  - intros r c. destruct (decide ((r, c) = (row, col))) as [E|Hne].
    + inversion E; subst. rewrite Hat2, Hcell. cbn [status with_status].
      rewrite toggled_toggled. f_equal. by destruct cell.
    + by rewrite Hother2, Hother1.
Qed.

(** X4: a position outside the grid ends revealCell and toggleFlag with a
    TypeError: both read a field of [newGrid[row][col]], which is
    undefined there (or [newGrid[row]] is). *)
Theorem reveal_toggle_outside n grid h row col :
  wfGrid n grid h ->
  ~ (0 <= row < Z.of_nat n /\ 0 <= col < Z.of_nat n) ->
  revealCell grid row col h = TypeError /\
  toggleFlag grid row col h = TypeError.
Proof.
  intros Hwf Hout.
  destruct (cloneGrid_wf_total _ _ _ Hwf) as (g' & h0 & Hclone).
  pose proof (wfGrid_validRefs _ _ _ Hwf) as Hv.
  destruct (cloneGrid_spec _ _ _ _ Hv Hclone) as (_ & _ & _ & Hsame).
  unfold revealCell, toggleFlag. rewrite Hclone. cbn [mbind Res_bind].
  by rewrite Hsame, (cellAt_outside n).
Qed.

(** X5: revealing a Hidden cell that is no mine and has a number
    (neighborMines <> 0) sets that one cell to Revealed and returns
    exploded = false; every other cell is as in the input. *)
Theorem revealCell_numbered n grid h row col cell :
  wfGrid n grid h ->
  cellAt grid h row col = Some cell ->
  status cell = HIDDEN -> isMine cell = false -> neighborMines cell <> 0 ->
  exists g' h',
    revealCell grid row col h = Ok (g', false, h') /\
    sameShape grid g' /\
    cellAt g' h' row col = Some (with_status REVEALED cell) /\
    forall r c, (r, c) <> (row, col) -> cellAt g' h' r c = cellAt grid h r c.
Proof.
  intros Hwf Hcell Hst Hmine Hnum.
  destruct (revealCell_result n grid h row col cell Hwf Hcell)
    as (g' & h' & Hrun & Hshape & Hwf' & Hcells & Hat & _).
  assert (explodes cell = false) as Hex
    by (unfold explodes; by rewrite Hmine, andb_false_r).
  rewrite Hex in *. exists g', h'.
  split; [done|]. split; [done|]. split; [by apply Hat|].
  intros r c Hne. destruct (cellAt grid h r c) as [x|] eqn:Hx.
  - destruct (Hcells _ _ _ Hx) as [E|(_ & _ & _ & Hfl)]; [done|].
    specialize (Hfl eq_refl).
    apply (floods_numbered grid h (row, col)) in Hfl; [done|].
    intros (y & Hy & Hz). cbn in Hy. congruence.
  - apply (cellAt_outside n); [done|]. intros Hin.
    apply (wfGrid_cellAt n grid h r c Hwf) in Hin as [x Hx2]. congruence.
Qed.

(** X6: revealCell returns for every cell of a square grid, and exploded
    is true exactly when that cell is a Hidden mine.  It never changes the
    row, col, isMine or neighborMines of a cell, and never the status of a
    cell that is not Hidden (a flag protects its cell).  A Hidden cell
    stays Hidden or becomes Revealed; only the probed cell, when it is a
    mine, becomes Exploded.  The probed cell itself is never Hidden
    afterwards. *)
Theorem revealCell_keeps n grid h row0 col0 cell :
  wfGrid n grid h ->
  cellAt grid h row0 col0 = Some cell ->
  exists g' h',
    revealCell grid row0 col0 h = Ok (g', explodes cell, h') /\
    sameShape grid g' /\
    (forall r c x,
       cellAt grid h r c = Some x ->
       exists y,
         cellAt g' h' r c = Some y /\
         row y = row x /\ col y = col x /\
         isMine y = isMine x /\ neighborMines y = neighborMines x /\
         (status x <> HIDDEN -> status y = status x) /\
         (status y = status x \/ status y = REVEALED \/
          (status y = EXPLODED /\ (r, c) = (row0, col0) /\ isMine x = true))) /\
    exists y, cellAt g' h' row0 col0 = Some y /\ status y <> HIDDEN.
Proof.
  intros Hwf Hcell.
  destruct (revealCell_result n grid h row0 col0 cell Hwf Hcell)
    as (g' & h' & Hrun & Hshape & Hwf' & Hcells & Hat & Hskip & _).
  exists g', h'. split; [done|]. split; [done|]. split.
  - intros r c x Hx.
    destruct (Hcells _ _ _ Hx) as [E|(Hh & E & Hex & _)].
    + exists x. by repeat split; auto.
    + eexists. split; [exact E|]. cbn. repeat split; [congruence|].
      destruct (explodes cell) eqn:Eex; [|auto].
      right; right. specialize (Hex eq_refl). inversion Hex; subst.
      assert (x = cell) as -> by congruence.
      unfold explodes in Eex. apply andb_true_iff in Eex as [_ ?]. done.
  - destruct (decide (status cell = HIDDEN)) as [Hst|Hst].
    + eexists. split; [by apply Hat|]. cbn. by destruct (explodes cell).
    + exists cell. by rewrite Hskip.
Qed.

(** X7: revealing the same cell a second time changes nothing: the second
    call returns exploded = false and, position by position, the cells
    that the first call returned. *)
Theorem revealCell_twice n grid h row col :
  wfGrid n grid h ->
  0 <= row < Z.of_nat n -> 0 <= col < Z.of_nat n ->
  exists g1 b h1 g2 h2,
    revealCell grid row col h = Ok (g1, b, h1) /\
    revealCell g1 row col h1 = Ok (g2, false, h2) /\
    sameShape g1 g2 /\
    forall r c, cellAt g2 h2 r c = cellAt g1 h1 r c.
Proof.
  intros Hwf Hr Hc.
  destruct (proj2 (wfGrid_cellAt n grid h row col Hwf) (conj Hr Hc))
    as [cell Hcell].
  destruct (revealCell_result n grid h row col cell Hwf Hcell)
    as (g1 & h1 & Hrun1 & _ & Hwf1 & _ & Hat1 & Hskip1 & _).
  assert (exists y, cellAt g1 h1 row col = Some y /\ status y <> HIDDEN)
    as (y & Hy & Hsty).
  { destruct (decide (status cell = HIDDEN)) as [Hst|Hst].
    - eexists. split; [by apply Hat1|]. cbn. by destruct (explodes cell).
    - exists cell. by rewrite Hskip1. }
  destruct (revealCell_result n g1 h1 row col y Hwf1 Hy)
    as (g2 & h2 & Hrun2 & Hshape2 & _ & _ & _ & Hskip2 & _).
  assert (explodes y = false) as Hex
    by (unfold explodes; by rewrite bool_decide_eq_false_2).
  rewrite Hex in Hrun2. exists g1, (explodes cell), h1, g2, h2.
  split; [done|]. split; [done|]. split; [done|]. by apply Hskip2.
Qed.

(** X8: placeMines changes nothing but isMine and neighborMines: the
    returned grid has the shape of the input, and every cell keeps its row,
    col and status (a flag set before the first probe stays) and stays a
    mine if it was one.  Whatever mines the input had, the numbers of the
    result are those of the mines of the result. *)
Theorem placeMines_keeps n grid h fuel draws mineCount safeRow safeCol g' h' :
  wfGrid n grid h ->
  placeMines fuel draws grid mineCount safeRow safeCol h = Ok (g', h') ->
  sameShape grid g' /\
  (forall r c x,
     cellAt grid h r c = Some x ->
     exists y, cellAt g' h' r c = Some y /\
               row y = row x /\ col y = col x /\ status y = status x /\
               (isMine x = true -> isMine y = true)) /\
  numbersValid g' h'.
Proof.
  intros Hwf H.
  destruct (placeMines_cells _ _ _ _ _ _ _ _ _ _ Hwf H) as (_ & ? & ? & ?).
  done.
Qed.

(** X9: placeMines never throws on a square grid: with every draw inside
    the grid (as Math.floor(Math.random() * size) is), the call returns or
    its loop is still running when the step budget ends.  With
    mineCount <= 0 the loop body never runs, and the call returns without
    a draw. *)
Theorem placeMines_never_throws n grid h draws mineCount safeRow safeCol :
  wfGrid n grid h ->
  (forall j, 0 <= draws j < Z.of_nat n) ->
  (forall fuel,
     (exists res,
        placeMines fuel draws grid mineCount safeRow safeCol h = Ok res) \/
     placeMines fuel draws grid mineCount safeRow safeCol h = OutOfFuel) /\
  (mineCount <= 0 ->
   exists res,
     placeMines 0 draws grid mineCount safeRow safeCol h = Ok res).
Proof.
  intros Hwf Hdraws. split; [intros fuel; by apply (placeMines_no_throw n)|].
  intros Hk. unfold placeMines.
  destruct (cloneGrid_wf_total _ _ _ Hwf) as (newGrid & h0 & Hclone).
  rewrite Hclone. cbn [mbind Res_bind placeLoop].
  rewrite (proj2 (Z.ltb_ge 0 mineCount)) by lia. cbn [mbind Res_bind].
  pose proof (wfGrid_validRefs _ _ _ Hwf) as Hv.
  destruct (cloneGrid_spec _ _ _ _ Hv Hclone) as (Hfresh & _ & _ & _).
  pose proof (wfGrid_clone _ _ _ _ _ Hwf Hclone) as Hwf0.
  destruct Hwf as [-> _].
  destruct (calcNumbers_total _ _ _ _ Hfresh Hwf0) as (h2 & ->).
  by eexists.
Qed.

(** X10: placeMines does not end when asked for more mines than there are
    positions outside the safe zone: on a mine-free square grid, with every
    draw inside the grid, the placement loop is still running after any
    number of steps. *)
Theorem placeMines_overfull n grid h draws mineCount safeRow safeCol :
  wfGrid n grid h ->
  (forall r c cell, cellAt grid h r c = Some cell -> isMine cell = false) ->
  (forall j, 0 <= draws j < Z.of_nat n) ->
  Z.of_nat (roomOutside n (safeRow, safeCol)) < mineCount ->
  forall fuel,
    placeMines fuel draws grid mineCount safeRow safeCol h = OutOfFuel.
Proof.
  intros Hwf Hfree Hdraws Hroom fuel.
  destruct (placeMines_no_throw n fuel draws grid mineCount safeRow safeCol h
              Hwf Hdraws) as [[[g' h'] E]|E]; [|done].
  rewrite <- (Z2Nat.id mineCount) in E by lia.
  destruct (placeMines_mines _ _ _ _ _ _ _ _ _ _ Hwf Hfree E) as [Hk Hsafe].
  pose proof (mines_fit n g' h' (safeRow, safeCol) Hsafe). lia.
Qed.

(** X11: the first probe is safe.  When placeMines has put the mines with
    the probed cell as safe cell, revealCell on that cell returns
    exploded = false; and if the cell was Hidden, it and every Hidden cell
    next to it are Revealed in the result, none of them a mine. *)
Theorem first_probe_safe n grid h fuel draws (k : nat) row col g1 h1 :
  wfGrid n grid h ->
  (forall r c cell, cellAt grid h r c = Some cell -> isMine cell = false) ->
  0 <= row < Z.of_nat n -> 0 <= col < Z.of_nat n ->
  placeMines fuel draws grid (Z.of_nat k) row col h = Ok (g1, h1) ->
  exists g2 h2,
    revealCell g1 row col h1 = Ok (g2, false, h2) /\
    (hiddenAt grid h (row, col) ->
     forall q, near (row, col) q -> hiddenAt grid h q ->
               revealedAt g2 h2 q /\ mineAt g2 h2 q = false).
Proof.
  intros Hwf Hfree Hr Hc Hplace.
  destruct (placeMines_cells _ _ _ _ _ _ _ _ _ _ Hwf Hplace)
    as (Hwf1 & _ & Hvalid & Hkeep).
  destruct (placeMines_mines _ _ _ _ _ _ _ _ _ _ Hwf Hfree Hplace)
    as [_ Hsafe].
  destruct (proj2 (wfGrid_cellAt n grid h row col Hwf) (conj Hr Hc))
    as [x Hx].
  destruct (Hkeep _ _ _ Hx) as (y & Hy & _ & _ & Hsty & _).
  assert (isMine y = false) as Hmine.
  { specialize (Hsafe (row, col)). unfold mineAt in Hsafe. cbn in Hsafe.
    rewrite Hy in Hsafe. apply Hsafe. split; cbn; lia. }
  assert (neighborMines y = 0) as Hzero.
  { rewrite (Hvalid _ _ _ Hy Hmine), minesAmong_none; [done|].
    intros p Hp. by apply Hsafe, around_near. }
  destruct (revealCell_result n g1 h1 row col y Hwf1 Hy)
    as (g2 & h2 & Hrun & _ & _ & _ & _ & _ & Hfl).
  assert (explodes y = false) as Hex
    by (unfold explodes; by rewrite Hmine, andb_false_r).
  rewrite Hex in Hrun. exists g2, h2. split; [done|].
  intros (x0 & Hx0 & Hstx) [r c] Hnear (xq & Hxq & Hstq).
  cbn in Hx0, Hxq. assert (x0 = x) as -> by congruence.
  destruct (Hkeep _ _ _ Hxq) as (yq & Hyq & _ & _ & Hstyq & _).
  assert (floods g1 h1 (row, col) (r, c)) as Hflood.
  { apply (floods_step _ _ _ (row, col)).
    - apply floods_start. exists y. split; [done|congruence].
    - by exists y.
    - done.
    - exists yq. split; [done|congruence]. }
  pose proof (Hfl Hex _ _ _ Hflood Hyq) as Hq. split.
  - eexists. split; [exact Hq|done].
  - unfold mineAt. cbn. rewrite Hq. cbn.
    specialize (Hsafe (r, c) Hnear). unfold mineAt in Hsafe. cbn in Hsafe.
    by rewrite Hyq in Hsafe.
Qed.

(** X27: a probe on a cell that is no mine never uncovers a mine.  On a
    square grid whose non-mine cells carry their number of adjacent mines,
    revealCell on a cell that is no mine (whatever its status) returns
    exploded = false, returns every mine cell exactly as it was, and the
    numbers of the result are still valid. *)
Theorem revealCell_spares_mines n grid h row0 col0 cell :
  wfGrid n grid h ->
  numbersValid grid h ->
  cellAt grid h row0 col0 = Some cell ->
  isMine cell = false ->
  exists g' h',
    revealCell grid row0 col0 h = Ok (g', false, h') /\
    (forall r c x,
       cellAt grid h r c = Some x -> isMine x = true ->
       cellAt g' h' r c = Some x) /\
    numbersValid g' h'.
Proof.
  intros Hwf Hvalid Hcell Hmine.
  destruct (revealCell_result n grid h row0 col0 cell Hwf Hcell)
    as (g' & h' & Hrun & _ & Hwf' & Hcells & _).
  assert (explodes cell = false) as Hex
    by (unfold explodes; by rewrite Hmine, andb_false_r).
  rewrite Hex in *. exists g', h'. split; [done|]. split.
  - intros r c x Hx Hm.
    destruct (Hcells _ _ _ Hx) as [?|(_ & _ & _ & Hfl)]; [done|].
    assert (mineAt grid h (row0, col0) = false) as Hstart
      by (unfold mineAt; cbn; by rewrite Hcell).
    pose proof (floods_not_mine _ _ _ _ Hvalid Hstart (Hfl eq_refl)) as Hq.
    unfold mineAt in Hq. cbn in Hq. rewrite Hx in Hq. congruence.
  - apply (statusOnly_numbersValid grid h); [|done].
    apply (statusOnly_intro n); [done..|]. intros r c x Hx.
    destruct (Hcells _ _ _ Hx) as [E|(_ & E & _)]; rewrite E; [|eauto].
    exists (status x). by destruct x.
Qed.

(** X12: while a level is played, a hit keeps the game consistent.  From a
    state in which the flag counter is the number of flags on the grid, no
    cell is Exploded, every mine is Hidden or Flagged, and the grid holds
    no mine before the first probe and [mineCount] mines with valid numbers
    after it, handleProjectileUpdate leads to a state with the same
    properties, or, for a probe on a level whose mines are placed, to the
    state LOST.  The projectile is cleared and mineCount stays.  So the
    first probe of a level never loses, and the header's
    mineCount - flagsUsed counts mines minus flags on the board. *)
Theorem playing_preserved {P} n (s : App P) h fuel draws cellDiv type0
    s' effs h' :
  playing n s h ->
  handleProjectileUpdate fuel draws s cellDiv type0 h = Ok (s', effs, h') ->
  activeProjectile s' = None /\ mineCount s' = mineCount s /\
  (playing n s' h' \/
   (type0 = PROBE /\ hasFirstMoved s = true /\ gameState s' = LOST)).
Proof.
  intros Hplay H.
  apply handleProjectileUpdate_cases in H
    as [[= -> -> ->]|(r & c & cell & -> & Hcell & Hnr & Hne & H)].
  { split; [done|]. split; [done|]. by left. }
  apply (playing_setActiveProjectile n s h None) in Hplay.
  destruct type0.
  - destruct (processHit_probe_any n fuel draws (setActiveProjectile None s)
                r c cell h s' effs h' Hplay Hcell Hnr Hne H)
      as (Hk & Hap & _ & [(? & _ & ?)|[? _]]);
      (split; [done|]); (split; [done|]); [by right|by left].
  - destruct (processHit_flag n fuel draws (setActiveProjectile None s)
                r c cell h Hplay Hcell Hnr Hne)
      as (s1 & h1 & Hrun & Hplay1 & _ & Hk & _ & Hap & _).
    rewrite Hrun in H. inversion H; subst. split; [done|]. split; [done|].
    by left.
Qed.

(** X13: a probe that hits a Hidden mine ends the level.  Whatever the
    step budget, handleProjectileUpdate returns with gameState LOST,
    shake 20 and the one sound playSound(150, sawtooth, 0.5); in its grid
    every mine has status Revealed (the one hit too: revealCell had set it
    to Exploded, and the map of handleGameOver overwrites that), every
    other cell is as before the hit, and so no cell is Exploded.  The flag
    counter is not updated for the flagged mines that are now Revealed. *)
Theorem probe_on_mine_loses {P} n (s : App P) h fuel draws r c cell :
  playing n s h -> hasFirstMoved s = true ->
  cellAt (grid s) h r c = Some cell ->
  status cell = HIDDEN -> isMine cell = true ->
  exists s' h',
    handleProjectileUpdate fuel draws s (Some (r, c)) PROBE h
    = Ok (s', [playSound 150 sawtooth 0.5], h') /\
    gameState s' = LOST /\ shake s' = 20 /\ flagsUsed s' = flagsUsed s /\
    (forall r' c' x,
       cellAt (grid s) h r' c' = Some x ->
       cellAt (grid s') h' r' c'
       = Some (with_status (if isMine x then REVEALED else status x) x)) /\
    forall r' c' y, cellAt (grid s') h' r' c' = Some y ->
                    status y <> EXPLODED.
Proof.
  intros Hplay Hmoved Hcell Hst Hmine.
  pose proof Hplay as (_ & Hwf & _ & _ & Hcells & _).
  assert (0 <= r /\ 0 <= c) as [Hr Hc].
  { destruct (proj1 (wfGrid_cellAt n _ h r c Hwf)); [eauto|lia]. }
  apply (playing_setActiveProjectile n s h None) in Hplay.
  destruct (processHit_probe n fuel draws (setActiveProjectile None s) r c cell h Hplay Hmoved Hcell)
    as (s1 & effs1 & h1 & Hrun & _ & Hfl & _ & _ & Hwf1 & _ & Hres);
    [by rewrite Hst..|].
  assert (explodes cell = true) as Hex
    by (unfold explodes; by rewrite Hst, Hmine).
  rewrite Hex in Hres. destruct Hres as (Hgs & Hshake & -> & Hfinal).
  exists s1, h1. split.
  - rewrite (handleProjectileUpdate_hit _ _ _ _ _ cell); [done..| |];
      by rewrite Hst.
  - split; [done|]. split; [done|]. split; [done|]. split; [done|].
    intros r' c' y Hy.
    destruct (proj1 (wfGrid_cellAt n _ h1 r' c' Hwf1)) as [Hr' Hc']; [eauto|].
    destruct (proj2 (wfGrid_cellAt n _ h r' c' Hwf) (conj Hr' Hc'))
      as [x Hx].
    cbn [grid setActiveProjectile] in Hfinal.
    rewrite (Hfinal _ _ _ Hx) in Hy. inversion Hy; subst y. cbn.
    destruct (isMine x); [done|]. by apply (Hcells r' c').
Qed.

(** X14: once the mines are placed, no hit moves them.  From the first
    probe on, the grid after handleProjectileUpdate differs from the grid
    before in the statuses of cells at most: row, col, isMine and
    neighborMines of every cell stay, also when the hit loses the level. *)
Theorem mines_stay {P} n (s : App P) h fuel draws cellDiv type0 s' effs h' :
  playing n s h -> hasFirstMoved s = true ->
  handleProjectileUpdate fuel draws s cellDiv type0 h = Ok (s', effs, h') ->
  hasFirstMoved s' = true /\
  statusOnly (grid s) h (grid s') h' /\
  forall r c x,
    cellAt (grid s) h r c = Some x ->
    exists y, cellAt (grid s') h' r c = Some y /\
              row y = row x /\ col y = col x /\
              isMine y = isMine x /\ neighborMines y = neighborMines x.
Proof.
  intros Hplay Hmoved H.
  assert (hasFirstMoved s' = true /\ statusOnly (grid s) h (grid s') h')
    as [Hm Hso].
  { apply handleProjectileUpdate_cases in H
      as [[= -> -> ->]|(r & c & cell & -> & Hcell & Hnr & Hne & H)].
    { split; [done|]. apply statusOnly_refl. }
    apply (playing_setActiveProjectile n s h None) in Hplay.
    destruct type0.
    - destruct (processHit_probe n fuel draws (setActiveProjectile None s) r c cell h Hplay Hmoved
                  Hcell Hnr Hne)
        as (s1 & effs1 & h1 & Hrun & _ & _ & ? & _ & _ & ? & _).
      rewrite Hrun in H. by inversion H; subst.
    - destruct (processHit_flag n fuel draws (setActiveProjectile None s) r c cell h Hplay Hcell Hnr Hne)
        as (s1 & h1 & Hrun & _ & _ & _ & Hhm & _ & ? & _).
      rewrite Hrun in H. inversion H; subst. split; [|done].
      by rewrite Hhm. }
  split; [done|]. split; [done|]. intros r c x Hx.
  destruct (statusOnly_cell _ _ _ _ _ _ _ Hso Hx) as (st & ->). eauto 10.
Qed.

(** X15: a probe that does not lose ends with the win test.  When a probe
    hits a Hidden or Flagged cell and the level goes on, the handler plays
    playSound(600, sine, 0.05), and it schedules the change to WON
    (setTimeout of 500 ms, after playSound(800, sine, 0.2)) exactly when
    every cell of the new grid that is no mine is Revealed; a probe on a
    Flagged cell reveals nothing and still runs the test. *)
Theorem probe_checks_win {P} n (s : App P) h fuel draws r c cell
    s' effs h' :
  playing n s h ->
  cellAt (grid s) h r c = Some cell ->
  status cell = HIDDEN \/ status cell = FLAGGED ->
  handleProjectileUpdate fuel draws s (Some (r, c)) PROBE h
  = Ok (s', effs, h') ->
  gameState s' = PLAYING ->
  (effs = [playSound 600 sine 0.05; playSound 800 sine 0.2;
           setTimeout WON 500] \/
   effs = [playSound 600 sine 0.05]) /\
  (setTimeout WON 500 ∈ effs <->
   forall r' c' x, cellAt (grid s') h' r' c' = Some x ->
                   isMine x = false -> status x = REVEALED).
Proof.
  intros Hplay Hcell Hst H Hgs'.
  assert (status cell <> REVEALED /\ status cell <> EXPLODED) as [Hnr Hne]
    by (destruct Hst as [-> | ->]; done).
  rewrite (handleProjectileUpdate_hit _ _ _ _ _ cell) in H by done.
  apply (playing_setActiveProjectile n s h None) in Hplay.
  destruct (processHit_probe_any n fuel draws (setActiveProjectile None s)
              r c cell h s' effs h' Hplay Hcell Hnr Hne H)
    as (_ & _ & _ & [(_ & _ & ?)|[Hplay' (won & Hwin & ->)]]); [congruence|].
  destruct Hplay' as (_ & Hwf' & _).
  rewrite (checkWinCondition_formula n) in Hwin by done.
  inversion Hwin as [Hwon]. rewrite <- (allSafeRevealed_true n) by done.
  destruct (allSafeRevealed n (grid s') h').
  - split; [by left|]. split; [done|]. intros _.
    unfold handleLevelComplete. do 2 apply list_elem_of_further.
    apply list_elem_of_here.
  - split; [by right|]. split; [|done].
    intros Hin. apply elem_of_cons in Hin as [Hin|Hin]; [discriminate Hin|].
    by apply elem_of_nil in Hin.
Qed.


(** X16: the shot lands where it was predicted, and is resolved once.  In
    either arithmetic: a projectile launched from the ground (z = 0) whose
    flight first comes down at tick k <= 800 and is on the canvas after
    each of the ticks 1..k makes animate call onHit in frame k and in no
    other frame, once, with the position that calculateLandingPos returns
    for its start position and velocities. *)
Theorem animate_hits_prediction {N : Type} `{JSNumber N}
    (w : N) (p : Projectile N) (k m : nat) :
  active p = true -> z p = lit 0 ->
  (1 <= k <= 800)%nat ->
  landsAt k (flightOf p) = true ->
  staysInside w k (flightOf p) = true ->
  hitsOver (k - 1) w (Some p) = [] /\
  hitsOver (k + m) w (Some p)
  = [(calculateLandingPos (position p) (velocity p) (vz p), type p)].
Proof.
  intros Hact Hz Hk Hland Hin.
  destruct (hitsOver_landing w k m p Hact) as [Hnone Hone]; [lia|done..|].
  split; [done|]. rewrite Hone. do 2 f_equal.
  assert (flightOf p = launch (position p) (velocity p) (vz p)) as Hfl
    by (unfold flightOf, launch; by rewrite Hz).
  rewrite Hfl in *. symmetry. by apply calculateLandingPos_landsAt.
Qed.








(** X23: masteryRank holds the first ten entries of the leaderboard in
    the order "higher level first, at equal level fewer probes first" (all
    of them when there are fewer than ten): its length is
    min(10, length), each entry ranks no later than every entry after it,
    its entries with the entries left out are the leaderboard, and no
    entry left out ranks strictly before a listed one. *)
Theorem masteryRank_spec (leaderboard : list LeaderboardEntry) :
  length (masteryRank leaderboard) = Nat.min 10 (length leaderboard) /\
  (forall i j a b,
     (i < j)%nat ->
     masteryRank leaderboard !! i = Some a ->
     masteryRank leaderboard !! j = Some b ->
     level b < level a \/
     (level a = level b /\ totalProbes a <= totalProbes b)) /\
  exists rest,
    masteryRank leaderboard ++ rest ≡ₚ leaderboard /\
    forall a b,
      a ∈ masteryRank leaderboard -> b ∈ rest ->
      level b < level a \/
      (level a = level b /\ totalProbes a <= totalProbes b).
Proof.
  destruct (take_sort_spec masteryCompare) with (n := 10%nat)
    (l := leaderboard) as (Hlen & Hord & rest & Hperm & Hrest).
  { intros a b. rewrite !masteryCompare_spec. lia. }
  { intros a b c. rewrite !masteryCompare_spec. lia. }
  split; [done|]. split.
  - intros i j a b Hij Hi Hj. apply masteryCompare_spec.
    by apply (Hord i j).
  - exists rest. split; [done|]. intros a b Ha Hb.
    apply masteryCompare_spec. by apply Hrest.
Qed.

(** X24: efficiencyRank holds the first ten entries of the leaderboard in
    the order "fewer probes first, at equal probes higher level first":
    its length is min(10, length), each entry ranks no later than every
    entry after it, its entries with the entries left out are the
    leaderboard, and no entry left out ranks strictly before a listed
    one. *)
Theorem efficiencyRank_spec (leaderboard : list LeaderboardEntry) :
  length (efficiencyRank leaderboard) = Nat.min 10 (length leaderboard) /\
  (forall i j a b,
     (i < j)%nat ->
     efficiencyRank leaderboard !! i = Some a ->
     efficiencyRank leaderboard !! j = Some b ->
     totalProbes a < totalProbes b \/
     (totalProbes a = totalProbes b /\ level b <= level a)) /\
  exists rest,
    efficiencyRank leaderboard ++ rest ≡ₚ leaderboard /\
    forall a b,
      a ∈ efficiencyRank leaderboard -> b ∈ rest ->
      totalProbes a < totalProbes b \/
      (totalProbes a = totalProbes b /\ level b <= level a).
Proof.
  destruct (take_sort_spec efficiencyCompare) with (n := 10%nat)
    (l := leaderboard) as (Hlen & Hord & rest & Hperm & Hrest).
  { intros a b. rewrite !efficiencyCompare_spec. lia. }
  { intros a b c. rewrite !efficiencyCompare_spec. lia. }
  split; [done|]. split.
  - intros i j a b Hij Hi Hj. apply efficiencyCompare_spec.
    by apply (Hord i j).
  - exists rest. split; [done|]. intros a b Ha Hb.
    apply efficiencyCompare_spec. by apply Hrest.
Qed.

(** ** Witnesses of the further properties *)

(** Witness of X2: a flag on the centre of the fresh 3 x 3 board. *)
Lemma toggleFlag_spec_witness :
  wfGrid 3 fresh3.1 fresh3.2 /\
  cellAt fresh3.1 fresh3.2 1 1 = Some (emptyCell 1 1) /\
  exists g' h',
    toggleFlag fresh3.1 1 1 fresh3.2 = Ok (g', h') /\
    sameShape fresh3.1 g' /\
    cellAt g' h' 1 1
    = Some (with_status (toggled (status (emptyCell 1 1))) (emptyCell 1 1)) /\
    forall r c, (r, c) <> (1, 1) ->
                cellAt g' h' r c = cellAt fresh3.1 fresh3.2 r c.
Proof.
  assert (wfGrid 3 fresh3.1 fresh3.2) as Hwf
    by (apply wfGrid_check; vm_compute; reflexivity).
  assert (cellAt fresh3.1 fresh3.2 1 1 = Some (emptyCell 1 1)) as Hcell
    by (vm_compute; reflexivity).
  split; [exact Hwf|]. split; [exact Hcell|].
  exact (toggleFlag_spec 3 fresh3.1 fresh3.2 1 1 (emptyCell 1 1) Hwf Hcell).
Defined.

(** Witness of X3: the same cell toggled twice. *)
Lemma toggleFlag_twice_witness :
  wfGrid 3 fresh3.1 fresh3.2 /\
  0 <= 1 < Z.of_nat 3 /\
  exists g1 h1 g2 h2,
    toggleFlag fresh3.1 1 1 fresh3.2 = Ok (g1, h1) /\
    toggleFlag g1 1 1 h1 = Ok (g2, h2) /\
    sameShape fresh3.1 g2 /\
    forall r c, cellAt g2 h2 r c = cellAt fresh3.1 fresh3.2 r c.
Proof.
  assert (wfGrid 3 fresh3.1 fresh3.2) as Hwf
    by (apply wfGrid_check; vm_compute; reflexivity).
  assert (0 <= 1 < Z.of_nat 3) as Hin by (cbn; lia).
  split; [exact Hwf|]. split; [exact Hin|].
  exact (toggleFlag_twice 3 fresh3.1 fresh3.2 1 1 Hwf Hin Hin).
Defined.

(** Witness of X4: row 3 of the 3 x 3 board. *)
Lemma reveal_toggle_outside_witness :
  wfGrid 3 fresh3.1 fresh3.2 /\
  ~ (0 <= 3 < Z.of_nat 3 /\ 0 <= 0 < Z.of_nat 3) /\
  revealCell fresh3.1 3 0 fresh3.2 = TypeError /\
  toggleFlag fresh3.1 3 0 fresh3.2 = TypeError.
Proof.
  assert (wfGrid 3 fresh3.1 fresh3.2) as Hwf
    by (apply wfGrid_check; vm_compute; reflexivity).
  assert (~ (0 <= 3 < Z.of_nat 3 /\ 0 <= 0 < Z.of_nat 3)) as Hout
    by (cbn; lia).
  split; [exact Hwf|]. split; [exact Hout|].
  exact (reveal_toggle_outside 3 fresh3.1 fresh3.2 3 0 Hwf Hout).
Defined.

(** Witness of X5: the cell (0,0) of the demo board, next to the mine
    (1,1). *)
Lemma revealCell_numbered_witness :
  wfGrid 5 demo5.1 demo5.2 /\
  cellAt demo5.1 demo5.2 0 0 = Some (mkCell 0 0 false HIDDEN 1) /\
  exists g' h',
    revealCell demo5.1 0 0 demo5.2 = Ok (g', false, h') /\
    sameShape demo5.1 g' /\
    cellAt g' h' 0 0 = Some (with_status REVEALED (mkCell 0 0 false HIDDEN 1)) /\
    forall r c, (r, c) <> (0, 0) ->
                cellAt g' h' r c = cellAt demo5.1 demo5.2 r c.
Proof.
  assert (wfGrid 5 demo5.1 demo5.2) as Hwf
    by (apply wfGrid_check; vm_compute; reflexivity).
  assert (cellAt demo5.1 demo5.2 0 0 = Some (mkCell 0 0 false HIDDEN 1))
    as Hcell by (vm_compute; reflexivity).
  split; [exact Hwf|]. split; [exact Hcell|].
  refine (revealCell_numbered 5 demo5.1 demo5.2 0 0 _ Hwf Hcell
            eq_refl eq_refl _).
  cbn. lia.
Defined.

(** Witness of X6: the mine (1,1) of the demo board. *)
Lemma revealCell_keeps_witness :
  wfGrid 5 demo5.1 demo5.2 /\
  cellAt demo5.1 demo5.2 1 1 = Some (mkCell 1 1 true HIDDEN 0) /\
  exists g' h',
    revealCell demo5.1 1 1 demo5.2
    = Ok (g', explodes (mkCell 1 1 true HIDDEN 0), h') /\
    sameShape demo5.1 g' /\
    (forall r c x,
       cellAt demo5.1 demo5.2 r c = Some x ->
       exists y,
         cellAt g' h' r c = Some y /\
         row y = row x /\ col y = col x /\
         isMine y = isMine x /\ neighborMines y = neighborMines x /\
         (status x <> HIDDEN -> status y = status x) /\
         (status y = status x \/ status y = REVEALED \/
          (status y = EXPLODED /\ (r, c) = (1, 1) /\ isMine x = true))) /\
    exists y, cellAt g' h' 1 1 = Some y /\ status y <> HIDDEN.
Proof.
  assert (wfGrid 5 demo5.1 demo5.2) as Hwf
    by (apply wfGrid_check; vm_compute; reflexivity).
  assert (cellAt demo5.1 demo5.2 1 1 = Some (mkCell 1 1 true HIDDEN 0))
    as Hcell by (vm_compute; reflexivity).
  split; [exact Hwf|]. split; [exact Hcell|].
  exact (revealCell_keeps 5 demo5.1 demo5.2 1 1 _ Hwf Hcell).
Defined.

(** Witness of X7: the zero cell (4,0) of the demo board, probed twice. *)
Lemma revealCell_twice_witness :
  wfGrid 5 demo5.1 demo5.2 /\
  0 <= 4 < Z.of_nat 5 /\ 0 <= 0 < Z.of_nat 5 /\
  exists g1 b h1 g2 h2,
    revealCell demo5.1 4 0 demo5.2 = Ok (g1, b, h1) /\
    revealCell g1 4 0 h1 = Ok (g2, false, h2) /\
    sameShape g1 g2 /\
    forall r c, cellAt g2 h2 r c = cellAt g1 h1 r c.
Proof.
  assert (wfGrid 5 demo5.1 demo5.2) as Hwf
    by (apply wfGrid_check; vm_compute; reflexivity).
  assert (0 <= 4 < Z.of_nat 5) as Hr by (cbn; lia).
  assert (0 <= 0 < Z.of_nat 5) as Hc by (cbn; lia).
  split; [exact Hwf|]. split; [exact Hr|]. split; [exact Hc|].
  exact (revealCell_twice 5 demo5.1 demo5.2 4 0 Hwf Hr Hc).
Defined.

(** Witness of X8: the placement that gives the demo board. *)
Lemma placeMines_keeps_witness :
  wfGrid 5 fresh5.1 fresh5.2 /\
  placeMines 3 demoDraws fresh5.1 3 4 0 fresh5.2 = Ok (demo5.1, demo5.2) /\
  sameShape fresh5.1 demo5.1 /\
  (forall r c x,
     cellAt fresh5.1 fresh5.2 r c = Some x ->
     exists y, cellAt demo5.1 demo5.2 r c = Some y /\
               row y = row x /\ col y = col x /\ status y = status x /\
               (isMine x = true -> isMine y = true)) /\
  numbersValid demo5.1 demo5.2.
Proof.
  assert (wfGrid 5 fresh5.1 fresh5.2) as Hwf
    by (apply wfGrid_check; vm_compute; reflexivity).
  assert (placeMines 3 demoDraws fresh5.1 3 4 0 fresh5.2
          = Ok (demo5.1, demo5.2)) as Hrun by (vm_compute; reflexivity).
  split; [exact Hwf|]. split; [exact Hrun|].
  exact (placeMines_keeps 5 fresh5.1 fresh5.2 3 demoDraws 3 4 0
           demo5.1 demo5.2 Hwf Hrun).
Defined.

(** Witness of X9: the fresh 5 x 5 board and the draws of the demo. *)
Lemma placeMines_never_throws_witness :
  wfGrid 5 fresh5.1 fresh5.2 /\
  (forall j, 0 <= demoDraws j < Z.of_nat 5) /\
  (forall fuel,
     (exists res,
        placeMines fuel demoDraws fresh5.1 3 4 0 fresh5.2 = Ok res) \/
     placeMines fuel demoDraws fresh5.1 3 4 0 fresh5.2 = OutOfFuel) /\
  (3 <= 0 ->
   exists res, placeMines 0 demoDraws fresh5.1 3 4 0 fresh5.2 = Ok res).
Proof.
  assert (wfGrid 5 fresh5.1 fresh5.2) as Hwf
    by (apply wfGrid_check; vm_compute; reflexivity).
  split; [exact Hwf|]. split; [exact demoDraws_range|].
  exact (placeMines_never_throws 5 fresh5.1 fresh5.2 demoDraws 3 4 0
           Hwf demoDraws_range).
Defined.

(** Witness of X10: one mine asked for on the 3 x 3 board with the centre
    as safe cell, where the safe zone is the whole board. *)
Lemma placeMines_overfull_witness :
  wfGrid 3 fresh3.1 fresh3.2 /\
  (forall r c cell,
     cellAt fresh3.1 fresh3.2 r c = Some cell -> isMine cell = false) /\
  (forall j : nat, 0 <= 0 < Z.of_nat 3) /\
  Z.of_nat (roomOutside 3 (1, 1)) < 1 /\
  forall fuel,
    placeMines fuel (fun _ => 0) fresh3.1 1 1 1 fresh3.2 = OutOfFuel.
Proof.
  assert (wfGrid 3 fresh3.1 fresh3.2) as Hwf
    by (apply wfGrid_check; vm_compute; reflexivity).
  assert (forall r c cell,
            cellAt fresh3.1 fresh3.2 r c = Some cell -> isMine cell = false)
    as Hfree by (apply (mineFree_sound 3); [exact Hwf|vm_compute; reflexivity]).
  assert (forall j : nat, 0 <= 0 < Z.of_nat 3) as Hdraws by (cbn; lia).
  assert (Z.of_nat (roomOutside 3 (1, 1)) < 1) as Hroom
    by (vm_compute; reflexivity).
  split; [exact Hwf|]. split; [exact Hfree|]. split; [exact Hdraws|].
  split; [exact Hroom|].
  exact (placeMines_overfull 3 fresh3.1 fresh3.2 (fun _ => 0) 1 1 1
           Hwf Hfree Hdraws Hroom).
Defined.

(** Witness of X11: the first probe on (4,0) of a fresh 5 x 5 board. *)
Lemma first_probe_safe_witness :
  wfGrid 5 fresh5.1 fresh5.2 /\
  (forall r c cell,
     cellAt fresh5.1 fresh5.2 r c = Some cell -> isMine cell = false) /\
  0 <= 4 < Z.of_nat 5 /\ 0 <= 0 < Z.of_nat 5 /\
  placeMines 3 demoDraws fresh5.1 (Z.of_nat 3) 4 0 fresh5.2
  = Ok (demo5.1, demo5.2) /\
  exists g2 h2,
    revealCell demo5.1 4 0 demo5.2 = Ok (g2, false, h2) /\
    (hiddenAt fresh5.1 fresh5.2 (4, 0) ->
     forall q, near (4, 0) q -> hiddenAt fresh5.1 fresh5.2 q ->
               revealedAt g2 h2 q /\ mineAt g2 h2 q = false).
Proof.
  assert (wfGrid 5 fresh5.1 fresh5.2) as Hwf
    by (apply wfGrid_check; vm_compute; reflexivity).
  assert (forall r c cell,
            cellAt fresh5.1 fresh5.2 r c = Some cell -> isMine cell = false)
    as Hfree by (apply (mineFree_sound 5); [exact Hwf|vm_compute; reflexivity]).
  assert (0 <= 4 < Z.of_nat 5) as Hr by (cbn; lia).
  assert (0 <= 0 < Z.of_nat 5) as Hc by (cbn; lia).
  assert (placeMines 3 demoDraws fresh5.1 (Z.of_nat 3) 4 0 fresh5.2
          = Ok (demo5.1, demo5.2)) as Hrun by (vm_compute; reflexivity).
  split; [exact Hwf|]. split; [exact Hfree|]. split; [exact Hr|].
  split; [exact Hc|]. split; [exact Hrun|].
  exact (first_probe_safe 5 fresh5.1 fresh5.2 3 demoDraws 3 4 0
           demo5.1 demo5.2 Hwf Hfree Hr Hc Hrun).
Defined.

(** Witness of X12: a probe on the zero cell (4,0) of the demo board in
    play. *)
Lemma playing_preserved_witness :
  playing 5 demoState demo5.2 /\
  handleProjectileUpdate 0 demoDraws demoState (Some (4, 0)) PROBE demo5.2
  = Ok demoProbe /\
  activeProjectile demoProbe.1.1 = None /\
  mineCount demoProbe.1.1 = mineCount demoState /\
  (playing 5 demoProbe.1.1 demoProbe.2 \/
   (PROBE = PROBE /\ hasFirstMoved demoState = true /\
    gameState demoProbe.1.1 = LOST)).
Proof.
  assert (playing 5 demoState demo5.2) as Hplay
    by (apply playingb_sound; vm_compute; reflexivity).
  assert (handleProjectileUpdate 0 demoDraws demoState (Some (4, 0)) PROBE
            demo5.2 = Ok (demoProbe.1.1, demoProbe.1.2, demoProbe.2)) as Hrun
    by (vm_compute; reflexivity).
  split; [exact Hplay|]. split; [exact Hrun|].
  exact (playing_preserved 5 demoState demo5.2 0 demoDraws (Some (4, 0)) PROBE
           demoProbe.1.1 demoProbe.1.2 demoProbe.2 Hplay Hrun).
Defined.

(** Witness of X13: a probe on the mine (1,1) of the demo board. *)
Lemma probe_on_mine_loses_witness :
  playing 5 demoState demo5.2 /\
  hasFirstMoved demoState = true /\
  cellAt (grid demoState) demo5.2 1 1 = Some (mkCell 1 1 true HIDDEN 0) /\
  exists s' h',
    handleProjectileUpdate 7 demoDraws demoState (Some (1, 1)) PROBE demo5.2
    = Ok (s', [playSound 150 sawtooth 0.5], h') /\
    gameState s' = LOST /\ shake s' = 20 /\
    flagsUsed s' = flagsUsed demoState /\
    (forall r' c' x,
       cellAt (grid demoState) demo5.2 r' c' = Some x ->
       cellAt (grid s') h' r' c'
       = Some (with_status (if isMine x then REVEALED else status x) x)) /\
    forall r' c' y, cellAt (grid s') h' r' c' = Some y ->
                    status y <> EXPLODED.
Proof.
  assert (playing 5 demoState demo5.2) as Hplay
    by (apply playingb_sound; vm_compute; reflexivity).
  assert (cellAt (grid demoState) demo5.2 1 1
          = Some (mkCell 1 1 true HIDDEN 0)) as Hcell
    by (vm_compute; reflexivity).
  split; [exact Hplay|]. split; [reflexivity|]. split; [exact Hcell|].
  exact (probe_on_mine_loses 5 demoState demo5.2 7 demoDraws 1 1 _
           Hplay eq_refl Hcell eq_refl eq_refl).
Defined.

(** Witness of X14: a flag on the mine (1,1) of the demo board. *)
Lemma mines_stay_witness :
  playing 5 demoState demo5.2 /\
  hasFirstMoved demoState = true /\
  handleProjectileUpdate 0 demoDraws demoState (Some (1, 1)) FLAG demo5.2
  = Ok demoFlag /\
  hasFirstMoved demoFlag.1.1 = true /\
  statusOnly (grid demoState) demo5.2 (grid demoFlag.1.1) demoFlag.2 /\
  forall r c x,
    cellAt (grid demoState) demo5.2 r c = Some x ->
    exists y, cellAt (grid demoFlag.1.1) demoFlag.2 r c = Some y /\
              row y = row x /\ col y = col x /\
              isMine y = isMine x /\ neighborMines y = neighborMines x.
Proof.
  assert (playing 5 demoState demo5.2) as Hplay
    by (apply playingb_sound; vm_compute; reflexivity).
  assert (handleProjectileUpdate 0 demoDraws demoState (Some (1, 1)) FLAG
            demo5.2 = Ok (demoFlag.1.1, demoFlag.1.2, demoFlag.2)) as Hrun
    by (vm_compute; reflexivity).
  split; [exact Hplay|]. split; [reflexivity|]. split; [exact Hrun|].
  exact (mines_stay 5 demoState demo5.2 0 demoDraws (Some (1, 1)) FLAG
           demoFlag.1.1 demoFlag.1.2 demoFlag.2 Hplay eq_refl Hrun).
Defined.

(** Witness of X15: the probe on (4,0) of the demo board leaves cells to
    clear, so nothing is scheduled. *)
Lemma probe_checks_win_witness :
  playing 5 demoState demo5.2 /\
  cellAt (grid demoState) demo5.2 4 0 = Some (mkCell 4 0 false HIDDEN 0) /\
  handleProjectileUpdate 0 demoDraws demoState (Some (4, 0)) PROBE demo5.2
  = Ok demoProbe /\
  gameState demoProbe.1.1 = PLAYING /\
  (demoProbe.1.2 = [playSound 600 sine 0.05; playSound 800 sine 0.2;
                    setTimeout WON 500] \/
   demoProbe.1.2 = [playSound 600 sine 0.05]) /\
  (setTimeout WON 500 ∈ demoProbe.1.2 <->
   forall r' c' x, cellAt (grid demoProbe.1.1) demoProbe.2 r' c' = Some x ->
                   isMine x = false -> status x = REVEALED).
Proof.
  assert (playing 5 demoState demo5.2) as Hplay
    by (apply playingb_sound; vm_compute; reflexivity).
  assert (cellAt (grid demoState) demo5.2 4 0
          = Some (mkCell 4 0 false HIDDEN 0)) as Hcell
    by (vm_compute; reflexivity).
  assert (handleProjectileUpdate 0 demoDraws demoState (Some (4, 0)) PROBE
            demo5.2 = Ok (demoProbe.1.1, demoProbe.1.2, demoProbe.2)) as Hrun
    by (vm_compute; reflexivity).
  split; [exact Hplay|]. split; [exact Hcell|]. split; [exact Hrun|].
  split; [reflexivity|].
  exact (probe_checks_win 5 demoState demo5.2 0 demoDraws 4 0 _
           demoProbe.1.1 demoProbe.1.2 demoProbe.2 Hplay Hcell
           (or_introl eq_refl) Hrun eq_refl).
Defined.


(** Witness of X16: in binary64, a shot pulled 40 straight up in a window
    800 wide lands after tick 25, at the predicted point. *)
Lemma animate_hits_prediction_witness :
  active (shortShot (N := float)) = true /\
  z (shortShot (N := float)) = lit 0 /\
  (1 <= 25 <= 800)%nat /\
  landsAt 25 (flightOf (shortShot (N := float))) = true /\
  staysInside (lit 800) 25 (flightOf (shortShot (N := float))) = true /\
  hitsOver (25 - 1) (lit 800) (Some (shortShot (N := float))) = [] /\
  hitsOver (25 + 10) (lit 800) (Some (shortShot (N := float)))
  = [(calculateLandingPos (position (shortShot (N := float)))
                          (velocity (shortShot (N := float)))
                          (vz (shortShot (N := float))),
      type (shortShot (N := float)))].
Proof.
  assert (1 <= 25 <= 800)%nat as Hk by lia.
  assert (landsAt 25 (flightOf (shortShot (N := float))) = true) as Hland
    by (vm_compute; reflexivity).
  assert (staysInside (lit 800) 25 (flightOf (shortShot (N := float))) = true)
    as Hin by (vm_compute; reflexivity).
  split; [reflexivity|]. split; [reflexivity|]. split; [exact Hk|].
  split; [exact Hland|]. split; [exact Hin|].
  exact (animate_hits_prediction (lit 800) shortShot 25 10
           eq_refl eq_refl Hk Hland Hin).
Defined.







(** Witness of X27: the numbered cell (0,0) of the demo board. *)
Lemma revealCell_spares_mines_witness :
  wfGrid 5 demo5.1 demo5.2 /\
  numbersValid demo5.1 demo5.2 /\
  cellAt demo5.1 demo5.2 0 0 = Some (mkCell 0 0 false HIDDEN 1) /\
  exists g' h',
    revealCell demo5.1 0 0 demo5.2 = Ok (g', false, h') /\
    (forall r c x,
       cellAt demo5.1 demo5.2 r c = Some x -> isMine x = true ->
       cellAt g' h' r c = Some x) /\
    numbersValid g' h'.
Proof.
  assert (wfGrid 5 demo5.1 demo5.2) as Hwf
    by (apply wfGrid_check; vm_compute; reflexivity).
  assert (numbersValid demo5.1 demo5.2) as Hvalid
    by (apply (numbersValidb_sound 5); [exact Hwf|vm_compute; reflexivity]).
  assert (cellAt demo5.1 demo5.2 0 0 = Some (mkCell 0 0 false HIDDEN 1))
    as Hcell by (vm_compute; reflexivity).
  split; [exact Hwf|]. split; [exact Hvalid|]. split; [exact Hcell|].
  exact (revealCell_spares_mines 5 demo5.1 demo5.2 0 0 _ Hwf Hvalid Hcell
           eq_refl).
Defined.

(** X28: the reticle is where the shot will land.  In either arithmetic:
    the prediction of draw puts the reticle at the very point that
    calculateLandingPos returns for a launch from 30 above the slingshot
    with the same velocities, and draws it exactly when that flight comes
    down within 800 ticks; otherwise the flight is above the ground after
    each of the 800 ticks and no reticle is drawn.  Every dot of the
    trajectory has an index i divisible by 3 and is drawn at the position
    of the flight after tick i + 1, raised by its altitude, which is above
    0 after each tick up to that one. *)
Theorem drawPrediction_spec {N : Type} `{JSNumber N}
    (slingshotOrigin simVelocity : Vector N) (simVz : N) :
  match (drawPrediction slingshotOrigin simVelocity simVz).2 with
  | Some pos =>
      pos = calculateLandingPos (launchOrigin slingshotOrigin)
                                simVelocity simVz /\
      exists k, (1 <= k <= 800)%nat /\
        landsAt k (launch (launchOrigin slingshotOrigin) simVelocity simVz)
        = true
  | None =>
      forall k, (1 <= k <= 800)%nat ->
        landed (flightAfter k (launch (launchOrigin slingshotOrigin)
                                      simVelocity simVz)) = false
  end /\
  forall d, d ∈ (drawPrediction slingshotOrigin simVelocity simVz).1 ->
    (dot_i d mod 3 = 0)%nat /\ (dot_i d < 800)%nat /\
    (forall k, (1 <= k <= S (dot_i d))%nat ->
       landed (flightAfter k (launch (launchOrigin slingshotOrigin)
                                     simVelocity simVz)) = false) /\
    dot_x d = at_x (flightAfter (S (dot_i d))
                      (launch (launchOrigin slingshotOrigin)
                              simVelocity simVz)) /\
    dot_y d = (at_y (flightAfter (S (dot_i d))
                       (launch (launchOrigin slingshotOrigin)
                               simVelocity simVz))
               - at_z (flightAfter (S (dot_i d))
                         (launch (launchOrigin slingshotOrigin)
                                 simVelocity simVz)))%num.
Proof.
  change (drawPrediction slingshotOrigin simVelocity simVz)
    with (predictionLoop 800 0
            (at_x (launch (launchOrigin slingshotOrigin) simVelocity simVz))
            (at_y (launch (launchOrigin slingshotOrigin) simVelocity simVz))
            (at_z (launch (launchOrigin slingshotOrigin) simVelocity simVz))
            (vel_x (launch (launchOrigin slingshotOrigin) simVelocity simVz))
            (vel_y (launch (launchOrigin slingshotOrigin) simVelocity simVz))
            (vel_z (launch (launchOrigin slingshotOrigin) simVelocity simVz))).
  pose proof (predictionLoop_spec 800 0
                (launch (launchOrigin slingshotOrigin) simVelocity simVz))
    as Hspec.
  cbv zeta in Hspec. destruct Hspec as [Hreticle Hdots]. split.
  - destruct (predictionLoop 800 0 _ _ _ _ _ _).2 as [pos|];
      [|exact Hreticle].
    destruct Hreticle as (k & Hk & Hland & Hpos). split.
    + rewrite Hpos. symmetry.
      exact (calculateLandingPos_landsAt _ _ _ k Hk Hland).
    + exists k. split; [exact Hk|exact Hland].
  - intros d Hd. destruct (Hdots d Hd) as (j & Hi & Hm & Hj & Hfly & Hx & Hy).
    rewrite Nat.add_0_l in Hi. rewrite Hi.
    split; [by rewrite <- Hi|]. split; [lia|].
    split; [exact Hfly|]. split; [exact Hx|exact Hy].
Qed.
(** X29: one pass of the particle loop of draw.  In either arithmetic and
    for every particle array, the loop never reads past the array (no
    TypeError), moves every particle exactly once, leaves in the array the
    moved particles whose life is still above 0, in their order, and draws
    one arc for each of those, from the last to the first. *)
Theorem drawParticles_spec {N : Type} `{JSNumber N}
    (particles : list (Particle N)) :
  drawParticles particles
  = Ok (List.filter alive (map moveParticle particles),
        map particleArc
            (rev (List.filter alive (map moveParticle particles)))).
Proof.
  unfold drawParticles.
  pose proof (particleLoop_spec particles [] []) as Hloop.
  by rewrite !app_nil_r in Hloop.
Qed.

(** X30: an explosion lasts 33 frames.  In exact arithmetic and on
    doubles: the fifteen particles that createExplosion pushes are in the
    array, each moved k times, after each of the next k <= 33 frames,
    whatever other particles there are, and after 34 frames the array is
    what it would be without the explosion. *)
Theorem explosion_fades :
  (forall (x y z0 : Q) color random (ps : list (Particle Q)),
     (forall k, (k <= 33)%nat ->
        exists old,
          particlesAfter k ps = Ok old /\
          particlesAfter k (createExplosion x y z0 color random ps)
          = Ok (old ++ map (Nat.iter k moveParticle)
                           (createExplosion x y z0 color random []))) /\
     particlesAfter 34 (createExplosion x y z0 color random ps)
     = particlesAfter 34 ps) /\
  (forall (x y z0 : float) color random (ps : list (Particle float)),
     (forall k, (k <= 33)%nat ->
        exists old,
          particlesAfter k ps = Ok old /\
          particlesAfter k (createExplosion x y z0 color random ps)
          = Ok (old ++ map (Nat.iter k moveParticle)
                           (createExplosion x y z0 color random []))) /\
     particlesAfter 34 (createExplosion x y z0 color random ps)
     = particlesAfter 34 ps).
Proof.
  split; intros x y z0 color random ps;
    apply (explosion_span 33); vm_compute; reflexivity.
Qed.
